(** * Crystal Store: order and coupon reconciliation

    A shallow embedding of the coupon ledger ([utils/coupons.js]), the
    pending-coupon association ([utils/pendingCoupons.js]), the Cryptomus
    webhook authenticity check ([utils/crypto.js]) and the webhook and
    product-selection handlers of the bot's entry point, with the
    properties the specification states about them.

    Conventions of the embedding:
    - a JavaScript string is a [string] of ASCII characters; [toUpperCase],
      [toLowerCase] and [trim] act on the ASCII letters and the ASCII white
      space, as those of JavaScript do on such strings; where a statement
      compares a code in both cases it says that the codes are of
      characters below 128;
    - a JavaScript number holding money or a coupon value is a finite
      IEEE 754 double, given by its exact rational value ([Q]): every
      arithmetic operation and every reading of a decimal numeral rounds
      to the nearest double, ties to even ([binary64]); the two zeros are
      one value, and overflow does not arise for the amounts treated; the
      pricing function is given a second time on the primitive floats of
      the prover ([Binary64]) and the two are run side by side;
    - [uses] and [maxUses] are integers ([Z]): [uses] counts up from 0 and
      [maxUses] comes from the slash command's Integer option;
    - the three JSON files are fields of a [World]; a write to a file
      throws when the file system refuses it ([fs_writable] is false);
    - of the messages the handlers send to the chat platform, those a
      handler awaits before it goes on writing are parameters that return
      or throw ([channel_send] of the product selection), the paid
      notification is recorded, and those that end a handler are its
      [Reply]. *)

From Stdlib Require Import ZArith QArith Qround Qminmax Qabs Qpower Lqa Lia Bool Ascii String List Sorted.
From Stdlib Require Import PrimFloat FloatOps SpecFloat Uint63.
From stdpp Require Import gmap strings list pretty.

Local Open Scope string_scope.

(** ** Strings *)

Definition is_lower (c : ascii) : bool :=
  let n := nat_of_ascii c in Nat.leb 97 n && Nat.leb n 122.

Definition is_upper (c : ascii) : bool :=
  let n := nat_of_ascii c in Nat.leb 65 n && Nat.leb n 90.

Definition is_digit (c : ascii) : bool :=
  let n := nat_of_ascii c in Nat.leb 48 n && Nat.leb n 57.

Definition upper_char (c : ascii) : ascii :=
  if is_lower c then ascii_of_nat (nat_of_ascii c - 32) else c.

Definition lower_char (c : ascii) : ascii :=
  if is_upper c then ascii_of_nat (nat_of_ascii c + 32) else c.

Fixpoint map_chars (f : ascii -> ascii) (s : string) : string :=
  match s with
  | EmptyString => EmptyString
  | String c s' => String (f c) (map_chars f s')
  end.

Fixpoint all_chars (p : ascii -> bool) (s : string) : bool :=
  match s with
  | EmptyString => true
  | String c s' => p c && all_chars p s'
  end.

Definition toUpperCase : string -> string := map_chars upper_char.
Definition toLowerCase : string -> string := map_chars lower_char.

(** White space removed by [String.prototype.trim], ASCII part:
    TAB, LF, VT, FF, CR and SPACE. *)
Definition is_space (c : ascii) : bool :=
  let n := nat_of_ascii c in
  (Nat.leb 9 n && Nat.leb n 13) || Nat.eqb n 32.

Fixpoint trimStart (s : string) : string :=
  match s with
  | EmptyString => EmptyString
  | String c s' => if is_space c then trimStart s' else s
  end.

Fixpoint trimEnd (s : string) : string :=
  match s with
  | EmptyString => EmptyString
  | String c s' =>
      match trimEnd s' with
      | EmptyString => if is_space c then EmptyString else String c EmptyString
      | t => String c t
      end
  end.

Definition trim (s : string) : string := trimEnd (trimStart s).

(** Truthiness of a string: every string but the empty one. *)
Definition truthy (s : string) : bool :=
  match s with EmptyString => false | _ => true end.

(** Truthiness of a possibly missing string ([undefined], [null]). *)
Definition truthy_opt (o : option string) : bool :=
  match o with Some s => truthy s | None => false end.

(** [a || b] on possibly missing strings: the first truthy operand. *)
Definition or_else (a b : option string) : option string :=
  if truthy_opt a then a else b.

(** [x || null]. *)
Definition or_null (a : option string) : option string :=
  if truthy_opt a then a else None.

(** The test [/^[A-Z0-9_-]{2,32}$/]. *)
Definition is_code_char (c : ascii) : bool :=
  is_upper c || is_digit c || Ascii.eqb c "_" || Ascii.eqb c "-".

Definition code_regex (s : string) : bool :=
  Nat.leb 2 (String.length s) && Nat.leb (String.length s) 32
  && all_chars is_code_char s.

(** ** Numbers *)

Local Open Scope Q_scope.

Definition Qlt_bool (x y : Q) : bool := negb (Qle_bool y x).

(** Nearest integer, ties away from zero. *)
Definition round_half_away (x : Q) : Z :=
  if Qle_bool 0 x then Qfloor (x + (1 # 2))
  else (- Qfloor (- x + (1 # 2)))%Z.

(** The exponent of the binade of [x]: the [e] with
    [2 ^ e <= |x| < 2 ^ (e + 1)], for [x] other than 0. *)
Definition ilog2 (x : Q) : Z :=
  let e := (Z.log2 (Z.abs (Qnum x)) - Z.log2 (Zpos (Qden x)))%Z in
  if Qle_bool (2 ^ e) (Qabs x) then e else (e - 1)%Z.

(** Nearest integer, ties to the even one. *)
Definition round_even (x : Q) : Z :=
  let f := Qfloor x in
  match Qcompare (x - inject_Z f) (1 # 2) with
  | Lt => f
  | Gt => (f + 1)%Z
  | Eq => if Z.even f then f else (f + 1)%Z
  end.

(** The exponent of the last place of the doubles around [x]: 53 bits of
    precision, and [2 ^ -1074] for the subnormal numbers. *)
Definition cexp (x : Q) : Z := Z.max (ilog2 x - 52) (-1074).

(** The double nearest to [x], ties to even: the value of a numeral and of
    an arithmetic operation whose exact result is [x]. *)
Definition binary64 (x : Q) : Q :=
  if Qeq_bool x 0 then 0 else
  let e := cexp x in
  Qred (inject_Z (round_even (x / 2 ^ e)) * 2 ^ e).

(** [x - y], [x * y] and [x / y] on doubles. *)
Definition sub64 (x y : Q) : Q := binary64 (x - y).
Definition mul64 (x y : Q) : Q := binary64 (x * y).
Definition div64 (x y : Q) : Q := binary64 (x / y).

(** The double written with two decimals: [Number(s)] for the numeral [s]
    of [n] hundredths. *)
Definition cents (n : Z) : Q := binary64 (inject_Z n / 100).

(** [Number(x.toFixed(2))]: [toFixed] takes the exact value of the double
    [x] and rounds it to hundredths, ties away from zero. *)
Definition toFixed2 (x : Q) : Q := cents (round_half_away (x * 100)).

(** A number handed to [Number.isFinite]. *)
Inductive number : Type :=
  | Finite (q : Q)
  | NotFinite.

(** ** Data model *)

(** An entry of [coupons.json] ([createdAt] is a time stamp and is left
    out). *)
Module Coupon.
Record t : Type := mk {
  code : string;
  type : string;
  value : Q;
  uses : Z;
  maxUses : Z;
  active : bool
}.
End Coupon.

(** The value stored per channel by [setPendingCoupon]:
    [{ code, type, value, maxUses }]. *)
Module Pending.
Record t : Type := mk {
  code : string;
  type : string;
  value : Q;
  maxUses : Z
}.
End Pending.

(** An entry of [products.json]. *)
Module Product.
Record t : Type := mk {
  id : string;
  name : string;
  price : Q
}.
End Product.

(** The coupon snapshot kept in [order.pricing.coupon]. *)
Module Snapshot.
Record t : Type := mk {
  code : string;
  type : string;
  value : Q;
  maxUses : Z;
  uses : Z
}.
End Snapshot.

Module Pricing.
Record t : Type := mk {
  original : Q;
  discount : Q;
  total : Q;
  coupon : option Snapshot.t;
  couponUsedMarked : bool
}.
End Pricing.

Module Payment.
Record t : Type := mk {
  method : option string;
  provider : option string;
  url : option string;
  transactionId : option string;
  paidAmount : option string
}.
End Payment.

(** An order as the product-selection handler builds it ([createdAt],
    [guildId] and [userTag] are left out). *)
Module Order.
Record t : Type := mk {
  id : string;
  status : string;
  channelId : string;
  userId : string;
  product : Product.t;
  payment : Payment.t;
  pricing : Pricing.t
}.
End Order.

(** ** The persisted state and the effects of the handlers *)

Record World : Type := mkWorld {
  coupons : list Coupon.t;                  (* ./coupons.json *)
  pendingCoupons : gmap string Pending.t;   (* ./data/pending_coupons.json *)
  orders : gmap string Order.t;             (* the order store *)
  fs_writable : bool;                       (* does writeFileSync succeed *)
  paidNotices : list string                 (* order ids given to notifyPaid *)
}.

Definition set_coupons (arr : list Coupon.t) (w : World) : World :=
  mkWorld arr (pendingCoupons w) (orders w) (fs_writable w) (paidNotices w).

Definition set_pendingCoupons (obj : gmap string Pending.t) (w : World) : World :=
  mkWorld (coupons w) obj (orders w) (fs_writable w) (paidNotices w).

Definition set_orders (m : gmap string Order.t) (w : World) : World :=
  mkWorld (coupons w) (pendingCoupons w) m (fs_writable w) (paidNotices w).

Definition add_paidNotice (oid : string) (w : World) : World :=
  mkWorld (coupons w) (pendingCoupons w) (orders w) (fs_writable w)
          (paidNotices w ++ [oid]).

(** A computation either returns or throws; what it wrote before throwing
    stays written. *)
Inductive outcome (A : Type) : Type :=
  | Return (a : A)
  | Throws (msg : string).
Arguments Return {A} a.
Arguments Throws {A} msg.

Definition M (A : Type) : Type := World -> outcome A * World.

Definition ret {A} (a : A) : M A := fun w => (Return a, w).

Definition throw {A} (msg : string) : M A := fun w => (Throws msg, w).

Definition bind {A B} (m : M A) (k : A -> M B) : M B :=
  fun w =>
    match m w with
    | (Return a, w') => k a w'
    | (Throws e, w') => (Throws e, w')
    end.

(** [try { m } catch (e) { h e }]. *)
Definition try_catch {A} (m : M A) (h : string -> M A) : M A :=
  fun w =>
    match m w with
    | (Return a, w') => (Return a, w')
    | (Throws e, w') => h e w'
    end.

Declare Scope js_scope.
Delimit Scope js_scope with js.
Notation "'do' x <- m ; k" := (bind m (fun x => k))
  (at level 10, x name, m at level 100, k at level 200) : js_scope.
Notation "m ;;; k" := (bind m (fun _ => k))
  (at level 100, k at level 200, right associativity) : js_scope.
Local Open Scope js_scope.

(** [fs.writeFileSync] guard shared by the three stores. *)
Definition writeFile (update : World -> World) : M unit :=
  fun w => if fs_writable w then (Return tt, update w)
           else (Throws "EACCES", w).

(** ** utils/coupons.js *)

Definition readAll : M (list Coupon.t) := fun w => (Return (coupons w), w).

Definition writeAll (arr : list Coupon.t) : M unit := writeFile (set_coupons arr).

Definition listCoupons : M (list Coupon.t) := readAll.

Definition usage_exhausted (c : Coupon.t) : bool :=
  (0 <? Coupon.maxUses c)%Z && (Coupon.maxUses c <=? Coupon.uses c)%Z.

Definition findCoupon (code : string) : M (option Coupon.t) :=
  if negb (truthy code) then ret None else
  do arr <- readAll;
  match List.find (fun x => String.eqb (toLowerCase (Coupon.code x)) (toLowerCase code)) arr with
  | None => ret None
  | Some c =>
      if negb (Coupon.active c) then ret None
      else if usage_exhausted c then ret None
      else ret (Some c)
  end.

(** The argument object of [addCoupon]; [maxUses] may be missing. *)
Record AddArgs : Type := mkAddArgs {
  arg_code : string;
  arg_type : string;
  arg_value : number;
  arg_maxUses : option Z
}.

Definition addCoupon (a : AddArgs) : M Coupon.t :=
  if negb (truthy (arg_code a)) then throw "Missing code" else
  let norm := toUpperCase (trim (arg_code a)) in
  if negb (code_regex norm) then throw "Code must be 2-32 chars (A-Z, 0-9, _ or -)" else
  if negb (String.eqb (arg_type a) "fixed") && negb (String.eqb (arg_type a) "percent")
  then throw "Type must be fixed or percent" else
  match arg_value a with
  | NotFinite => throw "Value must be > 0"
  | Finite v =>
      if Qle_bool v 0 then throw "Value must be > 0" else
      if String.eqb (arg_type a) "percent" && Qlt_bool 100 v
      then throw "Percent cannot exceed 100" else
      let m := default 0%Z (arg_maxUses a) in
      if (m <? 0)%Z then throw "maxUses must be >= 0 (0 = unlimited)" else
      do arr <- readAll;
      if existsb (fun x => String.eqb (toUpperCase (Coupon.code x)) norm) arr
      then throw "Coupon already exists" else
      let coupon := Coupon.mk norm (arg_type a) v 0 m true in
      writeAll (arr ++ [coupon]) ;;;
      ret coupon
  end.

Definition deleteCoupon (code : string) : M bool :=
  let norm := toUpperCase (trim code) in
  do arr <- readAll;
  let before := List.length arr in
  let next := List.filter (fun x => negb (String.eqb (toUpperCase (Coupon.code x)) norm)) arr in
  writeAll next ;;;
  ret (negb (Nat.eqb (List.length next) before)).

(** [Array.prototype.findIndex]; [None] stands for -1. *)
Fixpoint findIndex {A} (p : A -> bool) (l : list A) : option nat :=
  match l with
  | [] => None
  | x :: l' => if p x then Some O else option_map S (findIndex p l')
  end.

Definition with_uses (c : Coupon.t) (n : Z) : Coupon.t :=
  Coupon.mk (Coupon.code c) (Coupon.type c) (Coupon.value c) n
            (Coupon.maxUses c) (Coupon.active c).

Definition incrementCouponUse (code : string) : M bool :=
  let norm := toUpperCase (trim code) in
  do arr <- readAll;
  match findIndex (fun x => String.eqb (toUpperCase (Coupon.code x)) norm) arr with
  | None => ret false
  | Some idx =>
      match arr !! idx with
      | None => ret false
      | Some c =>
          if negb (Coupon.active c) then ret false else
          let maxUses := Coupon.maxUses c in
          let uses := Coupon.uses c in
          if (0 <? maxUses)%Z && (maxUses <=? uses)%Z then ret false else
          let c' := with_uses c (uses + 1) in
          writeAll (<[idx := c']> arr) ;;;
          ret true
      end
  end.

(** The result of [applyCouponToAmount], without the display label. *)
Record Priced : Type := mkPriced { total : Q; discount : Q }.

Definition applyCouponToAmount (amountUsd : Q) (coupon : option Coupon.t) : Priced :=
  let amount := amountUsd in
  match coupon with
  | None => mkPriced amount 0
  | Some c =>
      if String.eqb (Coupon.type c) "fixed" then
        let discount := Qmax 0 (Qmin amount (Coupon.value c)) in
        mkPriced (toFixed2 (sub64 amount discount)) (toFixed2 discount)
      else if String.eqb (Coupon.type c) "percent" then
        let pct := Qmax 0 (Qmin 100 (Coupon.value c)) in
        let discount := mul64 amount (div64 pct 100) in
        mkPriced (toFixed2 (sub64 amount discount)) (toFixed2 discount)
      else mkPriced amount 0
  end.


(** ** The pricing function on primitive floats

    The same function on the binary64 numbers of the prover, to run
    concrete cases as the engine runs them, beside the function above.
    [toFixed2] takes the exact value of the double, rounds it to a whole
    number of cents, ties away from zero, and returns the double nearest
    to that decimal, as [Number(x.toFixed(2))] does; from 2^53 cents on
    the double is its own result. *)
Module Binary64.

Definition exact (f : float) : option Q :=
  match Prim2SF f with
  | S754_zero _ => Some 0
  | S754_finite s m e =>
      let v := inject_Z (Zpos m) * Qpower 2 e in
      Some (if s then - v else v)
  | _ => None
  end.

Definition of_Z (z : Z) : float :=
  let m := PrimFloat.of_uint63 (Uint63.of_Z (Z.abs z)) in
  if (z <? 0)%Z then PrimFloat.opp m else m.

(** The double nearest to a whole number of cents. *)
Definition cents (n : Z) : float := PrimFloat.div (of_Z n) (of_Z 100).

Definition toFixed2 (f : float) : float :=
  match exact f with
  | Some q =>
      let n := round_half_away (q * 100) in
      if (Z.abs n <? 2 ^ 53)%Z then cents n else f
  | None => f
  end.

Definition Math_min (a b : float) : float :=
  if PrimFloat.is_nan a || PrimFloat.is_nan b then PrimFloat.nan
  else if PrimFloat.ltb a b then a
  else if PrimFloat.ltb b a then b
  else if PrimFloat.get_sign a then a else b.

Definition Math_max (a b : float) : float :=
  if PrimFloat.is_nan a || PrimFloat.is_nan b then PrimFloat.nan
  else if PrimFloat.ltb b a then a
  else if PrimFloat.ltb a b then b
  else if PrimFloat.get_sign a then b else a.

(** [coupon] is the type and the value of the coupon; the result is the
    total and the discount. *)
Definition applyCouponToAmount (amountUsd : float) (coupon : option (string * float))
  : float * float :=
  let amount := amountUsd in
  match coupon with
  | None => (amount, PrimFloat.zero)
  | Some (type, value) =>
      if String.eqb type "fixed" then
        let discount := Math_max PrimFloat.zero (Math_min amount value) in
        (toFixed2 (PrimFloat.sub amount discount), toFixed2 discount)
      else if String.eqb type "percent" then
        let pct := Math_max PrimFloat.zero (Math_min (of_Z 100) value) in
        let discount := PrimFloat.mul amount (PrimFloat.div pct (of_Z 100)) in
        (toFixed2 (PrimFloat.sub amount discount), toFixed2 discount)
      else (amount, PrimFloat.zero)
  end.

End Binary64.

(** ** utils/pendingCoupons.js *)

Definition readAll_pending : M (gmap string Pending.t) :=
  fun w => (Return (pendingCoupons w), w).

Definition writeAll_pending (obj : gmap string Pending.t) : M unit :=
  writeFile (set_pendingCoupons obj).

Definition setPendingCoupon (channelId : string) (coupon : Pending.t) : M unit :=
  do obj <- readAll_pending;
  writeAll_pending (<[channelId := coupon]> obj).

Definition getPendingCoupon (channelId : string) : M (option Pending.t) :=
  do obj <- readAll_pending;
  ret (obj !! channelId).

Definition clearPendingCoupon (channelId : string) : M unit :=
  do obj <- readAll_pending;
  match obj !! channelId with
  | Some _ => writeAll_pending (delete channelId obj)
  | None => ret tt
  end.

(** ** The order store (utils/store.js) *)

(** The second argument of [markPaid]. *)
Record PaymentPatch : Type := mkPatch {
  patch_method : string;
  patch_provider : string;
  patch_transactionId : option string;
  patch_paidAmount : option string
}.

Definition readOrders : M (gmap string Order.t) :=
  fun w => (Return (orders w), w).

Definition writeOrders (m : gmap string Order.t) : M unit :=
  writeFile (set_orders m).

(** Modelled from the spec: [upsertOrder] of utils/store.js, which is not
    among the sources. The order store is a map from order id to order;
    [upsertOrder] persists the order under its id, replacing an earlier
    record of the same id. *)
Definition upsertOrder (order : Order.t) : M unit :=
  do m <- readOrders;
  writeOrders (<[Order.id order := order]> m).

Definition paid_order (o : Order.t) (p : PaymentPatch) : Order.t :=
  Order.mk (Order.id o) "paid" (Order.channelId o) (Order.userId o)
    (Order.product o)
    (Payment.mk (Some (patch_method p)) (Some (patch_provider p))
       (Payment.url (Order.payment o))
       (patch_transactionId p) (patch_paidAmount p))
    (Order.pricing o).

(** Modelled from the spec: [markPaid] of utils/store.js, which is not among
    the sources. Following the specification of payment confirmation: an
    unknown order gives nothing and changes nothing; an order whose status
    is already [paid] is returned unchanged; otherwise the status becomes
    [paid], the method, provider, transaction id and paid amount are filled
    in, and the updated order is persisted and returned. The coupon
    bookkeeping of the confirmation is done by the webhook handlers. *)
Definition markPaid (orderId : string) (p : PaymentPatch) : M (option Order.t) :=
  do m <- readOrders;
  match m !! orderId with
  | None => ret None
  | Some o =>
      if String.eqb (Order.status o) "paid" then ret (Some o)
      else
        let o' := paid_order o p in
        writeOrders (<[orderId := o']> m) ;;;
        ret (Some o')
  end.

(** ** utils/crypto.js and the webhook requests *)

(** The environment variables the handlers read. *)
Record Env : Type := mkEnv {
  CRYPTOMUS_API_KEY : option string;
  STRIPE_WEBHOOK_SECRET : option string
}.

(** The body of a Cryptomus webhook request, by the fields that are read. *)
Record Payload : Type := mkPayload {
  order_id : option string;
  status : option string;
  uuid : option string;
  txid : option string;
  payment_uuid : option string;
  amount : option string;
  sign : option string
}.

Definition empty_payload : Payload :=
  mkPayload None None None None None None None.

(** [delete copy.sign]. *)
Definition delete_sign (p : Payload) : Payload :=
  mkPayload (order_id p) (status p) (uuid p) (txid p) (payment_uuid p)
            (amount p) None.

(** The object of a [checkout.session.completed] event; [amount_total] is
    in cents. *)
Record Session : Type := mkSession {
  metadata_orderId : option string;
  payment_intent : option string;
  session_id : option string;
  amount_total : option Z
}.

(** A Stripe event: [ev_data] is [None] when [event.data] is missing and
    [Some None] when [event.data.object] is. *)
Record StripeEvent : Type := mkEvent {
  ev_type : string;
  ev_data : option (option Session)
}.

Record StripeRequest : Type := mkStripeRequest {
  stripe_body : string;
  stripe_signature : option string
}.

Record Response : Type := mkResponse {
  status_code : nat;
  sent : string
}.

Definition two_digits (n : N) : string :=
  (if (n <? 10)%N then "0" else "") ++ pretty n.

(** [(cents / 100).toFixed(2)] for a whole number of cents. *)
Definition cents_toFixed2 (cents : Z) : string :=
  let n := Z.abs_N cents in
  (if (cents <? 0)%Z then "-" else "")
  ++ pretty (n / 100)%N ++ "." ++ two_digits (n mod 100)%N.

Definition paidStatuses : list string := ["paid"; "paid_over"; "paid_partial"].

Definition has (set : list string) (x : string) : bool :=
  existsb (String.eqb x) set.

Definition mark_couponUsed (o : Order.t) : Order.t :=
  let p := Order.pricing o in
  Order.mk (Order.id o) (Order.status o) (Order.channelId o) (Order.userId o)
    (Order.product o) (Order.payment o)
    (Pricing.mk (Pricing.original p) (Pricing.discount p) (Pricing.total p)
       (Pricing.coupon p) true).

(** [order?.pricing?.coupon?.code]: the code when it is present and truthy. *)
Definition order_coupon_code (o : Order.t) : option string :=
  match Pricing.coupon (Order.pricing o) with
  | Some s => if truthy (Snapshot.code s) then Some (Snapshot.code s) else None
  | None => None
  end.

(** [notifyPaid] sends the confirmation to the order's channel; it catches
    its own failures. The model records the call. *)
Definition notifyPaid (order : Order.t) : M unit :=
  fun w => (Return tt, add_paidNotice (Order.id order) w).

(** The block both webhook handlers run on the order [markPaid] returned. *)
Definition record_and_notify (order : Order.t) : M unit :=
  do order' <-
    match order_coupon_code order with
    | Some code =>
        if negb (Pricing.couponUsedMarked (Order.pricing order)) then
          incrementCouponUse code ;;;
          let marked := mark_couponUsed order in
          upsertOrder marked ;;;
          ret marked
        else ret order
    | None => ret order
    end;
  notifyPaid order'.

Definition lift {A} (o : outcome A) : M A := fun w => (o, w).

(** [s.split(":")[1]]: what stands between the first colon and the next. *)
Fixpoint before_colon (s : string) : string :=
  match s with
  | EmptyString => EmptyString
  | String c s' => if Ascii.eqb c ":" then EmptyString else String c (before_colon s')
  end.

Fixpoint after_colon (s : string) : option string :=
  match s with
  | EmptyString => None
  | String c s' => if Ascii.eqb c ":" then Some s' else after_colon s'
  end.

Definition split_colon_1 (s : string) : option string :=
  option_map before_colon (after_colon s).

(** A button interaction, by the fields the product selection reads. *)
Record Interaction : Type := mkInteraction {
  customId : string;
  i_channelId : string;
  i_userId : string
}.

Inductive Reply : Type :=
  | ProductNotFound
  | ChoosePaymentMethod
  | InvalidCoupon
  | CouponSaved (code : string)
  | ErrorReply (msg : string)
  | OtherButton.

(** What the product selection posts in the ticket channel: the line
    about the coupon it applied, with the code and the new total, and the
    payment methods of the order. *)
Inductive Posting : Type :=
  | CouponApplied (code : string) (total : Q)
  | PaymentMethods (order : Order.t).

Definition snapshot_of (c : Coupon.t) : Snapshot.t :=
  Snapshot.mk (Coupon.code c) (Coupon.type c) (Coupon.value c)
              (Coupon.maxUses c) (Coupon.uses c).

Definition new_order (orderId : string) (i : Interaction) (prod : Product.t) : Order.t :=
  Order.mk orderId "pending" (i_channelId i) (i_userId i)
    (Product.mk (Product.id prod) (Product.name prod) (Product.price prod))
    (Payment.mk None None None None None)
    (Pricing.mk (Product.price prod) 0 (Product.price prod) None false).

Definition with_pricing (o : Order.t) (p : Pricing.t) : Order.t :=
  Order.mk (Order.id o) (Order.status o) (Order.channelId o) (Order.userId o)
    (Order.product o) (Order.payment o) p.

Section Bot.

(** Collaborators that are libraries or are not among the sources:
    [JSON.stringify], base64 and MD5 of the signature check, the Stripe
    client, and the catalogue read from [products.json]. *)
Variable JSON_stringify : Payload -> string.
Variable base64 : string -> string.
Variable md5_hex : string -> string.
Variable getStripe : Env -> outcome unit.
Variable constructEvent : string -> option string -> string -> outcome StripeEvent.
Variable JSON_parse : string -> outcome StripeEvent.
Variable products : list Product.t.

(** [i.channel.send], awaited by the product selection. *)
Variable channel_send : Posting -> outcome unit.

Definition isCryptomusWebhookTrusted (req : option Payload) (env : Env) : bool :=
  let apiKey := CRYPTOMUS_API_KEY env in
  match or_null apiKey with
  | None => true
  | Some apiKey =>
      let payload := default empty_payload req in
      let received := sign payload in
      match or_null received with
      | None => false
      | Some received =>
          let copy := delete_sign payload in
          let json := JSON_stringify copy in
          let b64 := base64 json in
          let expected := md5_hex (b64 ++ apiKey) in
          String.eqb expected received
      end
  end.

(** [app.post("/webhook/cryptomus", ...)]. *)
Definition cryptomus_webhook (req : option Payload) (env : Env) : M Response :=
  try_catch
    (if negb (isCryptomusWebhookTrusted req env)
     then ret (mkResponse 401 "untrusted") else
     let payload := default empty_payload req in
     let orderId := order_id payload in
     let status := toLowerCase (default "" (or_null (status payload))) in
     match or_null orderId with
     | None => ret (mkResponse 200 "no order")
     | Some orderId =>
         if negb (has paidStatuses status) then ret (mkResponse 200 "not paid") else
         do order <- markPaid orderId
                       (mkPatch "crypto" "cryptomus"
                          (or_null (or_else (uuid payload)
                             (or_else (txid payload) (payment_uuid payload))))
                          (or_null (amount payload)));
         match order with
         | Some order => record_and_notify order
         | None => ret tt
         end ;;;
         ret (mkResponse 200 "ok")
     end)
    (fun e => ret (mkResponse 200 "ok")).

Definition stripe_paidAmount (session : option Session) : option string :=
  match session with
  | Some s =>
      match amount_total s with
      | Some c => if (c =? 0)%Z then None else Some ("$" ++ cents_toFixed2 c)
      | None => None
      end
  | None => None
  end.

(** What the Stripe handler does with the event once it has it. *)
Definition stripe_on_event (event : StripeEvent) : M unit :=
  if String.eqb (ev_type event) "checkout.session.completed" then
    match ev_data event with
    | None => throw "TypeError"
    | Some session =>
        let orderId := session ≫= metadata_orderId in
        match or_null orderId with
        | Some orderId =>
            do order <- markPaid orderId
                          (mkPatch "stripe" "stripe"
                             (or_null (or_else (session ≫= payment_intent)
                                               (session ≫= session_id)))
                             (stripe_paidAmount session));
            match order with
            | Some order => record_and_notify order
            | None => ret tt
            end
        | None => ret tt
        end
    end
  else ret tt.

(** [app.post("/webhook/stripe", ...)]. *)
Definition stripe_webhook (req : StripeRequest) (env : Env) : M Response :=
  try_catch
    (lift (getStripe env) ;;;
     let sig := stripe_signature req in
     let whSecret := STRIPE_WEBHOOK_SECRET env in
     do event <-
       match or_null whSecret with
       | Some whSecret => lift (constructEvent (stripe_body req) sig whSecret)
       | None => lift (JSON_parse (stripe_body req))
       end;
     stripe_on_event event ;;;
     ret (mkResponse 200 "ok"))
    (fun e => ret (mkResponse 200 "ok")).

(** The [choose_prod:] branch of the button handler; [orderId] is the
    identifier [uuid()] hands out. *)
Definition choose_prod (i : Interaction) (orderId : string) : M Reply :=
  if negb (String.prefix "choose_prod:" (customId i)) then ret OtherButton else
  try_catch
    (let prodId := split_colon_1 (customId i) in
     match List.find (fun p => bool_decide (Some (Product.id p) = prodId)) products with
     | None => ret ProductNotFound
     | Some prod =>
         let order := new_order orderId i prod in
         do pending <- getPendingCoupon (i_channelId i);
         do order <-
           match pending with
           | Some pending =>
               if truthy (Pending.code pending) then
                 do coupon <- findCoupon (Pending.code pending);
                 match coupon with
                 | Some coupon =>
                     let r := applyCouponToAmount (Product.price prod) (Some coupon) in
                     let order :=
                       with_pricing order
                         (Pricing.mk (Product.price prod) (discount r) (total r)
                            (Some (snapshot_of coupon)) false) in
                     clearPendingCoupon (i_channelId i) ;;;
                     lift (channel_send (CouponApplied (Coupon.code coupon) (total r))) ;;;
                     ret order
                 | None =>
                     clearPendingCoupon (i_channelId i) ;;;
                     ret order
                 end
               else ret order
           | None => ret order
           end;
         upsertOrder order ;;;
         lift (channel_send (PaymentMethods order)) ;;;
         ret ChoosePaymentMethod
     end)
    (fun e => ret (ErrorReply e)).

(** The submit handler of the coupon modal. *)
Definition coupon_modal_submit (channelId : string) (input : string) : M Reply :=
  let code := trim input in
  do coupon <- findCoupon code;
  match coupon with
  | None => ret InvalidCoupon
  | Some coupon =>
      setPendingCoupon channelId
        (Pending.mk (Coupon.code coupon) (Coupon.type coupon)
                    (Coupon.value coupon) (Coupon.maxUses coupon)) ;;;
      ret (CouponSaved (Coupon.code coupon))
  end.

End Bot.

(** * The notions of the statements *)

(** ** Pricing and the ledger, in the words of the specification *)

(** [clamp x lo hi]: [x] forced into the interval from [lo] to [hi]. *)
Definition clamp (x lo hi : Q) : Q :=
  if Qlt_bool x lo then lo else if Qlt_bool hi x then hi else x.

(** The discount as the pricing rules state it: the exact amount, before
    any rounding. *)
Definition raw_discount (amount : Q) (coupon : option Coupon.t) : Q :=
  match coupon with
  | None => 0
  | Some c =>
      if String.eqb (Coupon.type c) "fixed" then clamp (Coupon.value c) 0 amount
      else if String.eqb (Coupon.type c) "percent"
      then amount * (clamp (Coupon.value c) 0 100 / 100)
      else 0
  end.

(** The total and the discount as the arithmetic on doubles has them when
    the pricing function hands them to [toFixed(2)]. *)
Definition before_toFixed (amount : Q) (coupon : option Coupon.t) : Priced :=
  match coupon with
  | None => mkPriced amount 0
  | Some c =>
      if String.eqb (Coupon.type c) "fixed" then
        let discount := Qmax 0 (Qmin amount (Coupon.value c)) in
        mkPriced (sub64 amount discount) discount
      else if String.eqb (Coupon.type c) "percent" then
        let pct := Qmax 0 (Qmin 100 (Coupon.value c)) in
        let discount := mul64 amount (div64 pct 100) in
        mkPriced (sub64 amount discount) discount
      else mkPriced amount 0
  end.

(** The error of one rounding to a double: [2 ^ -53] of the value, and
    [2 ^ -1075] in the subnormal range. *)
Definition unit_roundoff : Q := 2 ^ (-53).
Definition eta : Q := 2 ^ (-1075).

(** The largest amount the general statements on pricing cover, in cents:
    a thousand million dollars. *)
Definition max_cents : Z := 10 ^ 11.

(** A primitive float has the rational value [q]. *)
Definition same_number (f : float) (q : Q) : bool :=
  match Binary64.exact f with
  | Some v => Qeq_bool v q
  | None => false
  end.

(** The pricing function on primitive floats and the one on rationals
    give the same, for a base amount of [b] cents and a coupon of the
    given type whose value is written as [v] hundredths. *)
Definition same_pricing (b : Z) (type : string) (v : Z) : bool :=
  let r64 :=
    Binary64.applyCouponToAmount (Binary64.cents b) (Some (type, Binary64.cents v)) in
  let r := applyCouponToAmount (cents b) (Some (Coupon.mk "X" type (cents v) 0 0 true)) in
  same_number (fst r64) (total r) && same_number (snd r64) (discount r).

(** Codes are compared without regard to case. *)
Definition same_code (a b : string) : Prop := toLowerCase a = toLowerCase b.

(** The normalized form of a submitted code: trimmed, upper case. *)
Definition normalized (code : string) : string := toUpperCase (trim code).

(** The format rule: 2 to 32 characters, each of [A-Z], [0-9], [_] or [-]. *)
Definition in_code_alphabet (c : ascii) : Prop :=
  (65 <= nat_of_ascii c <= 90)%nat \/ (48 <= nat_of_ascii c <= 57)%nat \/
  c = "_"%char \/ c = "-"%char.

Definition valid_code_format (s : string) : Prop :=
  (2 <= String.length s <= 32)%nat /\
  Forall in_code_alphabet (list_ascii_of_string s).

Definition positive_finite (v : number) : Prop :=
  match v with Finite q => 0 < q | NotFinite => False end.

Definition exceeds (v : number) (bound : Q) : Prop :=
  match v with Finite q => bound < q | NotFinite => False end.

(** The grounds on which [add] refuses a coupon definition. *)
Definition rejected (a : AddArgs) (ledger : list Coupon.t) : Prop :=
  ~ valid_code_format (normalized (arg_code a)) \/
  (exists x, In x ledger /\ same_code (Coupon.code x) (normalized (arg_code a))) \/
  (arg_type a <> "fixed" /\ arg_type a <> "percent") \/
  ~ positive_finite (arg_value a) \/
  (arg_type a = "percent" /\ exceeds (arg_value a) 100) \/
  (default 0 (arg_maxUses a) < 0)%Z.

(** The messages of the validation errors of [addCoupon]. *)
Definition validation_errors : list string :=
  [ "Missing code";
    "Code must be 2-32 chars (A-Z, 0-9, _ or -)";
    "Type must be fixed or percent";
    "Value must be > 0";
    "Percent cannot exceed 100";
    "maxUses must be >= 0 (0 = unlimited)";
    "Coupon already exists" ].

(** The coupon [addCoupon] stores when it accepts the definition. *)
Definition added_coupon (a : AddArgs) (v : Q) : Coupon.t :=
  Coupon.mk (normalized (arg_code a)) (arg_type a) v 0
            (default 0%Z (arg_maxUses a)) true.

(** The coupon a code names: the match is on the trimmed code, without
    regard to case. *)
Definition names (code : string) (c : Coupon.t) : Prop :=
  toUpperCase (Coupon.code c) = toUpperCase (trim code).

(** A coupon that may not be used again: inactive, or capped and used up. *)
Definition not_usable (c : Coupon.t) : Prop :=
  Coupon.active c = false \/
  (0 < Coupon.maxUses c /\ Coupon.maxUses c <= Coupon.uses c)%Z.

(** The cap of the ledger: a capped coupon is never used beyond its cap. *)
Definition within_cap (c : Coupon.t) : Prop :=
  (0 < Coupon.maxUses c -> Coupon.uses c <= Coupon.maxUses c)%Z.

Definition ledger_inv (ledger : list Coupon.t) : Prop := Forall within_cap ledger.

(** The operations of the ledger and their effect on the world; a call that
    throws leaves what it had written, and the next call goes on from
    there. *)
Inductive LedgerOp : Type :=
  | OpAdd (a : AddArgs)
  | OpDelete (code : string)
  | OpIncrement (code : string)
  | OpFind (code : string)
  | OpList.

Definition run_op (op : LedgerOp) (w : World) : World :=
  match op with
  | OpAdd a => snd (addCoupon a w)
  | OpDelete code => snd (deleteCoupon code w)
  | OpIncrement code => snd (incrementCouponUse code w)
  | OpFind code => snd (findCoupon code w)
  | OpList => snd (listCoupons w)
  end.

Definition run_ops (ops : list LedgerOp) (w : World) : World :=
  fold_left (fun w op => run_op op w) ops w.

(** ** The order store and the handlers *)

(** Every order is stored under its own id. *)
Definition store_consistent (m : gmap string Order.t) : Prop :=
  forall k o, m !! k = Some o -> Order.id o = k.

(** The confirmation both webhook handlers run for a paid event: mark the
    order paid, then record the coupon use and notify. *)
Definition confirmation (orderId : string) (p : PaymentPatch) : M unit :=
  do order <- markPaid orderId p;
  match order with
  | Some order => record_and_notify order
  | None => ret tt
  end.

(** An order whose coupon use needs no recording any more. *)
Definition settled (o : Order.t) : Prop :=
  order_coupon_code o = None \/ Pricing.couponUsedMarked (Order.pricing o) = true.

(** The order a first confirmation leaves in the store. *)
Definition confirmed_order (o : Order.t) (p : PaymentPatch) : Order.t :=
  match order_coupon_code o with
  | Some _ =>
      if Pricing.couponUsedMarked (Order.pricing o) then paid_order o p
      else mark_couponUsed (paid_order o p)
  | None => paid_order o p
  end.

(** The ledger a first confirmation leaves: one recorded use of the order's
    coupon, when it has one whose use is not recorded yet. *)
Definition ledger_after_confirmation (o : Order.t) (w : World) : list Coupon.t :=
  match order_coupon_code o with
  | Some code =>
      if Pricing.couponUsedMarked (Order.pricing o) then coupons w
      else coupons (snd (incrementCouponUse code w))
  | None => coupons w
  end.

(** The acknowledgement of a webhook. *)
Definition ok : Response := mkResponse 200 "ok".

(** The payment details each handler hands to [markPaid]. *)
Definition cryptomus_patch (payload : Payload) : PaymentPatch :=
  mkPatch "crypto" "cryptomus"
    (or_null (or_else (uuid payload) (or_else (txid payload) (payment_uuid payload))))
    (or_null (amount payload)).

Definition stripe_patch (session : option Session) : PaymentPatch :=
  mkPatch "stripe" "stripe"
    (or_null (or_else (session ≫= payment_intent) (session ≫= session_id)))
    (match session with
     | Some s =>
         match amount_total s with
         | Some c => if (c =? 0)%Z then None else Some ("$" ++ cents_toFixed2 c)
         | None => None
         end
     | None => None
     end).

(** The status of a Cryptomus payload as the handler reads it. *)
Definition payload_status (req : option Payload) : string :=
  toLowerCase (default "" (or_null (status (default empty_payload req)))).

(** The order id of a Cryptomus payload, when it is present and not empty. *)
Definition payload_order (req : option Payload) : option string :=
  or_null (order_id (default empty_payload req)).

(** The persisted collections of a world. *)
Definition stores (w : World) : list Coupon.t * gmap string Pending.t * gmap string Order.t :=
  (coupons w, pendingCoupons w, orders w).

Section Deliveries.

Variable JSON_stringify : Payload -> string.
Variable base64 : string -> string.
Variable md5_hex : string -> string.
Variable getStripe : Env -> outcome unit.
Variable constructEvent : string -> option string -> string -> outcome StripeEvent.
Variable JSON_parse : string -> outcome StripeEvent.

(** A webhook delivery, by either provider. *)
Inductive Delivery : Type :=
  | ViaCryptomus (req : option Payload)
  | ViaStripe (req : StripeRequest).

Definition deliver (d : Delivery) (env : Env) : M Response :=
  match d with
  | ViaCryptomus req => cryptomus_webhook JSON_stringify base64 md5_hex req env
  | ViaStripe req => stripe_webhook getStripe constructEvent JSON_parse req env
  end.

(** The event a Stripe request carries, once the client is there and the
    signature (or, without a secret, the JSON) has been accepted. *)
Definition stripe_event (req : StripeRequest) (env : Env) : outcome StripeEvent :=
  match getStripe env with
  | Throws e => Throws e
  | Return _ =>
      match or_null (STRIPE_WEBHOOK_SECRET env) with
      | Some whSecret => constructEvent (stripe_body req) (stripe_signature req) whSecret
      | None => JSON_parse (stripe_body req)
      end
  end.

(** The delivery is authentic and reports the payment of order [oid] with
    payment details [p]. *)
Definition confirms (d : Delivery) (env : Env) (oid : string) (p : PaymentPatch) : Prop :=
  match d with
  | ViaCryptomus req =>
      isCryptomusWebhookTrusted JSON_stringify base64 md5_hex req env = true /\
      payload_order req = Some oid /\
      In (payload_status req) paidStatuses /\
      p = cryptomus_patch (default empty_payload req)
  | ViaStripe req =>
      exists event session,
        stripe_event req env = Return event /\
        ev_type event = "checkout.session.completed" /\
        ev_data event = Some session /\
        or_null (session ≫= metadata_orderId) = Some oid /\
        p = stripe_patch session
  end.

End Deliveries.

(** The catalogue product a button press selects, if any. *)
Definition selected_product (products : list Product.t) (i : Interaction) : option Product.t :=
  if String.prefix "choose_prod:" (customId i)
  then List.find (fun p => bool_decide (Some (Product.id p) = split_colon_1 (customId i)))
                 products
  else None.

(** The coupon a code resolves to in a ledger: the first coupon of that
    code, without regard to case, if it is active and not used up. *)
Definition resolve (code : string) (ledger : list Coupon.t) : option Coupon.t :=
  if truthy code then
    match List.find (fun x => String.eqb (toLowerCase (Coupon.code x)) (toLowerCase code)) ledger with
    | Some c => if Coupon.active c && negb (usage_exhausted c) then Some c else None
    | None => None
    end
  else None.

(** The order built for a product, with the coupon that was resolved. *)
Definition order_for (orderId : string) (i : Interaction) (prod : Product.t)
    (coupon : option Coupon.t) : Order.t :=
  match coupon with
  | Some c =>
      let r := applyCouponToAmount (Product.price prod) (Some c) in
      with_pricing (new_order orderId i prod)
        (Pricing.mk (Product.price prod) (discount r) (total r)
                    (Some (snapshot_of c)) false)
  | None => new_order orderId i prod
  end.

(** The coupon a selection applies: the usable coupon that the pending
    code of the channel names. *)
Definition applied_coupon (i : Interaction) (w : World) : option Coupon.t :=
  match pendingCoupons w !! i_channelId i with
  | Some pend => resolve (Pending.code pend) (coupons w)
  | None => None
  end.

(** The line the selection posts about the coupon it applies. *)
Definition coupon_posting (prod : Product.t) (c : Coupon.t) : Posting :=
  CouponApplied (Coupon.code c)
                (total (applyCouponToAmount (Product.price prod) (Some c))).

(** The chat platform takes the line about the applied coupon, when the
    selection has one to post. *)
Definition coupon_posted (channel_send : Posting -> outcome unit)
    (i : Interaction) (prod : Product.t) (w : World) : Prop :=
  forall c, applied_coupon i w = Some c ->
            channel_send (coupon_posting prod c) = Return tt.

(** The reply of a selection that has stored its order: it depends on the
    posting of the payment methods. *)
Definition selection_reply (channel_send : Posting -> outcome unit) (o : Order.t) : Reply :=
  match channel_send (PaymentMethods o) with
  | Return _ => ChoosePaymentMethod
  | Throws e => ErrorReply e
  end.

(** The code of the coupon attached to an order, if one is. *)
Definition attached_code (o : Order.t) : option string :=
  Snapshot.code <$> Pricing.coupon (Order.pricing o).

(** ** Sample data *)

(** Collaborators to run the handlers with: a Stripe client that is there,
    a signature check that refuses, and a JSON parser that reads every
    body as the completed checkout of order [order-1]. *)
Definition sample_stringify (p : Payload) : string := "{}".
Definition sample_base64 (s : string) : string := s.
Definition sample_md5 (s : string) : string := s.
Definition sample_getStripe (env : Env) : outcome unit := Return tt.
Definition sample_constructEvent (body : string) (sig : option string) (secret : string)
  : outcome StripeEvent := Throws "No signatures found".
Definition sample_parse (body : string) : outcome StripeEvent :=
  Return (mkEvent "checkout.session.completed"
            (Some (Some (mkSession (Some "order-1") (Some "pi_1") None (Some 7000%Z))))).

Definition sample_env : Env := mkEnv None None.

Definition sample_products : list Product.t :=
  [Product.mk "p1" "Starter" 100; Product.mk "p2" "Pro" 50].

Definition sample_coupon : Coupon.t := Coupon.mk "SAVE30" "fixed" 30 0 1 true.

Definition sample_order : Order.t :=
  Order.mk "order-1" "pending" "chan-1" "user-1"
    (Product.mk "p1" "Starter" 100)
    (Payment.mk None None None None None)
    (Pricing.mk 100 30 70 (Some (snapshot_of sample_coupon)) false).

Definition sample_world : World :=
  mkWorld [sample_coupon] ∅ {[ "order-1" := sample_order ]} true [].

(** Two Cryptomus payloads for [order-1], unsigned, with different
    transaction ids; the second reports a partial payment. *)
Definition sample_payload_1 : Payload :=
  mkPayload (Some "order-1") (Some "paid") (Some "tx-1") None None (Some "70.00") None.

Definition sample_payload_2 : Payload :=
  mkPayload (Some "order-1") (Some "PAID_PARTIAL") (Some "tx-2") None None (Some "10.00") None.

(** The same world on a file system that refuses writes. *)
Definition sample_world_readonly : World :=
  mkWorld [sample_coupon] ∅ {[ "order-1" := sample_order ]} false [].

(** A chat platform that takes every message, and one that takes none. *)
Definition sample_send (p : Posting) : outcome unit := Return tt.
Definition sample_send_refused (p : Posting) : outcome unit := Throws "Missing Access".

Definition sample_press_1 : Interaction := mkInteraction "choose_prod:p1" "chan-1" "user-1".
Definition sample_press_2 : Interaction := mkInteraction "choose_prod:p2" "chan-1" "user-1".

(** * Further parts of the bot

    The rest of [utils/crypto.js] (the signature and the invoice request)
    and, of the entry point, the product buttons, the payment buttons, the
    [+dn] and [+close] messages and the transcript, with the notions their
    properties are stated in.

    Conventions added to those above:
    - the network and the chat platform are parameters where a handler
      goes on after their failure: [fetch], [createStripeCheckout] and the
      posting of a payment link return or throw;
    - the message handler is the list of what it does, in order, with
      each call taken to succeed, and the counters it keeps on
      [globalThis] are a map of their own;
    - the loop of the transcript takes the number of turns it may make,
      and gives nothing when they do not suffice. *)

(** ** The ledger *)

(** The key under which the ledger compares codes. *)
Definition code_key (c : Coupon.t) : string := toUpperCase (Coupon.code c).

(** No two coupons of the ledger have the same code, case aside, and every
    code is of the required format. *)
Definition codes_distinct (ledger : list Coupon.t) : Prop :=
  List.NoDup (List.map code_key ledger).

Definition codes_well_formed (ledger : list Coupon.t) : Prop :=
  Forall (fun c => valid_code_format (Coupon.code c)) ledger.

(** A string of characters below 128 only. On such strings
    [toUpperCase], [toLowerCase] and [trim] of JavaScript are the maps of
    ASCII given above; outside them they are not (the upper case of the
    sharp s is two letters, the lower case of the Kelvin sign is the
    letter k, a no-break space is trimmed). *)
Definition ascii_only (s : string) : Prop :=
  all_chars (fun c => (N_of_ascii c <? 128)%N) s = true.

Definition ledger_ascii (ledger : list Coupon.t) : Prop :=
  Forall (fun c => ascii_only (Coupon.code c)) ledger.

(** [n] calls of [incrementCouponUse] in a row. *)
Fixpoint incrementCouponUse_times (n : nat) (code : string) (w : World) : World :=
  match n with
  | O => w
  | S n' => incrementCouponUse_times n' code (snd (incrementCouponUse code w))
  end.

(** The count of uses of a coupon after [n] more calls of
    [incrementCouponUse]: [n] more, but for a capped coupon not beyond the
    cap (and not below where it stands). *)
Definition uses_after (c : Coupon.t) (n : nat) : Z :=
  if (0 <? Coupon.maxUses c)%Z
  then Z.max (Coupon.uses c) (Z.min (Coupon.uses c + Z.of_nat n) (Coupon.maxUses c))
  else (Coupon.uses c + Z.of_nat n)%Z.

(** ** utils/crypto.js: signing and the invoice request *)

(** The variables of [process.env] that the code reads beside the two of
    [Env]. *)
Record ProcessEnv : Type := mkProcessEnv {
  CRYPTOMUS_MERCHANT_UUID : option string;
  CRYPTOMUS_MERCHANT : option string;
  CRYPTOMUS_MERCHAN : option string;
  PUBLIC_BASE_URL : option string;
  STORE_NAME_VAR : option string;
  OWNER_ID : option string;
  LOG_CHANNEL_ID : option string
}.

(** [a || b || ... || ""]. *)
Fixpoint first_truthy (l : list (option string)) : string :=
  match l with
  | [] => ""
  | a :: l' => match or_null a with Some s => s | None => first_truthy l' end
  end.

(** [getEnv]: the merchant and the API key. *)
Definition getEnv (env : Env) (penv : ProcessEnv) : string * string :=
  let merchant :=
    first_truthy [CRYPTOMUS_MERCHANT_UUID penv; CRYPTOMUS_MERCHANT penv;
                  CRYPTOMUS_MERCHAN penv] in
  let apiKey := first_truthy [CRYPTOMUS_API_KEY env] in
  (merchant, apiKey).

(** [x.toFixed(2)] as a string, for a double below 10^21 given by its
    exact value: the sign, the whole part and two decimals of that value
    rounded half away from zero. *)
Definition toFixed2_string (x : Q) : string :=
  let neg := Qlt_bool x 0 in
  let n := Z.to_N (Qfloor ((if neg then - x else x) * 100 + (1 # 2))) in
  (if neg then "-" else "") ++ pretty (n / 100)%N ++ "." ++ two_digits (n mod 100)%N.

Record InvoiceArgs : Type := mkInvoiceArgs {
  inv_amountUsd : Q;
  inv_orderId : string;
  inv_description : option string;
  inv_successUrl : option string;
  inv_callbackUrl : option string
}.

(** The body of the invoice request. *)
Record InvoiceBody : Type := mkInvoiceBody {
  body_amount : string;
  body_currency : string;
  body_order_id : string;
  body_url_return : option string;
  body_url_callback : option string;
  body_is_payment_multiple : bool;
  body_lifetime : Z;
  body_additional_data : string
}.

(** The request handed to [fetch]: the address, the method, the [merchant]
    and [sign] headers and the body as text. *)
Record HttpRequest : Type := mkHttpRequest {
  http_url : string;
  http_method : string;
  http_merchant : string;
  http_sign : string;
  http_body : string
}.

(** What is read of the answer: [data.message], [data.error],
    [data.result.url] and [data.result.uuid]; [res_data] is [None] when
    the body is no JSON, which the code reads as an empty object. *)
Record InvoiceData : Type := mkInvoiceData {
  data_message : option string;
  data_error : option string;
  data_result_url : option string;
  data_result_uuid : option string
}.

Record HttpResponse : Type := mkHttpResponse {
  res_ok : bool;
  res_data : option InvoiceData
}.

(** What [createCryptomusInvoice] returns: [url] and [uuid]. *)
Record Invoice : Type := mkInvoice {
  invoice_url : string;
  invoice_uuid : option string
}.

Section Crypto.

(** [JSON.stringify] on the signed object, base64 and MD5. *)
Variable A : Type.
Variable stringify : A -> string.
Variable base64 : string -> string.
Variable md5_hex : string -> string.

(** [makeSign]: md5(base64(json) + apiKey). *)
Definition makeSign (bodyObj : A) (apiKey : string) : string :=
  let json := stringify bodyObj in
  let b64 := base64 json in
  md5_hex (b64 ++ apiKey).

End Crypto.

Section Invoice.

(** [JSON.stringify] on the body and on the answer, base64, MD5 and
    [fetch]. *)
Variable JSON_stringify_body : InvoiceBody -> string.
Variable JSON_stringify_data : option InvoiceData -> string.
Variable base64 : string -> string.
Variable md5_hex : string -> string.
Variable fetch : HttpRequest -> outcome HttpResponse.

Definition invoice_body (a : InvoiceArgs) : InvoiceBody :=
  mkInvoiceBody (toFixed2_string (inv_amountUsd a)) "USD" (inv_orderId a)
    (or_null (inv_successUrl a)) (or_null (inv_callbackUrl a))
    false 3600 (first_truthy [inv_description a]).

Definition invoice_request (a : InvoiceArgs) (merchant apiKey : string) : HttpRequest :=
  let body := invoice_body a in
  let sign := makeSign InvoiceBody JSON_stringify_body base64 md5_hex body apiKey in
  mkHttpRequest "https://api.cryptomus.com/v1/payment" "POST" merchant sign
                (JSON_stringify_body body).

Definition createCryptomusInvoice (a : InvoiceArgs) (env : Env) (penv : ProcessEnv)
  : outcome Invoice :=
  let '(merchant, apiKey) := getEnv env penv in
  if negb (truthy merchant) then Throws "Missing CRYPTOMUS_MERCHANT_UUID" else
  if negb (truthy apiKey) then Throws "Missing CRYPTOMUS_API_KEY" else
  match fetch (invoice_request a merchant apiKey) with
  | Throws e => Throws e
  | Return res =>
      let data := res_data res in
      match (if res_ok res then or_null (data ≫= data_result_url) else None) with
      | None =>
          let msg :=
            match or_else (data ≫= data_message) (data ≫= data_error) with
            | Some m => if truthy m then m else JSON_stringify_data data
            | None => JSON_stringify_data data
            end in
          Throws ("Cryptomus invoice failed: " ++ msg)
      | Some url => Return (mkInvoice url (data ≫= data_result_uuid))
      end
  end.

End Invoice.

(** A payload with the signature [makeSign] gives its other fields. *)
Definition signed_payload (JSON_stringify : Payload -> string)
    (base64 md5_hex : string -> string) (p : Payload) (apiKey : string) : Payload :=
  mkPayload (order_id p) (status p) (uuid p) (txid p) (payment_uuid p) (amount p)
    (Some (makeSign Payload JSON_stringify base64 md5_hex (delete_sign p) apiKey)).

(** Sample data of the signing properties. *)
Definition sample_keyed_env : Env := mkEnv (Some "secret") None.

Definition sample_penv : ProcessEnv :=
  mkProcessEnv None None (Some "merchant-1") (Some "https://shop.example/") None
               (Some "owner-1") None.

Definition sample_invoice_args : InvoiceArgs :=
  mkInvoiceArgs 70 "order-1" (Some "Crystal Store | Starter") None None.

Definition sample_stringify_body (b : InvoiceBody) : string := body_order_id b.
Definition sample_stringify_data (d : option InvoiceData) : string := "{}".

Definition sample_fetch (r : HttpRequest) : outcome HttpResponse :=
  Return (mkHttpResponse true
            (Some (mkInvoiceData None None (Some "https://pay.example/1") (Some "inv-1")))).

(** ** The button handlers: product buttons and payment links *)

(** [money]: the amount with two decimals after a dollar sign. *)
Definition money (n : Q) : string := "$" ++ toFixed2_string n.

(** A button, by its custom id and its label (the emoji is left out). *)
Record Button : Type := mkButton {
  button_customId : string;
  button_label : string
}.

Definition product_button (p : Product.t) : Button :=
  mkButton ("choose_prod:" ++ Product.id p)
           (Product.name p ++ " (" ++ money (Product.price p) ++ ")").

(** One turn of the loop of [open_ticket] over the products; the state is
    [rows], [row] and [count]. *)
Definition rows_step (st : list (list Button) * list Button * nat) (p : Product.t)
  : list (list Button) * list Button * nat :=
  let '(rows, row, count) := st in
  let '(rows, row, count) :=
    if Nat.eqb count 5 then ((rows ++ [row])%list, [], 0%nat) else (rows, row, count) in
  (rows, (row ++ [product_button p])%list, S count).

(** The button rows [open_ticket] posts for the catalogue. *)
Definition product_rows (products : list Product.t) : list (list Button) :=
  let '(rows, row, count) := fold_left rows_step products ([], [], 0%nat) in
  if Nat.eqb count 0 then rows else (rows ++ [row])%list.

(** A string without colon. *)
Definition no_colon (s : string) : Prop := before_colon s = s.

(** [s.replace(/\/$/, "")]: without its last character when that is a
    slash. *)
Fixpoint strip_trailing_slash (s : string) : string :=
  match s with
  | EmptyString => EmptyString
  | String c s' =>
      match s' with
      | EmptyString => if Ascii.eqb c "/" then EmptyString else s
      | _ => String c (strip_trailing_slash s')
      end
  end.

(** [s.includes(needle)]. *)
Fixpoint includes (needle s : string) : bool :=
  String.prefix needle s ||
  match s with
  | EmptyString => false
  | String _ s' => includes needle s'
  end.

(** [STORE_NAME]. *)
Definition STORE_NAME (penv : ProcessEnv) : string :=
  match or_null (STORE_NAME_VAR penv) with
  | Some n => n
  | None => "Crystal Store"
  end.

(** Modelled from the spec: [getOrderById] of utils/store.js, which is not
    among the sources. The order store is a map from order id to order,
    and the lookup gives the order stored under the id, if any; the
    argument is [None] when the id is [undefined]. *)
Definition getOrderById (orderId : option string) : M (option Order.t) :=
  do m <- readOrders;
  ret (orderId ≫= fun k => m !! k).

Definition with_payment (o : Order.t) (p : Payment.t) : Order.t :=
  Order.mk (Order.id o) (Order.status o) (Order.channelId o) (Order.userId o)
    (Order.product o) p (Order.pricing o).

(** The replies of the two payment buttons. *)
Inductive PayReply : Type :=
  | OrderNotFound
  | AlreadyPaid
  | PaymentLinkSent
  | CheckoutLinkSent
  | PayError (msg : string)
  | NotPayButton.

(** What [createStripeCheckout] is called with and what is read of the
    session it returns. *)
Record CheckoutArgs : Type := mkCheckoutArgs {
  co_amountUsd : Q;
  co_orderId : string;
  co_productName : string;
  co_successUrl : string;
  co_cancelUrl : string
}.

Record Checkout : Type := mkCheckout {
  checkout_url : option string;
  checkout_id : option string
}.

(** The arguments of the invoice request for an order. *)
Definition crypto_invoice_args (order : Order.t) (penv : ProcessEnv) : InvoiceArgs :=
  let amountUsd := Pricing.total (Order.pricing order) in
  let cb := strip_trailing_slash (first_truthy [PUBLIC_BASE_URL penv])
            ++ "/webhook/cryptomus" in
  mkInvoiceArgs amountUsd (Order.id order)
    (Some (STORE_NAME penv ++ " | " ++ Product.name (Order.product order)))
    (or_null (PUBLIC_BASE_URL penv))
    (if includes "http" cb then Some cb else None).

Definition crypto_payment (order : Order.t) (inv : Invoice) : Payment.t :=
  Payment.mk (Some "crypto") (Some "cryptomus") (Some (invoice_url inv))
             (invoice_uuid inv) (Payment.paidAmount (Order.payment order)).

Definition stripe_checkout_args (order : Order.t) (penv : ProcessEnv) : CheckoutArgs :=
  let amountUsd := Pricing.total (Order.pricing order) in
  let base := match or_null (PUBLIC_BASE_URL penv) with
              | Some b => b
              | None => "https://example.com"
              end in
  let successUrl := strip_trailing_slash base ++ "/success?order=" ++ Order.id order in
  let cancelUrl := strip_trailing_slash base ++ "/cancel?order=" ++ Order.id order in
  mkCheckoutArgs amountUsd (Order.id order)
    (STORE_NAME penv ++ " - " ++ Product.name (Order.product order))
    successUrl cancelUrl.

Definition stripe_payment (order : Order.t) (session : Checkout) : Payment.t :=
  Payment.mk (Some "stripe") (Some "stripe") (checkout_url session)
             (checkout_id session) (Payment.paidAmount (Order.payment order)).

Section PayButtons.

(** Collaborators: those of the invoice request; [createStripeCheckout] of
    utils/stripe.js, which is not among the sources; and the chat
    platform, on which building the link button for an address, posting
    the instructions for a method and an order, and replying can fail. *)
Variable JSON_stringify_body : InvoiceBody -> string.
Variable JSON_stringify_data : option InvoiceData -> string.
Variable base64 : string -> string.
Variable md5_hex : string -> string.
Variable fetch : HttpRequest -> outcome HttpResponse.
Variable createStripeCheckout : Env -> CheckoutArgs -> outcome Checkout.
Variable send_pay_link : string -> Order.t -> option string -> outcome unit.

(** The [pay_crypto:] branch from the point where the invoice is there. *)
Definition pay_crypto_finish (order : Order.t) (inv : Invoice) : M PayReply :=
  upsertOrder (with_payment order (crypto_payment order inv)) ;;;
  lift (send_pay_link "crypto" order (Some (invoice_url inv))) ;;;
  ret PaymentLinkSent.

(** The [pay_crypto:] branch of the button handler. *)
Definition pay_crypto (i : Interaction) (env : Env) (penv : ProcessEnv) : M PayReply :=
  if negb (String.prefix "pay_crypto:" (customId i)) then ret NotPayButton else
  try_catch
    (let orderId := split_colon_1 (customId i) in
     do order <- getOrderById orderId;
     match order with
     | None => ret OrderNotFound
     | Some order =>
         if String.eqb (Order.status order) "paid" then ret AlreadyPaid else
         do inv <- lift (createCryptomusInvoice JSON_stringify_body JSON_stringify_data
                           base64 md5_hex fetch (crypto_invoice_args order penv) env penv);
         pay_crypto_finish order inv
     end)
    (fun e => ret (PayError e)).

(** The [pay_stripe:] branch from the point where the session is there. *)
Definition pay_stripe_finish (order : Order.t) (session : Checkout) : M PayReply :=
  upsertOrder (with_payment order (stripe_payment order session)) ;;;
  lift (send_pay_link "stripe" order (checkout_url session)) ;;;
  ret CheckoutLinkSent.

(** The [pay_stripe:] branch of the button handler. *)
Definition pay_stripe (i : Interaction) (env : Env) (penv : ProcessEnv) : M PayReply :=
  if negb (String.prefix "pay_stripe:" (customId i)) then ret NotPayButton else
  try_catch
    (let orderId := split_colon_1 (customId i) in
     do order <- getOrderById orderId;
     match order with
     | None => ret OrderNotFound
     | Some order =>
         if String.eqb (Order.status order) "paid" then ret AlreadyPaid else
         do session <- lift (createStripeCheckout env (stripe_checkout_args order penv));
         pay_stripe_finish order session
     end)
    (fun e => ret (PayError e)).

End PayButtons.

(** What a payment button may change of the order store: nothing but the
    method, provider, address and transaction id of one order that is not
    paid. *)
Definition payment_block_only (w w' : World) : Prop :=
  coupons w' = coupons w /\ pendingCoupons w' = pendingCoupons w /\
  paidNotices w' = paidNotices w /\ fs_writable w' = fs_writable w /\
  forall k,
    match orders w !! k, orders w' !! k with
    | None, None => True
    | Some o, Some o' =>
        Order.id o' = Order.id o /\ Order.status o' = Order.status o /\
        Order.channelId o' = Order.channelId o /\ Order.userId o' = Order.userId o /\
        Order.product o' = Order.product o /\ Order.pricing o' = Order.pricing o /\
        Payment.paidAmount (Order.payment o') = Payment.paidAmount (Order.payment o) /\
        (Order.status o = "paid" -> o' = o)
    | _, _ => False
    end.

(** ** The [+dn] and [+close] messages *)

(** A message, by what the handler reads of it: whether it is in a guild,
    the name and id of its channel, its text, its author, and whether the
    author may manage channels. *)
Record TicketMessage : Type := mkTicketMessage {
  m_inGuild : bool;
  m_channelName : option string;
  m_channelId : string;
  m_content : option string;
  m_authorId : string;
  m_hasManage : bool
}.

(** The invoice handed to [createInvoicePDF] ([buyerTag] and [createdAt]
    are left out). *)
Record InvoiceDoc : Type := mkInvoiceDoc {
  doc_storeName : string;
  doc_orderId : string;
  doc_invoiceId : string;
  doc_buyerId : string;
  doc_productName : string;
  doc_amountUsd : Q;
  doc_paymentMethod : string;
  doc_paymentAmount : string;
  doc_transactionId : string
}.

(** [s.slice(0, n)]. *)
Fixpoint slice_to (n : nat) (s : string) : string :=
  match n, s with
  | S n', String c s' => String c (slice_to n' s')
  | _, _ => EmptyString
  end.

Definition invoice_doc (order : Order.t) (penv : ProcessEnv) : InvoiceDoc :=
  let invoiceId := "INV-" ++ toUpperCase (slice_to 8 (Order.id order)) in
  let total := Pricing.total (Order.pricing order) in
  mkInvoiceDoc (STORE_NAME penv) (Order.id order) invoiceId (Order.userId order)
    (Product.name (Order.product order)) total
    (match or_null (Payment.method (Order.payment order)) with
     | Some x => x | None => "-" end)
    (match or_null (Payment.paidAmount (Order.payment order)) with
     | Some x => x | None => money total end)
    (match or_null (Payment.transactionId (Order.payment order)) with
     | Some x => x | None => "-" end).

(** What the handler does, in order. *)
Inductive Action : Type :=
  | SendWarning
  | SendClosing
  | CreateInvoicePDF (doc : InvoiceDoc)
  | SendInvoiceToBuyer (userId invoiceId : string)
  | LogCompletedOrder (logChannel orderId : string)
  | SendTranscriptToLog
  | DeleteChannelLater.

Section CloseCommands.

(** Whether the platform finds the user and the channel of an id. *)
Variable user_found : string -> bool.
Variable channel_found : string -> bool.

(** The message handler. [order] is what [getOrderByChannelId] of
    utils/store.js, which is not among the sources, gives for the channel;
    [g] holds the counters kept on [globalThis]. Each call to the chat
    platform and to the invoice renderer is taken to succeed. *)
Definition on_message (m : TicketMessage) (order : option Order.t) (penv : ProcessEnv)
    (g : gmap string nat) : list Action * gmap string nat :=
  if negb (m_inGuild m) then ([], g) else
  if negb (match m_channelName m with
           | Some n => String.prefix "ticket-" n
           | None => false
           end) then ([], g) else
  let cmd := trim <$> m_content m in
  if negb (bool_decide (cmd = Some "+dn")) && negb (bool_decide (cmd = Some "+close"))
  then ([], g) else
  let isOwner := match or_null (OWNER_ID penv) with
                 | Some owner => String.eqb (m_authorId m) owner
                 | None => false
                 end in
  let hasManage := m_hasManage m in
  if negb isOwner && negb hasManage then ([], g) else
  if bool_decide (cmd = Some "+close") then
    ([SendClosing; SendTranscriptToLog; DeleteChannelLater], g)
  else
    let unpaid := match order with
                  | Some o => negb (String.eqb (Order.status o) "paid")
                  | None => false
                  end in
    let forceKey := "_force_" ++ m_channelId m in
    let n := S (default 0%nat (g !! forceKey)) in
    let g' := if unpaid then <[forceKey := n]> g else g in
    if unpaid && Nat.ltb n 2 then ([SendWarning], g') else
    ((SendClosing ::
      match order with
      | Some o =>
          let doc := invoice_doc o penv in
          CreateInvoicePDF doc ::
          (if user_found (Order.userId o)
           then [SendInvoiceToBuyer (Order.userId o) (doc_invoiceId doc)] else []) ++
          match or_null (LOG_CHANNEL_ID penv) with
          | Some l => if channel_found l then [LogCompletedOrder l (Order.id o)] else []
          | None => []
          end
      | None => []
      end ++ [SendTranscriptToLog; DeleteChannelLater])%list, g').

End CloseCommands.

(** Further sample data. *)
Definition sample_send_pay_link (method : string) (o : Order.t) (url : option string)
  : outcome unit := Return tt.
Definition sample_createStripeCheckout (env : Env) (a : CheckoutArgs) : outcome Checkout :=
  Return (mkCheckout (Some "https://checkout.example/1") (Some "cs_1")).
Definition sample_pay_press : Interaction := mkInteraction "pay_crypto:order-1" "chan-1" "user-1".
Definition sample_stripe_press : Interaction := mkInteraction "pay_stripe:order-1" "chan-1" "user-1".
Definition sample_dn : TicketMessage :=
  mkTicketMessage true (Some "ticket-user-1") "chan-1" (Some "+dn ") "owner-1" false.
Definition sample_close : TicketMessage :=
  mkTicketMessage true (Some "ticket-user-1") "chan-1" (Some "+close") "owner-1" false.
Definition sample_user_found (id : string) : bool := true.
Definition sample_channel_found (id : string) : bool := false.

(** The notions of the closing protocol: the command a message carries,
    who may give it, and the key of the channel's counter. *)
Definition command (m : TicketMessage) : option string := trim <$> m_content m.

Definition authorized (m : TicketMessage) (penv : ProcessEnv) : Prop :=
  m_inGuild m = true /\
  (exists n, m_channelName m = Some n /\ String.prefix "ticket-" n = true) /\
  ((exists owner, OWNER_ID penv = Some owner /\ owner <> "" /\ m_authorId m = owner) \/
   m_hasManage m = true).

Definition force_key (m : TicketMessage) : string := "_force_" ++ m_channelId m.

Definition closes (acts : list Action) : Prop := In DeleteChannelLater acts.

(** ** The transcript *)

(** A message of the channel, by what the transcript reads of it; the
    author's tag and id are [None] when they are missing. *)
Record ChatMessage : Type := mkChatMessage {
  msg_id : string;
  msg_createdTimestamp : Z;
  msg_authorTag : option string;
  msg_authorId : option string;
  msg_content : option string;
  msg_attachments : list string;
  msg_embeds : nat
}.

Record Channel : Type := mkChannel {
  channel_name : string;
  channel_id : string;
  channel_guildName : option string;
  channel_guildId : string
}.

(** The line feed. *)
Definition LF : ascii := ascii_of_nat 10.

(** [s.replace(/\n/g, "\\n")]. *)
Fixpoint escape_newlines (s : string) : string :=
  match s with
  | EmptyString => EmptyString
  | String c s' =>
      if Ascii.eqb c LF then String "\" (String "n" (escape_newlines s'))
      else String c (escape_newlines s')
  end.

(** [msgs.sort((a, b) => a.createdTimestamp - b.createdTimestamp)]: by
    time, messages of the same time in the order they had. *)
Fixpoint insert_by_time (m : ChatMessage) (l : list ChatMessage) : list ChatMessage :=
  match l with
  | [] => [m]
  | x :: l' =>
      if (msg_createdTimestamp m <=? msg_createdTimestamp x)%Z then m :: l
      else x :: insert_by_time m l'
  end.

Definition sort_by_time (l : list ChatMessage) : list ChatMessage :=
  fold_right insert_by_time [] l.

Definition truncated_line : string := "(Transcript truncated at 2000 messages)".

Section Transcript.

(** [new Date(t).toISOString()] and [channel.messages.fetch], asked for
    the hundred messages before an id; [None] when the fetch fails. *)
Variable toISOString : Z -> string.
Variable fetch_messages : option string -> option (list ChatMessage).

Definition transcript_header (channel : Channel) (now : Z) : list string :=
  [ "Ticket Transcript";
    "Channel: #" ++ channel_name channel ++ " (" ++ channel_id channel ++ ")";
    "Guild: " ++ default "undefined" (channel_guildName channel)
      ++ " (" ++ channel_guildId channel ++ ")";
    "Closed at: " ++ toISOString now;
    "----------------------------------------" ].

(** The lines pushed for one message. *)
Definition message_lines (m : ChatMessage) : list string :=
  let time := toISOString (msg_createdTimestamp m) in
  let author := default "unknown" (or_null (msg_authorTag m))
                ++ " (" ++ default "-" (or_null (msg_authorId m)) ++ ")" in
  let content := escape_newlines (first_truthy [msg_content m]) in
  let line := "[" ++ time ++ "] " ++ author ++ ": " ++ content in
  let attachments := map (fun url => "  [attachment] " ++ url) (msg_attachments m) in
  let embeds := if Nat.eqb (msg_embeds m) 0 then []
                else ["  [embeds] " ++ pretty (msg_embeds m)] in
  line :: (attachments ++ embeds)%list.

(** The loop of [buildTranscriptText]; [fuel] bounds the number of
    turns, and the result is [None] when it does not suffice. *)
Fixpoint transcript_loop (fuel : nat) (beforeId : option string) (fetched : nat)
    (lines : list string) : option (list string) :=
  match fuel with
  | O => None
  | S fuel' =>
      match fetch_messages beforeId with
      | None => Some lines
      | Some [] => Some lines
      | Some batch =>
          let msgs := sort_by_time batch in
          let lines := (lines ++ flat_map message_lines msgs)%list in
          let fetched := (fetched + length batch)%nat in
          let beforeId := msg_id <$> head msgs in
          if Nat.leb 2000 fetched then Some (lines ++ [truncated_line])%list
          else transcript_loop fuel' beforeId fetched lines
      end
  end.

Definition transcript_lines (fuel : nat) (channel : Channel) (now : Z) : option (list string) :=
  transcript_loop fuel None 0 (transcript_header channel now).

(** [buildTranscriptText]. *)
Definition buildTranscriptText (fuel : nat) (channel : Channel) (now : Z) : option string :=
  String.concat (String LF EmptyString) <$> transcript_lines fuel channel now.

End Transcript.

(** Sample data of the transcript. *)
Definition sample_channel : Channel := mkChannel "ticket-user-1" "chan-1" (Some "Crystal") "guild-1".
Definition sample_iso (t : Z) : string := pretty t.
Definition sample_message (id : string) (t : Z) : ChatMessage :=
  mkChatMessage id t (Some "buyer#1") (Some "user-1") (Some "hello") [] 0.
Definition sample_fetch_messages (before : option string) : option (list ChatMessage) :=
  match before with
  | None => Some [sample_message "m4" 40; sample_message "m3" 30]
  | Some "m3" => Some [sample_message "m2" 20; sample_message "m1" 10]
  | Some _ => Some []
  end.
Definition sample_fetch_forever (before : option string) : option (list ChatMessage) :=
  Some [sample_message "m1" 10].

(** ** The handlers as events on the stored state *)

(** What can happen to the stored state: an operation on the ledger (the
    coupon commands), a submission of the coupon form, a product
    selection with the order id it draws, a press of a payment button,
    and a call of either webhook. *)
Inductive Event : Type :=
  | EvLedger (op : LedgerOp)
  | EvCouponForm (channelId input : string)
  | EvSelect (i : Interaction) (orderId : string)
  | EvPayCrypto (i : Interaction)
  | EvPayStripe (i : Interaction)
  | EvCryptomus (req : option Payload)
  | EvStripe (req : StripeRequest).

Section System.

Variable JSON_stringify : Payload -> string.
Variable base64 : string -> string.
Variable md5_hex : string -> string.
Variable getStripe : Env -> outcome unit.
Variable constructEvent : string -> option string -> string -> outcome StripeEvent.
Variable JSON_parse : string -> outcome StripeEvent.
Variable products : list Product.t.
Variable JSON_stringify_body : InvoiceBody -> string.
Variable JSON_stringify_data : option InvoiceData -> string.
Variable fetch : HttpRequest -> outcome HttpResponse.
Variable createStripeCheckout : Env -> CheckoutArgs -> outcome Checkout.
Variable send_pay_link : string -> Order.t -> option string -> outcome unit.
Variable channel_send : Posting -> outcome unit.
Variable env : Env.
Variable penv : ProcessEnv.

(** The state a handler leaves, each handler running from start to end
    before the next. *)
Definition run_event (e : Event) (w : World) : World :=
  match e with
  | EvLedger op => run_op op w
  | EvCouponForm ch input => snd (coupon_modal_submit ch input w)
  | EvSelect i orderId => snd (choose_prod products channel_send i orderId w)
  | EvPayCrypto i =>
      snd (pay_crypto JSON_stringify_body JSON_stringify_data base64 md5_hex fetch
             send_pay_link i env penv w)
  | EvPayStripe i => snd (pay_stripe createStripeCheckout send_pay_link i env penv w)
  | EvCryptomus req => snd (cryptomus_webhook JSON_stringify base64 md5_hex req env w)
  | EvStripe req => snd (stripe_webhook getStripe constructEvent JSON_parse req env w)
  end.

Definition run_events (es : list Event) (w : World) : World :=
  fold_left (fun w e => run_event e w) es w.

End System.

(** The event draws [k] as the id of a new order. *)
Definition issues (k : string) (e : Event) : Prop :=
  match e with
  | EvSelect _ orderId => orderId = k
  | _ => False
  end.

(** [o'] is the paid order [o], but for the mark of the coupon use. *)
Definition same_paid_order (o o' : Order.t) : Prop :=
  Order.id o' = Order.id o /\ Order.status o' = "paid" /\
  Order.channelId o' = Order.channelId o /\ Order.userId o' = Order.userId o /\
  Order.product o' = Order.product o /\ Order.payment o' = Order.payment o /\
  Pricing.original (Order.pricing o') = Pricing.original (Order.pricing o) /\
  Pricing.discount (Order.pricing o') = Pricing.discount (Order.pricing o) /\
  Pricing.total (Order.pricing o') = Pricing.total (Order.pricing o) /\
  Pricing.coupon (Order.pricing o') = Pricing.coupon (Order.pricing o).

(** What every handler keeps of the stored state [w] when it leaves [w']:
    the file system as it is, the notices sent so far, a ledger reached by
    operations of the ledger, every order under its own id, no order
    lost, and every paid order as it was paid. *)
Definition evolves (e : Event) (w w' : World) : Prop :=
  fs_writable w' = fs_writable w /\
  (exists more, paidNotices w' = (paidNotices w ++ more)%list) /\
  (exists ops, coupons w' = coupons (run_ops ops w)) /\
  store_consistent (orders w') /\
  (forall k, is_Some (orders w !! k) -> is_Some (orders w' !! k)) /\
  (forall k o, orders w !! k = Some o -> Order.status o = "paid" -> ~ issues k e ->
     exists o', orders w' !! k = Some o' /\ same_paid_order o o').

(** * Properties *)

(** ** Rounding *)

Lemma Qlt_bool_iff x y : Qlt_bool x y = true <-> x < y.
Proof.
  unfold Qlt_bool. rewrite negb_true_iff.
  destruct (Qle_bool y x) eqn:E.
  - apply Qle_bool_iff in E. split; [discriminate | intro; lra].
  - split; [intros _ | reflexivity].
    destruct (Qlt_le_dec x y) as [H | H]; [exact H |].
    apply Qle_bool_iff in H. congruence.
Qed.

Lemma round_half_away_nonneg x :
  0 <= x -> round_half_away x = Qfloor (x + (1 # 2)).
Proof.
  intro H. unfold round_half_away.
  apply Qle_bool_iff in H. now rewrite H.
Qed.

Lemma floor_unique (x : Q) (n : Z) :
  inject_Z n <= x -> x < inject_Z n + 1 -> Qfloor x = n.
Proof.
  intros Hle Hlt.
  pose proof (Qfloor_le x) as H1. pose proof (Qlt_floor x) as H2.
  rewrite inject_Z_plus in H2. change (inject_Z 1) with 1 in H2.
  assert (inject_Z (Qfloor x) < inject_Z n + 1) as A by lra.
  assert (inject_Z n < inject_Z (Qfloor x) + 1) as B by lra.
  change 1 with (inject_Z 1) in A, B. rewrite <- inject_Z_plus in A, B.
  rewrite <- Zlt_Qlt in A, B. lia.
Qed.

Lemma round_half_away_Z (n : Z) : round_half_away (inject_Z n) = n.
Proof.
  unfold round_half_away.
  destruct (Qle_bool 0 (inject_Z n)) eqn:E.
  - apply floor_unique; lra.
  - assert (Qfloor (- inject_Z n + (1 # 2)) = (- n)%Z) as ->; [| lia].
    apply floor_unique; rewrite inject_Z_opp; lra.
Qed.

#[local] Instance round_half_away_comp : Proper (Qeq ==> eq) round_half_away.
Proof.
  intros x y E. unfold round_half_away.
  rewrite (Qleb_comp 0 0 (Qeq_refl 0) x y E).
  rewrite (Qfloor_comp (x + (1 # 2)) (y + (1 # 2))) by (rewrite E; reflexivity).
  rewrite (Qfloor_comp (- x + (1 # 2)) (- y + (1 # 2))) by (rewrite E; reflexivity).
  reflexivity.
Qed.

Lemma Zle_via_Q (a b : Z) : inject_Z a < inject_Z b + 1 -> (a <= b)%Z.
Proof.
  intro H. change 1 with (inject_Z 1) in H.
  rewrite <- inject_Z_plus, <- Zlt_Qlt in H. lia.
Qed.

Lemma inject_Z_sub (x y : Z) : inject_Z (x - y) = inject_Z x - inject_Z y.
Proof.
  unfold Z.sub, Qminus. now rewrite inject_Z_plus, inject_Z_opp.
Qed.

Lemma clamp_as_coded (x lo hi : Q) :
  lo <= hi -> Qmax lo (Qmin hi x) == clamp x lo hi.
Proof.
  intro H. unfold clamp.
  destruct (Qlt_bool x lo) eqn:E1; [| destruct (Qlt_bool hi x) eqn:E2].
  - apply Qlt_bool_iff in E1.
    destruct (Q.min_spec hi x) as [[? ?] | [? ?]];
      destruct (Q.max_spec lo (Qmin hi x)) as [[? ?] | [? ?]]; lra.
  - apply Qlt_bool_iff in E2.
    destruct (Q.min_spec hi x) as [[? ?] | [? ?]];
      destruct (Q.max_spec lo (Qmin hi x)) as [[? ?] | [? ?]]; lra.
  - assert (~ x < lo) by (rewrite <- Qlt_bool_iff; congruence).
    assert (~ hi < x) by (rewrite <- Qlt_bool_iff; congruence).
    destruct (Q.min_spec hi x) as [[? ?] | [? ?]];
      destruct (Q.max_spec lo (Qmin hi x)) as [[? ?] | [? ?]]; lra.
Qed.

Lemma clamp_bounds (x lo hi : Q) : lo <= hi -> lo <= clamp x lo hi <= hi.
Proof.
  intro H. unfold clamp.
  destruct (Qlt_bool x lo) eqn:E1; [lra |].
  destruct (Qlt_bool hi x) eqn:E2; [lra |].
  assert (~ x < lo) by (rewrite <- Qlt_bool_iff; congruence).
  assert (~ hi < x) by (rewrite <- Qlt_bool_iff; congruence).
  lra.
Qed.

Lemma raw_discount_bounds amount coupon :
  0 <= amount -> 0 <= raw_discount amount coupon <= amount.
Proof.
  intro H. unfold raw_discount.
  destruct coupon as [c |]; [| lra].
  destruct (String.eqb (Coupon.type c) "fixed").
  - apply clamp_bounds, H.
  - destruct (String.eqb (Coupon.type c) "percent"); [| lra].
    pose proof (clamp_bounds (Coupon.value c) 0 100) as B.
    assert (0 <= clamp (Coupon.value c) 0 100 / 100 <= 1) as [B1 B2].
    { destruct B as [B1 B2]; [lra |]. split.
      - apply Qle_shift_div_l; lra.
      - apply Qle_shift_div_r; lra. }
    split; nra.
Qed.

Lemma raw_discount_fixed amount c :
  Coupon.type c = "fixed" ->
  raw_discount amount (Some c) = clamp (Coupon.value c) 0 amount.
Proof. intro H. unfold raw_discount. now rewrite H. Qed.


(** ** The exponent of a rational *)

Lemma two_pow_pos e : 0 < 2 ^ e.
Proof. apply Qpower_0_lt. reflexivity. Qed.

Lemma two_pow_Z (n : Z) : (0 <= n)%Z -> 2 ^ n == inject_Z (2 ^ n).
Proof. intro H. rewrite Zpower_Qpower by assumption. reflexivity. Qed.

Lemma Qabs_frac (x : Q) : Qabs x == inject_Z (Z.abs (Qnum x)) / inject_Z (Zpos (Qden x)).
Proof.
  destruct x as [n d]. cbn [Qnum Qden]. rewrite <- Zabs_Qabs.
  apply Qmake_Qdiv.
Qed.

Lemma Qdiv_le_cross a b c d :
  0 < b -> 0 < d -> a * d <= c * b -> a / b <= c / d.
Proof.
  intros Hb Hd H. apply Qle_shift_div_r; [assumption |].
  apply Qle_trans with (c * b / d).
  - apply Qle_shift_div_l; assumption.
  - apply Qle_lteq. right. field. lra.
Qed.

Lemma Qdiv_lt_cross a b c d :
  0 < b -> 0 < d -> a * d < c * b -> a / b < c / d.
Proof.
  intros Hb Hd H. apply Qlt_shift_div_r; [assumption |].
  apply Qlt_le_trans with (c * b / d).
  - apply Qlt_shift_div_l; assumption.
  - apply Qle_lteq. right. field. lra.
Qed.

Lemma ilog2_spec x : ~ x == 0 -> 2 ^ ilog2 x <= Qabs x /\ Qabs x < 2 ^ (ilog2 x + 1).
Proof.
  intro Hx. unfold ilog2.
  set (n := Z.abs (Qnum x)). set (d := Zpos (Qden x)).
  assert (0 < n)%Z as Hn.
  { subst n. destruct x as [[| p | p] q]; cbn; try lia. exfalso. apply Hx. reflexivity. }
  assert (0 < d)%Z as Hd by (subst d; lia).
  destruct (Z.log2_spec n Hn) as [N1 N2]. destruct (Z.log2_spec d Hd) as [D1 D2].
  pose proof (Z.log2_nonneg n) as Ln. pose proof (Z.log2_nonneg d) as Ld.
  set (ln := Z.log2 n) in *. set (ld := Z.log2 d) in *.
  assert (Qabs x == inject_Z n / inject_Z d) as Ex by apply Qabs_frac.
  assert (0 < inject_Z d) as Hd' by (change 0 with (inject_Z 0); now rewrite <- Zlt_Qlt).
  destruct (Qle_bool (2 ^ (ln - ld)) (Qabs x)) eqn:E.
  - apply Qle_bool_iff in E. split; [exact E |].
    rewrite Ex.
    assert (ln - ld + 1 = (ln + 1) - ld)%Z as -> by lia.
    rewrite Qpower_minus by discriminate.
    rewrite (two_pow_Z (ln + 1)), (two_pow_Z ld) by lia.
    apply Qdiv_lt_cross; [assumption | |].
    + change 0 with (inject_Z 0). rewrite <- Zlt_Qlt. lia.
    + rewrite <- !inject_Z_mult, <- Zlt_Qlt.
      unfold Z.succ in N2. nia.
  - assert (~ 2 ^ (ln - ld) <= Qabs x) as E'
      by (rewrite <- Qle_bool_iff; congruence).
    split.
    + rewrite Ex.
      assert (ln - ld - 1 = ln - (ld + 1))%Z as -> by lia.
      rewrite Qpower_minus by discriminate.
      rewrite (two_pow_Z ln), (two_pow_Z (ld + 1)) by lia.
      apply Qdiv_le_cross; [| assumption |].
      * change 0 with (inject_Z 0). rewrite <- Zlt_Qlt. lia.
      * rewrite <- !inject_Z_mult, <- Zle_Qle.
        unfold Z.succ in D2. nia.
    + assert (ln - ld - 1 + 1 = ln - ld)%Z as -> by lia.
      apply Qnot_le_lt. exact E'.
Qed.

Lemma two_pow_le (n m : Z) : (n <= m)%Z -> 2 ^ n <= 2 ^ m.
Proof. intro H. apply Qpower_le_compat_l; [assumption | discriminate]. Qed.

Lemma two_pow_lt (n m : Z) : (n < m)%Z -> 2 ^ n < 2 ^ m.
Proof. intro H. apply Qpower_lt_compat_l; [assumption | reflexivity]. Qed.

(** The exponent is determined by the value. *)
Lemma ilog2_unique x e : 2 ^ e <= Qabs x -> Qabs x < 2 ^ (e + 1) -> ilog2 x = e.
Proof.
  intros H1 H2.
  assert (~ x == 0) as Hx.
  { intro E. rewrite E in H1. pose proof (two_pow_pos e).
    change (Qabs 0) with 0 in H1. lra. }
  destruct (ilog2_spec x Hx) as [S1 S2].
  destruct (Z.lt_trichotomy (ilog2 x) e) as [L | [L | L]]; [| exact L |]; exfalso.
  - pose proof (two_pow_le (ilog2 x + 1) e ltac:(lia)). lra.
  - pose proof (two_pow_le (e + 1) (ilog2 x) ltac:(lia)). lra.
Qed.

Lemma ilog2_comp x y : x == y -> ~ x == 0 -> ilog2 x = ilog2 y.
Proof.
  intros E Hx. symmetry. destruct (ilog2_spec x Hx) as [S1 S2].
  apply ilog2_unique; rewrite <- E; assumption.
Qed.

(** ** Rounding to the nearest integer, ties to even *)

Lemma floor_frac x : 0 <= x - inject_Z (Qfloor x) /\ x - inject_Z (Qfloor x) < 1.
Proof.
  pose proof (Qfloor_le x) as H1. pose proof (Qlt_floor x) as H2.
  rewrite inject_Z_plus in H2. change (inject_Z 1) with 1 in H2. lra.
Qed.

(** [round_even x] is the integer nearest to [x]; of two nearest, the
    even one. *)
Lemma round_even_cases x :
  let f := Qfloor x in
  (x - inject_Z f < 1 # 2 /\ round_even x = f) \/
  (1 # 2 < x - inject_Z f /\ round_even x = (f + 1)%Z) \/
  (x - inject_Z f == 1 # 2 /\
   round_even x = if Z.even f then f else (f + 1)%Z).
Proof.
  intro f. unfold round_even. fold f.
  destruct (Qcompare_spec (x - inject_Z f) (1 # 2)) as [E | E | E]; auto.
Qed.

Lemma round_even_error x : Qabs (inject_Z (round_even x) - x) <= 1 # 2.
Proof.
  destruct (floor_frac x) as [F1 F2].
  apply Qabs_Qle_condition.
  destruct (round_even_cases x) as [[H ->] | [[H ->] | [H ->]]].
  - lra.
  - rewrite inject_Z_plus. change (inject_Z 1) with 1. lra.
  - destruct (Z.even (Qfloor x)); [lra |].
    rewrite inject_Z_plus. change (inject_Z 1) with 1. lra.
Qed.

Lemma round_even_comp x y : x == y -> round_even x = round_even y.
Proof.
  intro E. unfold round_even. rewrite (Qfloor_comp x y E).
  assert (x - inject_Z (Qfloor y) == y - inject_Z (Qfloor y)) as E' by (rewrite E; reflexivity).
  rewrite (Qcompare_comp _ _ E' (1 # 2) (1 # 2) (Qeq_refl _)). reflexivity.
Qed.

Lemma round_even_Z (n : Z) : round_even (inject_Z n) = n.
Proof.
  unfold round_even. rewrite Qfloor_Z.
  assert (inject_Z n - inject_Z n == 0) as E by ring.
  rewrite (Qcompare_comp _ _ E (1 # 2) (1 # 2) (Qeq_refl _)). reflexivity.
Qed.

Lemma round_even_mono x y : x <= y -> (round_even x <= round_even y)%Z.
Proof.
  intro H.
  destruct (floor_frac x) as [X1 X2]. destruct (floor_frac y) as [Y1 Y2].
  pose proof (Qfloor_resp_le x y H) as Hf.
  assert (Qfloor x = Qfloor y \/ (Qfloor x + 1 <= Qfloor y)%Z) as [Ef | Lf] by lia.
  - destruct (round_even_cases x) as [[Hx ->] | [[Hx ->] | [Hx ->]]];
      destruct (round_even_cases y) as [[Hy ->] | [[Hy ->] | [Hy ->]]];
      rewrite <- ?Ef in *; try lia; try (exfalso; lra);
      destruct (Z.even (Qfloor x)); try lia; exfalso; lra.
  - assert (round_even x <= Qfloor x + 1)%Z.
    { destruct (round_even_cases x) as [[Hx ->] | [[Hx ->] | [Hx ->]]];
        [lia | lia | destruct (Z.even (Qfloor x)); lia]. }
    assert (Qfloor y <= round_even y)%Z.
    { destruct (round_even_cases y) as [[Hy ->] | [[Hy ->] | [Hy ->]]];
        [lia | lia | destruct (Z.even (Qfloor y)); lia]. }
    lia.
Qed.

Lemma round_even_opp x : round_even (- x) = (- round_even x)%Z.
Proof.
  destruct (floor_frac x) as [X1 X2].
  destruct (Qeq_dec (x - inject_Z (Qfloor x)) 0) as [Z0 | NZ].
  - assert (x == inject_Z (Qfloor x)) as E by lra.
    rewrite (round_even_comp x _ E), round_even_Z.
    assert (- x == inject_Z (- Qfloor x)) as E' by (rewrite inject_Z_opp; lra).
    rewrite (round_even_comp (- x) _ E'), round_even_Z. reflexivity.
  - assert (Qfloor (- x) = (- Qfloor x - 1)%Z) as Ef.
    { apply floor_unique.
      - unfold Z.sub. rewrite inject_Z_plus, !inject_Z_opp. change (inject_Z 1) with 1. lra.
      - unfold Z.sub. rewrite inject_Z_plus, !inject_Z_opp. change (inject_Z 1) with 1. lra. }
    assert (- x - inject_Z (Qfloor (- x)) == 1 - (x - inject_Z (Qfloor x))) as Er.
    { rewrite Ef. unfold Z.sub. rewrite inject_Z_plus, !inject_Z_opp.
      change (inject_Z 1) with 1. ring. }
    destruct (round_even_cases (- x)) as [[Hx' E'] | [[Hx' E'] | [Hx' E']]];
      destruct (round_even_cases x) as [[Hx E] | [[Hx E] | [Hx E]]];
      rewrite E', E, ?Ef; rewrite Er in Hx'; try lia; try (exfalso; lra).
    replace (- Qfloor x - 1)%Z with (- (Qfloor x + 1))%Z by lia.
    rewrite Z.even_opp.
    replace (Qfloor x + 1)%Z with (Z.succ (Qfloor x)) by lia.
    rewrite Z.even_succ, <- Z.negb_even.
    destruct (Z.even (Qfloor x)); cbn; lia.
Qed.

(** ** The double nearest to a rational *)

Lemma binary64_0 x : x == 0 -> binary64 x = 0.
Proof. intro E. unfold binary64. apply Qeq_bool_iff in E. now rewrite E. Qed.

Lemma binary64_eq x :
  ~ x == 0 -> binary64 x == inject_Z (round_even (x / 2 ^ cexp x)) * 2 ^ cexp x.
Proof.
  intro H. unfold binary64.
  destruct (Qeq_bool x 0) eqn:E; [apply Qeq_bool_iff in E; contradiction |].
  cbv zeta. apply Qred_correct.
Qed.

Lemma cexp_comp x y : x == y -> ~ x == 0 -> cexp x = cexp y.
Proof. intros E H. unfold cexp. now rewrite (ilog2_comp x y E H). Qed.

#[local] Instance binary64_comp : Proper (Qeq ==> eq) binary64.
Proof.
  intros x y E. unfold binary64.
  rewrite (Qeqb_comp x y E 0 0 (Qeq_refl 0)).
  destruct (Qeq_bool y 0) eqn:B; [reflexivity |].
  assert (~ x == 0) as Hx.
  { apply Qeq_bool_neq in B. rewrite E. exact B. }
  cbv zeta. rewrite <- (cexp_comp x y E Hx).
  apply Qred_complete.
  assert (round_even (x / 2 ^ cexp x) = round_even (y / 2 ^ cexp x)) as ->
    by (apply round_even_comp, Qdiv_comp; [exact E | reflexivity]).
  reflexivity.
Qed.

Lemma binary64_error x : Qabs (binary64 x - x) <= (1 # 2) * 2 ^ cexp x.
Proof.
  pose proof (two_pow_pos (cexp x)) as P.
  destruct (Qeq_dec x 0) as [Z0 | NZ].
  - rewrite (binary64_0 x Z0). apply Qabs_Qle_condition. lra.
  - rewrite (binary64_eq x NZ).
    set (c := 2 ^ cexp x) in *.
    assert (inject_Z (round_even (x / c)) * c - x == (inject_Z (round_even (x / c)) - x / c) * c)
      as -> by (field; lra).
    rewrite Qabs_Qmult, (Qabs_pos c) by lra.
    pose proof (round_even_error (x / c)) as R.
    set (r := Qabs (inject_Z (round_even (x / c)) - x / c)) in *. clearbody r c. nra.
Qed.

Lemma binary64_rel x : Qabs (binary64 x - x) <= unit_roundoff * Qabs x + eta.
Proof.
  pose proof (binary64_error x) as H.
  destruct (Qeq_dec x 0) as [Z0 | NZ].
  - rewrite (binary64_0 x Z0).
    pose proof (Qabs_nonneg x). pose proof (two_pow_pos (-53)). pose proof (two_pow_pos (-1075)).
    apply Qabs_Qle_condition. unfold unit_roundoff, eta.
    set (u := 2 ^ (-53)) in *. set (e := 2 ^ (-1075)) in *. set (a := Qabs x) in *.
    clearbody u e a. nra.
  - destruct (ilog2_spec x NZ) as [S1 _].
    pose proof (Qabs_nonneg x) as A.
    unfold cexp in H.
    destruct (Z.max_spec (ilog2 x - 52) (-1074)) as [[L M] | [L M]]; rewrite M in H.
    + assert ((1 # 2) * 2 ^ (-1074) == eta) as E by reflexivity.
      rewrite E in H. pose proof (two_pow_pos (-53)). unfold unit_roundoff. nra.
    + assert ((1 # 2) * 2 ^ (ilog2 x - 52) == unit_roundoff * 2 ^ ilog2 x) as E.
      { unfold unit_roundoff.
        assert (ilog2 x - 52 = ilog2 x + (-52))%Z as -> by lia.
        rewrite Qpower_plus by discriminate.
        assert ((2:Q) ^ (-53) == (1 # 2) * 2 ^ (-52)) as -> by reflexivity. ring. }
      rewrite E in H. pose proof (two_pow_pos (-1075)).
      pose proof (two_pow_pos (-53)). unfold unit_roundoff, eta in *.
      set (u := 2 ^ (-53)) in *. set (p := 2 ^ ilog2 x) in *. set (a := Qabs x) in *.
      set (e := 2 ^ (-1075)) in *. set (d := Qabs (binary64 x - x)) in *.
      clearbody u p a e d. nra.
Qed.

(** ** [binary64] keeps the order *)

Lemma ilog2_mono x y : 0 < x -> x <= y -> (ilog2 x <= ilog2 y)%Z.
Proof.
  intros Hx H.
  destruct (ilog2_spec x) as [X1 X2]; [lra |].
  destruct (ilog2_spec y) as [Y1 Y2]; [lra |].
  rewrite Qabs_pos in X1, X2, Y1, Y2 by lra.
  assert (2 ^ ilog2 x < 2 ^ (ilog2 y + 1)) as L by lra.
  apply Qpower_lt_compat_l_inv in L; [lia | reflexivity].
Qed.

Lemma ilog2_opp x : ilog2 (- x) = ilog2 x.
Proof.
  destruct x as [n d]. unfold ilog2, Qopp, Qabs. cbn [Qnum Qden].
  rewrite Z.abs_opp. reflexivity.
Qed.

Lemma binary64_opp x : binary64 (- x) = - binary64 x.
Proof.
  unfold binary64.
  assert (Qeq_bool (- x) 0 = Qeq_bool x 0) as ->.
  { destruct (Qeq_bool x 0) eqn:E.
    - apply Qeq_bool_iff in E. apply Qeq_bool_iff. lra.
    - apply Qeq_bool_neq in E. destruct (Qeq_bool (- x) 0) eqn:E'; [| reflexivity].
      apply Qeq_bool_iff in E'. exfalso. apply E. lra. }
  destruct (Qeq_bool x 0); [reflexivity |].
  cbv zeta. unfold cexp. rewrite ilog2_opp. rewrite <- Qred_opp.
  apply Qred_complete.
  pose proof (two_pow_pos (Z.max (ilog2 x - 52) (-1074))) as P.
  set (c := 2 ^ Z.max (ilog2 x - 52) (-1074)) in *.
  assert (round_even (- x / c) = (- round_even (x / c))%Z) as ->.
  { rewrite <- round_even_opp. apply round_even_comp. field. lra. }
  rewrite inject_Z_opp. ring.
Qed.

Lemma round_even_nonneg x : 0 <= x -> (0 <= round_even x)%Z.
Proof.
  intro H. rewrite <- (round_even_Z 0). apply round_even_mono. exact H.
Qed.

Lemma binary64_nonneg x : 0 <= x -> 0 <= binary64 x.
Proof.
  intro H. destruct (Qeq_dec x 0) as [Z0 | NZ].
  - rewrite (binary64_0 x Z0). lra.
  - rewrite (binary64_eq x NZ).
    pose proof (two_pow_pos (cexp x)) as P.
    apply Qmult_le_0_compat; [| lra].
    change 0 with (inject_Z 0). rewrite <- Zle_Qle.
    apply round_even_nonneg. apply Qle_shift_div_l; lra.
Qed.

Lemma two_pow_sub (n m : Z) : 2 ^ (n - m) == 2 ^ n / 2 ^ m.
Proof. apply Qpower_minus. discriminate. Qed.

Lemma binary64_pos_mono x y : 0 < x -> x <= y -> binary64 x <= binary64 y.
Proof.
  intros Hx H.
  rewrite (binary64_eq x), (binary64_eq y) by lra.
  pose proof (ilog2_mono x y Hx H) as Hl.
  destruct (ilog2_spec x) as [X1 X2]; [lra |].
  destruct (ilog2_spec y) as [Y1 Y2]; [lra |].
  rewrite Qabs_pos in X1, X2, Y1, Y2 by lra.
  pose proof (eq_refl : cexp x = Z.max (ilog2 x - 52) (-1074)) as Cx.
  pose proof (eq_refl : cexp y = Z.max (ilog2 y - 52) (-1074)) as Cy.
  set (ex := ilog2 x) in *. set (ey := ilog2 y) in *.
  pose proof (two_pow_pos (cexp x)) as Px. pose proof (two_pow_pos (cexp y)) as Py.
  assert (cexp x = cexp y \/ (cexp x < cexp y)%Z) as [Ec | Lc] by lia.
  - rewrite <- Ec. apply Qmult_le_compat_r; [| lra].
    rewrite <- Zle_Qle. apply round_even_mono.
    apply Qdiv_le_cross; try assumption. nra.
  - assert (cexp y = ey - 52)%Z as Ey by lia.
    set (M := Z.max (ex + 1) (cexp x)).
    assert (M <= ey)%Z as HM by lia.
    apply Qle_trans with (2 ^ M); [| apply Qle_trans with (2 ^ ey)].
    + assert (2 ^ M == inject_Z (2 ^ (M - cexp x)) * 2 ^ cexp x) as ->.
      { rewrite <- two_pow_Z by lia. rewrite two_pow_sub. field. lra. }
      apply Qmult_le_compat_r; [| lra].
      rewrite <- Zle_Qle.
      apply Z.le_trans with (round_even (inject_Z (2 ^ (M - cexp x))));
        [| rewrite round_even_Z; lia].
      apply round_even_mono.
      rewrite <- two_pow_Z by lia. rewrite two_pow_sub.
      apply Qdiv_le_cross; try assumption.
      pose proof (two_pow_le (ex + 1) M ltac:(lia)). nra.
    + apply two_pow_le. exact HM.
    + assert (2 ^ ey == inject_Z (2 ^ 52) * 2 ^ cexp y) as ->.
      { rewrite Ey, two_pow_sub.
        assert (inject_Z (2 ^ 52) == (2:Q) ^ 52) as -> by reflexivity.
        field; pose proof (two_pow_pos 52); lra. }
      apply Qmult_le_compat_r; [| lra].
      rewrite <- Zle_Qle.
      apply Z.le_trans with (round_even (inject_Z (2 ^ 52)));
        [rewrite round_even_Z; lia |].
      apply round_even_mono.
      apply Qle_shift_div_l; [assumption |].
      rewrite Ey, two_pow_sub.
      assert (inject_Z (2 ^ 52) == (2:Q) ^ 52) as -> by reflexivity.
      assert (2 ^ 52 * (2 ^ ey / 2 ^ 52) == 2 ^ ey) as ->
        by (field; pose proof (two_pow_pos 52); lra).
      exact Y1.
Qed.

Lemma binary64_mono x y : x <= y -> binary64 x <= binary64 y.
Proof.
  intro H.
  destruct (Qlt_le_dec 0 x) as [Hx | Hx].
  - apply binary64_pos_mono; assumption.
  - destruct (Qlt_le_dec y 0) as [Hy | Hy].
    + assert (binary64 (- y) <= binary64 (- x)) as L
        by (apply binary64_pos_mono; lra).
      rewrite !binary64_opp in L. lra.
    + pose proof (binary64_nonneg y Hy).
      assert (0 <= binary64 (- x)) as L by (apply binary64_nonneg; lra).
      rewrite binary64_opp in L. lra.
Qed.

(** [binary64] and the operations on primitive floats give the same
    doubles: for quotients and products of small whole numbers, at a tie
    above 2^53, and in the subnormal range. *)
Example binary64_on_primitive_floats :
  forallb
    (fun n =>
       forallb
         (fun m =>
            same_number (PrimFloat.div (Binary64.of_Z n) (Binary64.of_Z m))
                        (binary64 (inject_Z n / inject_Z m))
            && same_number
                 (PrimFloat.mul (PrimFloat.div (Binary64.of_Z n) (Binary64.of_Z m))
                                (PrimFloat.div (Binary64.of_Z m) (Binary64.of_Z 7)))
                 (binary64 (binary64 (inject_Z n / inject_Z m)
                            * binary64 (inject_Z m / 7)))
            && same_number
                 (PrimFloat.sub (PrimFloat.div (Binary64.of_Z n) (Binary64.of_Z m))
                                (PrimFloat.div (Binary64.of_Z m) (Binary64.of_Z 7)))
                 (binary64 (binary64 (inject_Z n / inject_Z m)
                            - binary64 (inject_Z m / 7))))
         [1; 3; 7; 10; 100; 1000; 4097; 1000003]%Z)
    [-5; 0; 1; 2; 3; 15; 70; 105; 1990; 123456789]%Z
  = true /\
  same_number (PrimFloat.add (Binary64.of_Z (2 ^ 53)) 1) (binary64 (inject_Z (2 ^ 53 + 1)))
  = true /\
  binary64 (inject_Z (2 ^ 53 + 1)) = inject_Z (2 ^ 53) /\
  binary64 (inject_Z (2 ^ 53 + 3)) = inject_Z (2 ^ 53 + 4) /\
  same_number (PrimFloat.mul 0x1p-1000 0x1.8p-74) (binary64 (2 ^ (-1000) * ((3 # 2) * 2 ^ (-74))))
  = true /\
  same_number (PrimFloat.mul 0x1p-1000 0x1.8p-75) (binary64 (2 ^ (-1000) * ((3 # 2) * 2 ^ (-75))))
  = true /\
  same_number (PrimFloat.mul 0x1p-1000 0x1p-75) (binary64 (2 ^ (-1000) * 2 ^ (-75))) = true /\
  binary64 (2 ^ (-1000) * 2 ^ (-75)) = 0.
Proof. vm_compute. repeat split. Qed.

(** ** Rounding to cents *)

Lemma round_half_away_error y : Qabs (inject_Z (round_half_away y) - y) <= 1 # 2.
Proof.
  apply Qabs_Qle_condition. unfold round_half_away.
  destruct (Qle_bool 0 y) eqn:E.
  - pose proof (Qfloor_le (y + (1 # 2))) as H1. pose proof (Qlt_floor (y + (1 # 2))) as H2.
    rewrite inject_Z_plus in H2. change (inject_Z 1) with 1 in H2. lra.
  - pose proof (Qfloor_le (- y + (1 # 2))) as H1. pose proof (Qlt_floor (- y + (1 # 2))) as H2.
    rewrite inject_Z_plus in H2. change (inject_Z 1) with 1 in H2.
    rewrite inject_Z_opp. lra.
Qed.

(** An integer less than one away from another is that integer. *)
Lemma Z_near (a b : Z) : Qabs (inject_Z a - inject_Z b) < 1 -> a = b.
Proof.
  intro H. apply Qabs_Qlt_condition in H. destruct H as [H1 H2].
  rewrite <- inject_Z_sub in H1, H2.
  change 1 with (inject_Z 1) in H1, H2. rewrite <- inject_Z_opp in H1.
  rewrite <- Zlt_Qlt in H1, H2. lia.
Qed.

Lemma round_half_away_near y (k : Z) :
  Qabs (y - inject_Z k) < 1 # 2 -> round_half_away y = k.
Proof.
  intro H. apply Z_near.
  pose proof (round_half_away_error y) as E.
  apply Qabs_Qlt_condition in H. apply Qabs_Qle_condition in E.
  apply Qabs_Qlt_condition. lra.
Qed.

Lemma binary64_within x M eps :
  Qabs x <= M -> unit_roundoff * M + eta <= eps -> Qabs (binary64 x - x) <= eps.
Proof.
  intros HM He. pose proof (binary64_rel x) as H.
  assert (0 < unit_roundoff) by apply two_pow_pos.
  set (u := unit_roundoff) in *. set (a := Qabs x) in *.
  set (d := Qabs (binary64 x - x)) in *. clearbody u a d. nra.
Qed.

Lemma roundoff_dollars : unit_roundoff * 1000000000 + eta <= 1 # 8000000.
Proof. apply Qle_bool_iff. vm_compute. reflexivity. Qed.

Lemma roundoff_twice : unit_roundoff * 2000000010 + eta <= 1 # 4000000.
Proof. apply Qle_bool_iff. vm_compute. reflexivity. Qed.

Lemma roundoff_unit : unit_roundoff * 1 + eta <= 1 # 8000000000000000.
Proof. apply Qle_bool_iff. vm_compute. reflexivity. Qed.

Lemma cents_0 : cents 0 = 0.
Proof. reflexivity. Qed.

Lemma cents_mono (n m : Z) : (n <= m)%Z -> cents n <= cents m.
Proof.
  intro H. apply binary64_mono. rewrite Zle_Qle in H.
  unfold Qdiv. change (/ 100) with (1 # 100). lra.
Qed.

Lemma cents_nonneg (n : Z) : (0 <= n)%Z -> 0 <= cents n.
Proof. intro H. rewrite <- cents_0. now apply cents_mono. Qed.

Lemma dollars_bound (n : Z) :
  (Z.abs n <= max_cents)%Z -> Qabs (inject_Z n / 100) <= 1000000000.
Proof.
  intro H. apply Qabs_Qle_condition.
  assert (- max_cents <= n <= max_cents)%Z as [H1 H2] by lia.
  rewrite Zle_Qle in H1, H2. rewrite inject_Z_opp in H1.
  change (inject_Z max_cents) with 100000000000 in H1, H2.
  unfold Qdiv. change (/ 100) with (1 # 100). lra.
Qed.

(** The double written with two decimals is within a tenth of a millionth
    of the decimal amount. *)
Lemma cents_near (n : Z) :
  (Z.abs n <= max_cents)%Z -> Qabs (cents n - inject_Z n / 100) <= 1 # 8000000.
Proof.
  intro H. apply (binary64_within _ 1000000000).
  - now apply dollars_bound.
  - exact roundoff_dollars.
Qed.

#[local] Instance toFixed2_comp : Proper (Qeq ==> eq) toFixed2.
Proof.
  intros x y E. unfold toFixed2.
  assert (round_half_away (x * 100) = round_half_away (y * 100)) as ->
    by (apply round_half_away_comp; rewrite E; reflexivity).
  reflexivity.
Qed.

(** [toFixed(2)] of a double gives the cents its hundredfold is nearest
    to. *)
Lemma toFixed2_near x (k : Z) :
  Qabs (100 * x - inject_Z k) < 1 # 2 -> toFixed2 x = cents k.
Proof.
  intro H. unfold toFixed2. f_equal. apply round_half_away_near.
  assert (x * 100 - inject_Z k == 100 * x - inject_Z k) as E by ring.
  rewrite E. exact H.
Qed.

Lemma toFixed2_cents (n : Z) : (Z.abs n <= max_cents)%Z -> toFixed2 (cents n) = cents n.
Proof.
  intro H. apply toFixed2_near.
  pose proof (cents_near n H) as E. apply Qabs_Qle_condition in E.
  apply Qabs_Qlt_condition.
  unfold Qdiv in E. change (/ 100) with (1 # 100) in E. lra.
Qed.

(** ** The pricing function on whole cents *)

Lemma Qmult_bound x y X Y :
  - X <= x <= X -> - Y <= y <= Y -> - (X * Y) <= x * y <= X * Y.
Proof. intros [H1 H2] [H3 H4]. split; nra. Qed.

Lemma clamp_cases x lo hi :
  lo <= hi ->
  (x < lo /\ clamp x lo hi = lo) \/ (hi < x /\ clamp x lo hi = hi) \/
  (lo <= x <= hi /\ clamp x lo hi = x).
Proof.
  intro H. unfold clamp.
  destruct (Qlt_bool x lo) eqn:E1; [left; apply Qlt_bool_iff in E1; auto |].
  assert (~ x < lo) by (rewrite <- Qlt_bool_iff; congruence).
  destruct (Qlt_bool hi x) eqn:E2; [right; left; apply Qlt_bool_iff in E2; auto |].
  assert (~ hi < x) by (rewrite <- Qlt_bool_iff; congruence).
  right. right. split; [lra | reflexivity].
Qed.

(** [clamp] moves by no more than its argument and its upper bound do. *)
Lemma clamp_near x x' hi hi' e e' :
  0 <= hi -> 0 <= hi' -> - e <= x - x' <= e -> - e' <= hi - hi' <= e' ->
  0 <= e -> 0 <= e' ->
  - (e + e') <= clamp x 0 hi - clamp x' 0 hi' <= e + e'.
Proof.
  intros H H' Hx Hh He He'.
  destruct (clamp_cases x 0 hi H) as [[? ->] | [[? ->] | [? ->]]];
    destruct (clamp_cases x' 0 hi' H') as [[? ->] | [[? ->] | [? ->]]]; lra.
Qed.

Lemma base_dollars (b : Z) :
  (0 <= b <= max_cents)%Z ->
  0 <= inject_Z b / 100 <= 1000000000 /\
  0 <= cents b /\ - (1 # 8000000) <= cents b - inject_Z b / 100 <= 1 # 8000000.
Proof.
  intro H.
  assert (Z.abs b <= max_cents)%Z as Hb by lia.
  pose proof (dollars_bound b Hb) as D. apply Qabs_Qle_condition in D.
  pose proof (cents_near b Hb) as N. apply Qabs_Qle_condition in N.
  pose proof (cents_nonneg b (proj1 H)) as Hc.
  destruct H as [Hz _]. rewrite Zle_Qle in Hz. change (inject_Z 0) with 0 in Hz.
  unfold Qdiv in *. change (/ 100) with (1 # 100) in *.
  repeat split; lra.
Qed.

(** The doubles a fixed coupon hands to [toFixed(2)]. *)
Lemma fixed_before_rounding (b : Z) (v : Q) :
  (0 <= b <= max_cents)%Z ->
  let a := cents b in
  let d := Qmax 0 (Qmin a v) in
  let D := 100 * clamp v 0 (inject_Z b / 100) in
  Qabs (100 * d - D) <= 1 # 10000 /\
  Qabs (100 * sub64 a d - (inject_Z b - D)) <= 1 # 10000.
Proof.
  intros Hb a d D.
  destruct (base_dollars b Hb) as ([A0 A1] & a0 & Ea). fold a in a0, Ea.
  set (A := inject_Z b / 100) in *.
  assert (d == clamp v 0 a) as Ed by (apply clamp_as_coded; exact a0).
  assert (- (1 # 8000000) <= d - clamp v 0 A <= 1 # 8000000) as Hd.
  { rewrite Ed.
    assert (- (0 + (1 # 8000000)) <= clamp v 0 a - clamp v 0 A <= 0 + (1 # 8000000));
      [apply clamp_near; lra | lra]. }
  destruct (clamp_bounds v 0 a a0) as [C0 C1]. rewrite <- Ed in C0, C1.
  assert (Qabs (sub64 a d - (a - d)) <= 1 # 4000000) as Et.
  { apply (binary64_within _ 2000000010); [| exact roundoff_twice].
    apply Qabs_Qle_condition. lra. }
  apply Qabs_Qle_condition in Et.
  assert (inject_Z b == 100 * A) as EA by (unfold A; field).
  split; apply Qabs_Qle_condition; unfold D; rewrite ?EA; lra.
Qed.

(** The doubles a percent coupon hands to [toFixed(2)]. *)
Lemma percent_before_rounding (b : Z) (v : Q) :
  (0 <= b <= max_cents)%Z ->
  let a := cents b in
  let pct := Qmax 0 (Qmin 100 v) in
  let d := mul64 a (div64 pct 100) in
  let D := 100 * (inject_Z b / 100 * (clamp v 0 100 / 100)) in
  Qabs (100 * d - D) <= 1 # 10000 /\
  Qabs (100 * sub64 a d - (inject_Z b - D)) <= 1 # 10000.
Proof.
  intros Hb a pct d D.
  destruct (base_dollars b Hb) as ([A0 A1] & a0 & Ea). fold a in a0, Ea.
  set (A := inject_Z b / 100) in *.
  assert (pct == clamp v 0 100) as Ep by (apply clamp_as_coded; lra).
  destruct (clamp_bounds v 0 100) as [P0 P1]; [lra |].
  set (P := clamp v 0 100 / 100) in *.
  assert (0 <= P <= 1) as [HP0 HP1]
    by (unfold P, Qdiv; change (/ 100) with (1 # 100); lra).
  assert (pct / 100 == P) as EP by (unfold P; rewrite Ep; reflexivity).
  set (q := div64 pct 100) in *.
  assert (Qabs (q - P) <= 1 # 8000000000000000) as Eq.
  { unfold q, div64. rewrite <- EP.
    apply (binary64_within _ 1); [| exact roundoff_unit].
    rewrite EP. apply Qabs_Qle_condition. lra. }
  apply Qabs_Qle_condition in Eq.
  assert (0 <= q) as q0.
  { unfold q, div64. apply binary64_nonneg. rewrite EP. exact HP0. }
  assert (- (1 # 3900000) <= a * q - A * P <= 1 # 3900000) as Ep'.
  { assert (a * q - A * P == (a - A) * q + A * (q - P)) as -> by ring.
    pose proof (Qmult_bound (a - A) q (1 # 8000000) (1 + (1 # 8000000000000000))
                  Ea ltac:(lra)) as B1.
    pose proof (Qmult_bound A (q - P) 1000000000 (1 # 8000000000000000)
                  ltac:(lra) Eq) as B2.
    set (x1 := (a - A) * q) in *. set (x2 := A * (q - P)) in *. clearbody x1 x2.
    assert ((1 # 8000000) * (1 + (1 # 8000000000000000)) <= 1 # 7999999) as L1
      by (apply Qle_bool_iff; reflexivity).
    assert (1000000000 * (1 # 8000000000000000) == 1 # 8000000) as L2 by reflexivity.
    lra. }
  assert (0 <= A * P <= 1000000000) as [AP0 AP1] by (split; nra).
  assert (Qabs (d - a * q) <= 1 # 4000000) as Ed.
  { unfold d, mul64. fold q.
    apply (binary64_within _ 2000000010); [| exact roundoff_twice].
    apply Qabs_Qle_condition. lra. }
  apply Qabs_Qle_condition in Ed.
  assert (Qabs (sub64 a d - (a - d)) <= 1 # 4000000) as Et.
  { apply (binary64_within _ 2000000010); [| exact roundoff_twice].
    apply Qabs_Qle_condition. lra. }
  apply Qabs_Qle_condition in Et.
  assert (inject_Z b == 100 * A) as EA by (unfold A; field).
  assert (D == 100 * (A * P)) as ED by reflexivity.
  split; apply Qabs_Qle_condition; rewrite ED, ?EA; lra.
Qed.

Lemma raw_discount_cents (b : Z) coupon :
  (0 <= b)%Z ->
  0 <= 100 * raw_discount (inject_Z b / 100) coupon <= inject_Z b.
Proof.
  intro H. rewrite Zle_Qle in H. change (inject_Z 0) with 0 in H.
  assert (inject_Z b / 100 == inject_Z b * (1 # 100)) as E by reflexivity.
  set (A := inject_Z b / 100) in *.
  destruct (raw_discount_bounds A coupon) as [B1 B2]; lra.
Qed.

(** The results on a base amount in whole cents: each is the double of a
    whole number of cents, rounded half away from zero from the double the
    arithmetic has reached, and so the one nearest to the amount the
    pricing rules give, up to the error of the arithmetic on doubles. *)
Lemma applyCouponToAmount_cents (b : Z) coupon :
  (0 <= b <= max_cents)%Z ->
  let r := applyCouponToAmount (cents b) coupon in
  let u := before_toFixed (cents b) coupon in
  let D := 100 * raw_discount (inject_Z b / 100) coupon in
  let kt := round_half_away (100 * total u) in
  let kd := round_half_away (100 * discount u) in
  total r = cents kt /\ discount r = cents kd /\
  Qabs (inject_Z kd - D) <= 5001 # 10000 /\
  Qabs (inject_Z kt - (inject_Z b - D)) <= 5001 # 10000.
Proof.
  intros Hb r u D kt kd.
  assert (forall D t d : Q,
            Qabs (100 * d - D) <= 1 # 10000 ->
            Qabs (100 * t - (inject_Z b - D)) <= 1 # 10000 ->
            Qabs (inject_Z (round_half_away (100 * d)) - D) <= 5001 # 10000 /\
            Qabs (inject_Z (round_half_away (100 * t)) - (inject_Z b - D)) <= 5001 # 10000)
    as Hround.
  { clear. intros D t d Hd Ht.
    pose proof (round_half_away_error (100 * d)) as Rd.
    pose proof (round_half_away_error (100 * t)) as Rt.
    apply Qabs_Qle_condition in Hd, Ht, Rd, Rt.
    split; apply Qabs_Qle_condition; lra. }
  assert (forall x, toFixed2 x = cents (round_half_away (100 * x))) as Hfix.
  { intro x. unfold toFixed2. f_equal. apply round_half_away_comp. ring. }
  assert (Hnone : cents b = cents (round_half_away (100 * cents b)) /\
                  0 = cents (round_half_away (100 * 0)) /\
                  Qabs (inject_Z (round_half_away (100 * 0)) - 100 * 0) <= 5001 # 10000 /\
                  Qabs (inject_Z (round_half_away (100 * cents b)) - (inject_Z b - 100 * 0))
                    <= 5001 # 10000).
  { assert (round_half_away (100 * cents b) = b) as ->.
    { apply round_half_away_near.
      destruct (base_dollars b Hb) as (_ & _ & E).
      assert (inject_Z b / 100 == inject_Z b * (1 # 100)) as E' by reflexivity.
      rewrite E' in E. apply Qabs_Qlt_condition. lra. }
    refine (conj eq_refl (conj eq_refl (conj _ _))); apply Qabs_Qle_condition.
    - vm_compute. split; discriminate.
    - lra. }
  subst r u D kt kd.
  destruct coupon as [c |]; cbn [applyCouponToAmount before_toFixed raw_discount];
    [| exact Hnone].
  destruct (String.eqb (Coupon.type c) "fixed").
  - cbv zeta. cbn [total discount]. rewrite !Hfix.
    refine (conj eq_refl (conj eq_refl _)).
    destruct (fixed_before_rounding b (Coupon.value c) Hb) as [H1 H2].
    apply Hround; assumption.
  - destruct (String.eqb (Coupon.type c) "percent"); [| exact Hnone].
    cbv zeta. cbn [total discount]. rewrite !Hfix.
    refine (conj eq_refl (conj eq_refl _)).
    destruct (percent_before_rounding b (Coupon.value c) Hb) as [H1 H2].
    apply Hround; assumption.
Qed.

(** An integer within half a cent and a little of an amount between 0 and
    [b] is between 0 and [b]. *)
Lemma cents_between (b k : Z) (D : Q) :
  0 <= D <= inject_Z b -> Qabs (inject_Z k - D) <= 5001 # 10000 -> (0 <= k <= b)%Z.
Proof.
  intros [D0 D1] H. apply Qabs_Qle_condition in H. split.
  - assert (inject_Z (-1) < inject_Z k) as L by (change (inject_Z (-1)) with (-1); lra).
    rewrite <- Zlt_Qlt in L. lia.
  - apply Zle_via_Q. lra.
Qed.

Lemma cents_exact (k m : Z) (D : Q) :
  Qabs (D - inject_Z m) <= 1 # 4 -> Qabs (inject_Z k - D) <= 5001 # 10000 -> k = m.
Proof.
  intros H1 H2. apply Z_near.
  apply Qabs_Qle_condition in H1, H2. apply Qabs_Qlt_condition. lra.
Qed.

(** The results when the amounts of the pricing rules are whole cents, up
    to a quarter of a cent. *)
Lemma applyCouponToAmount_exact (b m : Z) coupon :
  (0 <= b <= max_cents)%Z ->
  Qabs (100 * raw_discount (inject_Z b / 100) coupon - inject_Z m) <= 1 # 4 ->
  let r := applyCouponToAmount (cents b) coupon in
  total r = cents (b - m) /\ discount r = cents m.
Proof.
  intros Hb Hm r.
  destruct (applyCouponToAmount_cents b coupon Hb) as (T & D & Hd & Ht).
  fold r in T, D. rewrite T, D.
  rewrite (cents_exact _ m _ Hm Hd).
  rewrite (cents_exact _ (b - m) (inject_Z b - 100 * raw_discount (inject_Z b / 100) coupon)).
  - split; reflexivity.
  - rewrite inject_Z_sub. apply Qabs_Qle_condition in Hm. apply Qabs_Qle_condition. lra.
  - exact Ht.
Qed.

Lemma clamp_Z (n b : Z) :
  (0 <= b)%Z ->
  clamp (inject_Z n / 100) 0 (inject_Z b / 100) == inject_Z (Z.max 0 (Z.min b n)) / 100.
Proof.
  intro Hb. pose proof Hb as HbQ.
  rewrite Zle_Qle in HbQ. change (inject_Z 0) with 0 in HbQ.
  unfold Qdiv. change (/ 100) with (1 # 100).
  destruct (clamp_cases (inject_Z n * (1 # 100)) 0 (inject_Z b * (1 # 100)))
    as [[H ->] | [[H ->] | [H ->]]]; [lra | | |].
  - assert (inject_Z n < inject_Z 0) as L by (change (inject_Z 0) with 0; lra).
    rewrite <- Zlt_Qlt in L.
    replace (Z.max 0 (Z.min b n)) with 0%Z by lia. reflexivity.
  - assert (inject_Z b < inject_Z n) as L by lra.
    rewrite <- Zlt_Qlt in L.
    replace (Z.max 0 (Z.min b n)) with b by lia. reflexivity.
  - assert (inject_Z 0 <= inject_Z n <= inject_Z b) as [L1 L2]
      by (change (inject_Z 0) with 0; lra).
    rewrite <- Zle_Qle in L1, L2.
    replace (Z.max 0 (Z.min b n)) with n by lia. reflexivity.
Qed.

(** A fixed coupon of whole cents on a base amount of whole cents. *)
Lemma applyCouponToAmount_fixed_cents (b n : Z) (c : Coupon.t) :
  (0 <= b <= max_cents)%Z -> (Z.abs n <= max_cents)%Z ->
  Coupon.type c = "fixed" -> Coupon.value c = cents n ->
  let r := applyCouponToAmount (cents b) (Some c) in
  let m := Z.max 0 (Z.min b n) in
  discount r = cents m /\ total r = cents (b - m) /\
  discount r == clamp (Coupon.value c) 0 (cents b).
Proof.
  intros Hb Hn Hty Hv r m.
  destruct (base_dollars b Hb) as ([A0 A1] & a0 & Ea).
  pose proof (cents_near n Hn) as En. apply Qabs_Qle_condition in En.
  assert (total r = cents (b - m) /\ discount r = cents m) as [T D].
  { apply applyCouponToAmount_exact; [exact Hb |].
    rewrite (raw_discount_fixed _ c Hty), Hv.
    pose proof (clamp_Z n b (proj1 Hb)) as EZ. fold m in EZ.
    assert (- ((1 # 8000000) + 0) <=
            clamp (cents n) 0 (inject_Z b / 100) - clamp (inject_Z n / 100) 0 (inject_Z b / 100)
            <= (1 # 8000000) + 0) as L by (apply clamp_near; lra).
    rewrite EZ in L. apply Qabs_Qle_condition.
    assert (inject_Z m / 100 == inject_Z m * (1 # 100)) as Em by reflexivity.
    rewrite Em in L. lra. }
  refine (conj D (conj T _)). rewrite D, Hv.
  destruct (clamp_cases (cents n) 0 (cents b) a0) as [[H ->] | [[H ->] | [[H1 H2] ->]]].
  - assert (n < 0)%Z as L.
    { destruct (Z_lt_le_dec n 0) as [L | L]; [exact L |].
      pose proof (cents_nonneg n L). lra. }
    unfold m. replace (Z.max 0 (Z.min b n)) with 0%Z by lia. reflexivity.
  - assert (b < n)%Z as L.
    { destruct (Z_lt_le_dec b n) as [L | L]; [exact L |].
      pose proof (cents_mono n b L). lra. }
    unfold m. replace (Z.max 0 (Z.min b n)) with b by lia. reflexivity.
  - destruct (Z_lt_le_dec n 0) as [L | L].
    + assert (cents n <= cents 0) as L' by (apply cents_mono; lia).
      rewrite cents_0 in L'.
      unfold m. replace (Z.max 0 (Z.min b n)) with 0%Z by lia. rewrite cents_0. lra.
    + destruct (Z_lt_le_dec b n) as [L' | L'].
      * assert (cents b <= cents n) as L'' by (apply cents_mono; lia).
        unfold m. replace (Z.max 0 (Z.min b n)) with b by lia. lra.
      * unfold m. replace (Z.max 0 (Z.min b n)) with n by lia. reflexivity.
Qed.

Lemma raw_discount_percent amount c :
  Coupon.type c = "percent" ->
  raw_discount amount (Some c) = amount * (clamp (Coupon.value c) 0 100 / 100).
Proof. intro H. unfold raw_discount. now rewrite H. Qed.

Lemma percent_clamped amount c c' :
  Coupon.type c = "percent" -> Coupon.type c' = "percent" ->
  Coupon.value c' == clamp (Coupon.value c) 0 100 ->
  applyCouponToAmount amount (Some c) = applyCouponToAmount amount (Some c').
Proof.
  intros Hty Hty' Hv. unfold applyCouponToAmount. rewrite Hty, Hty'.
  cbn [String.eqb Ascii.eqb Bool.eqb]. cbv zeta.
  assert (div64 (Qmax 0 (Qmin 100 (Coupon.value c))) 100 =
          div64 (Qmax 0 (Qmin 100 (Coupon.value c'))) 100) as ->; [| reflexivity].
  unfold div64. apply binary64_comp.
  pose proof (clamp_as_coded (Coupon.value c) 0 100 ltac:(lra)) as E.
  destruct (clamp_bounds (Coupon.value c) 0 100) as [B1 B2]; [lra |].
  set (p := Qmax 0 (Qmin 100 (Coupon.value c))) in *.
  set (k := clamp (Coupon.value c) 0 100) in *.
  assert (Qmax 0 (Qmin 100 (Coupon.value c')) == p) as E'.
  { destruct (Q.min_spec 100 (Coupon.value c')) as [[? M] | [? M]];
      destruct (Q.max_spec 0 (Qmin 100 (Coupon.value c'))) as [[? M'] | [? M']];
      rewrite M', ?M; rewrite M in *; lra. }
  rewrite E'. reflexivity.
Qed.

(** C5, as the code has it. The pricing function meets the four reference
    cases, in the arithmetic of doubles and on the primitive floats. The
    rule for fixed coupons holds of amounts in whole cents: for a base
    amount and a coupon value of whole cents, up to a thousand million
    dollars, the discount is the value clamped between 0 and the base
    amount and the total is the base amount minus the discount, each
    result being the double written with these two decimals. For a percent
    coupon the percentage is clamped between 0 and 100: the coupon acts as
    the coupon of the clamped percentage does; from 100 on the discount is
    the base amount and the total 0, and up to 0 the discount is 0 and the
    total the base amount. *)
Theorem pricing_reference_cases_and_clamping :
  (forall code u m a,
     let r := applyCouponToAmount 100 (Some (Coupon.mk code "fixed" 30 u m a)) in
     total r == 70 /\ discount r == 30) /\
  (forall code u m a,
     let r := applyCouponToAmount 50 (Some (Coupon.mk code "percent" 20 u m a)) in
     total r == 40 /\ discount r == 10) /\
  (forall code u m a,
     let r := applyCouponToAmount 10 (Some (Coupon.mk code "fixed" 999 u m a)) in
     total r == 0 /\ discount r == 10) /\
  (let r := applyCouponToAmount 100 None in total r == 100 /\ discount r == 0) /\
  (Binary64.applyCouponToAmount 100 (Some ("fixed", 30%float)) = (70%float, 30%float) /\
   Binary64.applyCouponToAmount 50 (Some ("percent", 20%float)) = (40%float, 10%float) /\
   Binary64.applyCouponToAmount 10 (Some ("fixed", 999%float)) = (0%float, 10%float) /\
   Binary64.applyCouponToAmount 100 None = (100%float, 0%float)) /\
  (forall (b n : Z) c,
     (0 <= b <= max_cents)%Z -> (Z.abs n <= max_cents)%Z ->
     Coupon.type c = "fixed" -> Coupon.value c = cents n ->
     let r := applyCouponToAmount (cents b) (Some c) in
     let m := Z.max 0 (Z.min b n) in
     discount r = cents m /\ total r = cents (b - m) /\
     discount r == clamp (Coupon.value c) 0 (cents b)) /\
  (forall amount c,
     Coupon.type c = "percent" ->
     let pct := clamp (Coupon.value c) 0 100 in
     0 <= pct <= 100 /\
     forall c', Coupon.type c' = "percent" -> Coupon.value c' == pct ->
       applyCouponToAmount amount (Some c) = applyCouponToAmount amount (Some c')) /\
  (forall (b : Z) c,
     (0 <= b <= max_cents)%Z -> Coupon.type c = "percent" ->
     let r := applyCouponToAmount (cents b) (Some c) in
     (100 <= Coupon.value c -> discount r = cents b /\ total r = 0) /\
     (Coupon.value c <= 0 -> discount r = 0 /\ total r = cents b)).
Proof.
  refine (conj _ (conj _ (conj _ (conj _ (conj _ (conj _ (conj _ _))))))).
  - intros. vm_compute. split; reflexivity.
  - intros. vm_compute. split; reflexivity.
  - intros. vm_compute. split; reflexivity.
  - vm_compute. split; reflexivity.
  - repeat split; vm_compute; reflexivity.
  - intros b n c Hb Hn Hty Hv. now apply applyCouponToAmount_fixed_cents.
  - intros amount c Hty pct. split.
    + apply clamp_bounds. lra.
    + intros c' Hty' Hv. now apply percent_clamped.
  - intros b c Hb Hty r.
    assert (0 <= inject_Z b) as HbQ
      by (change 0 with (inject_Z 0); rewrite <- Zle_Qle; lia).
    split; intro Hv.
    + destruct (applyCouponToAmount_exact b b (Some c) Hb) as [T D].
      * rewrite (raw_discount_percent _ c Hty).
        destruct (clamp_cases (Coupon.value c) 0 100) as [[H ->] | [[H ->] | [H ->]]];
          try lra; apply Qabs_Qle_condition.
        -- assert (100 * (inject_Z b / 100 * (100 / 100)) - inject_Z b == 0) as -> by field.
           lra.
        -- assert (Coupon.value c == 100) as -> by lra.
           assert (100 * (inject_Z b / 100 * (100 / 100)) - inject_Z b == 0) as -> by field.
           lra.
      * fold r in T, D. rewrite T, D, Z.sub_diag. split; reflexivity.
    + destruct (applyCouponToAmount_exact b 0 (Some c) Hb) as [T D].
      * rewrite (raw_discount_percent _ c Hty).
        destruct (clamp_cases (Coupon.value c) 0 100) as [[H ->] | [[H ->] | [H ->]]];
          try lra; apply Qabs_Qle_condition; change (inject_Z 0) with 0.
        -- assert (100 * (inject_Z b / 100 * (0 / 100)) - 0 == 0) as -> by field.
           lra.
        -- assert (Coupon.value c == 0) as -> by lra.
           assert (100 * (inject_Z b / 100 * (0 / 100)) - 0 == 0) as -> by field.
           lra.
      * fold r in T, D. rewrite T, D, Z.sub_0_r. split; reflexivity.
Qed.

Lemma pricing_reference_cases_and_clamping_witness :
  (0 <= 1990 <= max_cents)%Z /\ (Z.abs 500 <= max_cents)%Z /\
  (let r := applyCouponToAmount (cents 1990)
              (Some (Coupon.mk "FIVE" "fixed" (cents 500) 0 0 true)) in
   discount r = cents 500 /\ total r = cents 1490 /\
   discount r == clamp (cents 500) 0 (cents 1990)).
Proof.
  assert (0 <= 1990 <= max_cents)%Z as Hb by (unfold max_cents; lia).
  assert (Z.abs 500 <= max_cents)%Z as Hn by (unfold max_cents; lia).
  refine (conj Hb (conj Hn _)).
  exact (proj1 (proj2 (proj2 (proj2 (proj2 (proj2
           pricing_reference_cases_and_clamping)))))
           1990%Z 500%Z (Coupon.mk "FIVE" "fixed" (cents 500) 0 0 true)
           Hb Hn eq_refl eq_refl).
Defined.

(** C5, as stated, fails: the discount is not the clamped value and the
    total is not the base amount minus it when the value is not in whole
    cents. A fixed coupon of 0.005 on a base amount of 1 gives the
    discount 0.01 and the total 0.99, where the clamped value is 0.005;
    the run on primitive floats gives the same. *)
Lemma pricing_fixed_rule_is_rounded :
  let v := binary64 (5 # 1000) in
  let r := applyCouponToAmount 1 (Some (Coupon.mk "HALFCENT" "fixed" v 0 0 true)) in
  let r64 := Binary64.applyCouponToAmount 1 (Some ("fixed", PrimFloat.div 5 1000)) in
  clamp v 0 1 == v /\
  (discount r = cents 1 /\ total r = cents 99) /\
  ~ discount r == clamp v 0 1 /\
  ~ total r == 1 - clamp v 0 1 /\
  ~ total r == sub64 1 (clamp v 0 1) /\
  (same_number (PrimFloat.div 5 1000) v = true /\
   r64 = (Binary64.cents 99, Binary64.cents 1)).
Proof.
  cbv zeta.
  refine (conj _ (conj _ (conj _ (conj _ (conj _ _))))).
  - vm_compute. reflexivity.
  - split; vm_compute; reflexivity.
  - vm_compute. discriminate.
  - vm_compute. discriminate.
  - vm_compute. discriminate.
  - split; vm_compute; reflexivity.
Qed.

(** C6, as the code has it, on doubles. For a base amount of a whole
    number of cents, from 0 to a thousand million dollars, and any coupon:
    the total and the discount are doubles written with two decimals,
    [kt] and [kd] cents; each is rounded once, at the end, half away from
    zero, from the double the arithmetic has reached, so it is the whole
    number of cents nearest to the exact amount of the pricing rules up to
    the error of that arithmetic (a ten-thousandth of a cent), and a tie
    of the exact amounts can fall either way; both lie between 0 and the
    base amount; since each is rounded on its own, the total and the base
    amount minus the discount can differ by one cent, in either direction;
    they agree when the exact discount is in whole cents. *)
Theorem pricing_rounding_whole_cents (b : Z) coupon :
  (0 <= b <= max_cents)%Z ->
  let r := applyCouponToAmount (cents b) coupon in
  let u := before_toFixed (cents b) coupon in
  let D := 100 * raw_discount (inject_Z b / 100) coupon in
  let kt := round_half_away (100 * total u) in
  let kd := round_half_away (100 * discount u) in
  (total r = cents kt /\ discount r = cents kd) /\
  (Qabs (inject_Z kd - D) <= 5001 # 10000 /\
   Qabs (inject_Z kt - (inject_Z b - D)) <= 5001 # 10000) /\
  ((0 <= kt <= b)%Z /\ 0 <= total r <= cents b) /\
  ((0 <= kd <= b)%Z /\ 0 <= discount r <= cents b) /\
  (b - kd - 1 <= kt <= b - kd + 1)%Z /\
  (forall k : Z, D == inject_Z k -> kd = k /\ kt = (b - k)%Z).
Proof.
  intros Hb r u D kt kd.
  destruct (applyCouponToAmount_cents b coupon Hb) as (T & Dd & Hd & Ht).
  fold r in T, Dd. fold u kt kd in T, Dd, Hd, Ht. fold D in Hd, Ht.
  clearbody kt kd.
  destruct (raw_discount_cents b coupon (proj1 Hb)) as [D0 D1]. fold D in D0, D1.
  assert (0 <= kd <= b)%Z as Bd by (apply (cents_between b kd D); [split |]; assumption).
  assert (0 <= kt <= b)%Z as Bt.
  { apply (cents_between b kt (inject_Z b - D)); [split; lra | assumption]. }
  refine (conj (conj T Dd) (conj (conj Hd Ht) (conj (conj Bt _) (conj (conj Bd _) (conj _ _))))).
  - rewrite T. split; [apply cents_nonneg | apply cents_mono]; lia.
  - rewrite Dd. split; [apply cents_nonneg | apply cents_mono]; lia.
  - apply Qabs_Qle_condition in Hd, Ht.
    split; apply Zle_via_Q;
      rewrite ?inject_Z_plus, ?inject_Z_sub; change (inject_Z 1) with 1; lra.
  - intros k Hk. split.
    + apply (cents_exact kd k D); [| exact Hd].
      apply Qabs_Qle_condition. lra.
    + apply (cents_exact kt (b - k) (inject_Z b - D)); [| exact Ht].
      rewrite inject_Z_sub. apply Qabs_Qle_condition. lra.
Qed.

Lemma pricing_rounding_whole_cents_witness :
  let coupon := Some (Coupon.mk "FIFTEEN" "percent" 15 0 0 true) in
  let r := applyCouponToAmount (cents 70) coupon in
  let u := before_toFixed (cents 70) coupon in
  (0 <= 70 <= max_cents)%Z /\
  (round_half_away (100 * total u) = 59 /\ round_half_away (100 * discount u) = 10)%Z /\
  (total r = cents 59 /\ discount r = cents 10) /\
  (0 <= 59 <= 70)%Z /\ (0 <= 10 <= 70)%Z /\ (70 - 10 - 1 <= 59 <= 70 - 10 + 1)%Z.
Proof.
  cbv zeta.
  assert (0 <= 70 <= max_cents)%Z as Hb by (unfold max_cents; lia).
  assert (round_half_away
            (100 * total (before_toFixed (cents 70)
                            (Some (Coupon.mk "FIFTEEN" "percent" 15 0 0 true)))) = 59%Z) as Et
    by (vm_compute; reflexivity).
  assert (round_half_away
            (100 * discount (before_toFixed (cents 70)
                               (Some (Coupon.mk "FIFTEEN" "percent" 15 0 0 true)))) = 10%Z) as Ed
    by (vm_compute; reflexivity).
  destruct (pricing_rounding_whole_cents 70
              (Some (Coupon.mk "FIFTEEN" "percent" 15 0 0 true)) Hb)
    as (R & _ & [Bt _] & [Bd _] & S & _).
  rewrite Et, Ed in R. rewrite Et in Bt. rewrite Ed in Bd. rewrite Et, Ed in S.
  exact (conj Hb (conj (conj Et Ed) (conj R (conj Bt (conj Bd S))))).
Defined.

(** C6, as stated, fails. A 12.5 percent coupon on a base amount of 1
    gives the total 0.88 and the discount 0.13, one cent more than the
    base amount between them; a 15 percent coupon on 0.70 gives the total
    0.59 and the discount 0.10, one cent less, and the discount is not the
    exact 0.105 rounded half away from zero, which is 0.11: the product on
    doubles is a little below 0.105. The runs on primitive floats give the
    same. Off the whole cents and below zero the bounds fail as well: a
    base amount of 1/128 with a fixed coupon of 1/1024 gives the total
    0.01, above the base amount, and without coupon the total is the base
    amount as it came, not rounded; a base amount of -5 comes back as the
    total -5. *)
Lemma pricing_total_is_not_original_minus_discount :
  let r := applyCouponToAmount 1 (Some (Coupon.mk "EIGHTH" "percent" (25 # 2) 0 0 true)) in
  let r64 := Binary64.applyCouponToAmount 1 (Some ("percent", 12.5%float)) in
  let c15 := Coupon.mk "FIFTEEN" "percent" 15 0 0 true in
  let s := applyCouponToAmount (cents 70) (Some c15) in
  let s64 := Binary64.applyCouponToAmount (Binary64.cents 70) (Some ("percent", 15%float)) in
  (total r = cents 88 /\ discount r = cents 13 /\
   ~ total r == 1 - discount r /\ ~ total r == sub64 1 (discount r)) /\
  (r64 = (Binary64.cents 88, Binary64.cents 13) /\
   PrimFloat.eqb (fst r64) (PrimFloat.sub 1 (snd r64)) = false) /\
  (total s = cents 59 /\ discount s = cents 10 /\
   ~ total s == cents 70 - discount s /\ ~ total s == sub64 (cents 70) (discount s) /\
   round_half_away (100 * raw_discount (70 # 100) (Some c15)) = 11%Z) /\
  (s64 = (Binary64.cents 59, Binary64.cents 10) /\
   PrimFloat.eqb (fst s64) (PrimFloat.sub (Binary64.cents 70) (snd s64)) = false) /\
  (let t := applyCouponToAmount (1 # 128) (Some (Coupon.mk "TINY" "fixed" (1 # 1024) 0 0 true)) in
   total t = cents 1 /\ ~ total t <= 1 # 128) /\
  (total (applyCouponToAmount (1 # 128) None) == 1 # 128 /\
   ~ toFixed2 (1 # 128) == 1 # 128) /\
  (let n := applyCouponToAmount (-5) (Some (Coupon.mk "ONE" "fixed" 1 0 0 true)) in
   total n == -5 /\ ~ 0 <= total n).
Proof.
  cbv zeta.
  refine (conj _ (conj _ (conj _ (conj _ (conj _ (conj _ _)))))).
  - refine (conj _ (conj _ (conj _ _))); vm_compute; try reflexivity; discriminate.
  - split; vm_compute; reflexivity.
  - refine (conj _ (conj _ (conj _ (conj _ _)))); vm_compute; try reflexivity; discriminate.
  - split; vm_compute; reflexivity.
  - vm_compute. split; [reflexivity | intro H; now apply H].
  - vm_compute. split; [reflexivity | discriminate].
  - vm_compute. split; [reflexivity | intro H; now apply H].
Qed.

(** The reading of a decimal amount decides a tie: 10.01 is stored a
    little below its decimal value, and so is half of it, so a 50 percent
    coupon gives the total 5.00 and the discount 5.00, where the exact
    amounts are 5.005 each and rounding them half away from zero gives
    5.01 and 5.01. In the same way 15 percent of 19.90 give the total
    16.91 and the discount 2.98, and a fixed coupon of 0.01 on 1.015 gives
    the total 1.00. *)
Example pricing_tie_on_doubles :
  Binary64.applyCouponToAmount (Binary64.cents 1001) (Some ("percent", 50%float))
    = (5%float, 5%float) /\
  (let c := Coupon.mk "HALF" "percent" 50 0 0 true in
   let r := applyCouponToAmount (cents 1001) (Some c) in
   total r = 5 /\ discount r = 5 /\
   round_half_away (100 * raw_discount (1001 # 100) (Some c)) = 501%Z) /\
  (let c := Coupon.mk "FIFTEEN" "percent" 15 0 0 true in
   let r := applyCouponToAmount (cents 1990) (Some c) in
   total r = cents 1691 /\ discount r = cents 298 /\
   Binary64.applyCouponToAmount (Binary64.cents 1990) (Some ("percent", 15%float))
     = (Binary64.cents 1691, Binary64.cents 298)) /\
  (let c := Coupon.mk "CENT" "fixed" (cents 1) 0 0 true in
   let r := applyCouponToAmount (binary64 (1015 # 1000)) (Some c) in
   total r = 1 /\ discount r = cents 1 /\
   Binary64.applyCouponToAmount (PrimFloat.div 1015 1000) (Some ("fixed", Binary64.cents 1))
     = (1%float, Binary64.cents 1)).
Proof.
  split; [vm_compute; reflexivity |].
  vm_compute. repeat split.
Qed.

(** The pricing function on rationals rounded as doubles and the one on
    primitive floats give the same results, for the base amounts up to
    1.20 and the amounts 19.90, 99.99 and 1000.01, with fixed and percent
    coupons of a dozen values. *)
Example pricing_on_primitive_floats :
  forallb
    (fun b =>
       forallb (fun v => same_pricing b "fixed" v && same_pricing b "percent" v)
               [-100; 0; 1; 5; 33; 50; 1250; 1500; 3333; 9999; 10000; 12000]%Z)
    (1990 :: 9999 :: 100001 :: List.map Z.of_nat (seq 0 121))%Z
  = true.
Proof. vm_compute. reflexivity. Qed.

(** ** Strings *)

Lemma lower_upper_char c : lower_char (upper_char c) = lower_char c.
Proof. destruct c as [[] [] [] [] [] [] [] []]; reflexivity. Qed.

Lemma upper_lower_char c : upper_char (lower_char c) = upper_char c.
Proof. destruct c as [[] [] [] [] [] [] [] []]; reflexivity. Qed.

Lemma upper_upper_char c : upper_char (upper_char c) = upper_char c.
Proof. destruct c as [[] [] [] [] [] [] [] []]; reflexivity. Qed.

Lemma map_chars_compose f g h s :
  (forall c, f (g c) = h c) -> map_chars f (map_chars g s) = map_chars h s.
Proof.
  intro H. induction s as [| c s IH]; [reflexivity |].
  cbn. now rewrite H, IH.
Qed.

Lemma toLowerCase_toUpperCase s : toLowerCase (toUpperCase s) = toLowerCase s.
Proof. apply map_chars_compose, lower_upper_char. Qed.

Lemma toUpperCase_toLowerCase s : toUpperCase (toLowerCase s) = toUpperCase s.
Proof. apply map_chars_compose, upper_lower_char. Qed.

Lemma toUpperCase_idem s : toUpperCase (toUpperCase s) = toUpperCase s.
Proof. apply map_chars_compose, upper_upper_char. Qed.

(** Matching on upper case against a normalized code is matching without
    regard to case. *)
Lemma same_code_normalized x code :
  toUpperCase x = normalized code <-> same_code x (normalized code).
Proof.
  unfold same_code, normalized. split; intro H.
  - now rewrite <- H, toLowerCase_toUpperCase.
  - apply (f_equal toUpperCase) in H.
    now rewrite !toUpperCase_toLowerCase, toUpperCase_idem in H.
Qed.

Lemma is_code_char_spec c : is_code_char c = true <-> in_code_alphabet c.
Proof.
  unfold is_code_char, in_code_alphabet, is_upper, is_digit.
  rewrite !orb_true_iff, !andb_true_iff, !Nat.leb_le, !Ascii.eqb_eq. tauto.
Qed.

Lemma all_chars_spec p (P : ascii -> Prop) s :
  (forall c, p c = true <-> P c) ->
  all_chars p s = true <-> Forall P (list_ascii_of_string s).
Proof.
  intro H. induction s as [| c s IH]; cbn.
  - split; [constructor | reflexivity].
  - rewrite andb_true_iff, Forall_cons_iff, H, IH. reflexivity.
Qed.

(** The regular expression is the format rule. *)
Lemma code_regex_spec s : code_regex s = true <-> valid_code_format s.
Proof.
  unfold code_regex, valid_code_format.
  rewrite !andb_true_iff, !Nat.leb_le, (all_chars_spec _ _ _ is_code_char_spec).
  tauto.
Qed.

(** ** The coupon ledger *)

Lemma existsb_same_code ledger code :
  existsb (fun x => String.eqb (toUpperCase (Coupon.code x)) (normalized code)) ledger = true
  <-> exists x, In x ledger /\ same_code (Coupon.code x) (normalized code).
Proof.
  rewrite existsb_exists. split; intros (x & Hin & H); exists x; split; auto.
  - now apply same_code_normalized, String.eqb_eq.
  - now apply String.eqb_eq, same_code_normalized.
Qed.

(** [addCoupon] either refuses the definition with a validation error and
    writes nothing, or goes on to append the new coupon. *)
Lemma addCoupon_cases a w :
  (rejected a (coupons w) /\
   exists msg, In msg validation_errors /\ addCoupon a w = (Throws msg, w))
  \/
  (~ rejected a (coupons w) /\
   exists v, arg_value a = Finite v /\
     addCoupon a w =
       if fs_writable w
       then (Return (added_coupon a v),
             set_coupons (coupons w ++ [added_coupon a v]) w)
       else (Throws "EACCES", w)).
Proof.
  unfold addCoupon, rejected. fold (normalized (arg_code a)).
  destruct (truthy (arg_code a)) eqn:Et; cbn [negb].
  2:{ left. split.
      - left. destruct (arg_code a); [| discriminate].
        intros [[H _] _]. cbn in H. lia.
      - eexists. split; [| reflexivity]. cbn. tauto. }
  destruct (code_regex (normalized (arg_code a))) eqn:Er; cbn [negb].
  2:{ left. split.
      - left. rewrite <- code_regex_spec. congruence.
      - eexists. split; [| reflexivity]. cbn. tauto. }
  apply code_regex_spec in Er.
  destruct (String.eqb (arg_type a) "fixed") eqn:Ef;
    destruct (String.eqb (arg_type a) "percent") eqn:Ep; cbn [negb andb].
  4:{ left. apply String.eqb_neq in Ef, Ep. split.
      - right; right; left. tauto.
      - eexists. split; [| reflexivity]. cbn. tauto. }
  all: destruct (arg_value a) as [v |] eqn:Ev.
  all: try (left; split;
            [ do 3 right; left; cbn; tauto
            | eexists; split; [| reflexivity]; cbn; tauto ]).
  all: destruct (Qle_bool v 0) eqn:Ev0.
  all: try (left; apply Qle_bool_iff in Ev0; split;
            [ do 3 right; left; cbn; lra
            | eexists; split; [| reflexivity]; cbn; tauto ]).
  all: assert (0 < v) as Hv
      by (destruct (Qlt_le_dec 0 v) as [? | H]; [assumption |];
          apply Qle_bool_iff in H; congruence).
  all: cbn [andb]; try destruct (Qlt_bool 100 v) eqn:E100.
  all: try (left; apply Qlt_bool_iff in E100; apply String.eqb_eq in Ep; split;
            [ do 4 right; left; cbn; tauto
            | eexists; split; [| reflexivity]; cbn; tauto ]).
  all: destruct (default 0%Z (arg_maxUses a) <? 0)%Z eqn:Em.
  all: try (left; apply Z.ltb_lt in Em; split;
            [ do 5 right; assumption
            | eexists; split; [| reflexivity]; cbn; tauto ]).
  all: apply Z.ltb_ge in Em.
  all: unfold bind, readAll.
  all: destruct (existsb _ (coupons w)) eqn:Ex.
  all: try (left; apply existsb_same_code in Ex; split;
            [ right; left; assumption
            | eexists; split; [| reflexivity]; cbn; tauto ]).
  all: right; split;
    [| exists v; split; [reflexivity |];
       unfold writeAll, writeFile, ret, added_coupon;
       destruct (fs_writable w); reflexivity ].
  all: intros [H | [H | [[H1 H2] | [H | [[H1 H2] | H]]]]];
    try tauto; try lia.
  all: try (apply existsb_same_code in H; congruence).
  all: try (apply String.eqb_eq in Ef; congruence).
  all: try (apply String.eqb_eq in Ep; congruence).
  all: try (cbn in H; tauto).
  all: cbn in H2.
  all: try (assert (~ 100 < v) by (rewrite <- Qlt_bool_iff; congruence); tauto).
  all: apply String.eqb_neq in Ep; tauto.
Qed.

Lemma validation_error_not_EACCES : ~ In "EACCES" validation_errors.
Proof. cbn. intros [H | [H | [H | [H | [H | [H | [H | []]]]]]]]; discriminate. Qed.


Lemma findIndex_none {A} (p : A -> bool) l :
  (forall x, In x l -> p x = false) -> findIndex p l = None.
Proof.
  induction l as [| y l IH]; intro H; [reflexivity |].
  cbn. rewrite (H y) by (now left).
  rewrite IH; [reflexivity |]. intros x Hx. apply H. now right.
Qed.

Lemma findIndex_first {A} (p : A -> bool) l1 c l2 :
  (forall x, In x l1 -> p x = false) -> p c = true ->
  findIndex p (l1 ++ c :: l2) = Some (List.length l1).
Proof.
  induction l1 as [| y l1 IH]; intros H Hc; cbn.
  - now rewrite Hc.
  - rewrite (H y) by (now left).
    rewrite IH; [reflexivity | | assumption].
    intros x Hx. apply H. now right.
Qed.

Lemma findIndex_Some {A} (p : A -> bool) l i :
  findIndex p l = Some i -> exists c, l !! i = Some c /\ p c = true.
Proof.
  revert i. induction l as [| y l IH]; intros i H; [discriminate |].
  cbn in H. destruct (p y) eqn:Ey.
  - injection H as <-. exists y. auto.
  - destruct (findIndex p l) as [j |]; [| discriminate].
    injection H as <-. apply (IH j eq_refl).
Qed.

Lemma insert_first_match (l1 : list Coupon.t) c c' l2 :
  (l1 ++ c :: l2)%list !! List.length l1 = Some c /\
  <[List.length l1 := c']> (l1 ++ c :: l2)%list = (l1 ++ c' :: l2)%list.
Proof.
  induction l1 as [| y l1 [IH1 IH2]]; [split; reflexivity |].
  split; [exact IH1 | cbn; f_equal; exact IH2].
Qed.

Lemma names_eqb code c :
  String.eqb (toUpperCase (Coupon.code c)) (toUpperCase (trim code)) = true
  <-> names code c.
Proof. apply String.eqb_eq. Qed.

Lemma not_usable_bool c :
  not_usable c <->
  (negb (Coupon.active c)
   || (0 <? Coupon.maxUses c)%Z && (Coupon.maxUses c <=? Coupon.uses c)%Z) = true.
Proof.
  unfold not_usable.
  rewrite orb_true_iff, andb_true_iff, negb_true_iff, Z.ltb_lt, Z.leb_le.
  reflexivity.
Qed.

(** What [incrementCouponUse] does once the first coupon named by the code
    is known. *)
Lemma incrementCouponUse_found code w l1 c l2 :
  coupons w = (l1 ++ c :: l2)%list ->
  (forall x, In x l1 -> ~ names code x) -> names code c ->
  incrementCouponUse code w =
    if negb (Coupon.active c)
       || (0 <? Coupon.maxUses c)%Z && (Coupon.maxUses c <=? Coupon.uses c)%Z
    then (Return false, w)
    else if fs_writable w
    then (Return true,
          set_coupons (l1 ++ with_uses c (Coupon.uses c + 1) :: l2) w)
    else (Throws "EACCES", w).
Proof.
  intros Hl Hbefore Hc.
  unfold incrementCouponUse, bind, readAll. rewrite Hl.
  rewrite (findIndex_first _ l1 c l2).
  - destruct (insert_first_match l1 c (with_uses c (Coupon.uses c + 1)) l2) as [-> ->].
    destruct (Coupon.active c); cbn [negb orb]; [| reflexivity].
    destruct ((0 <? Coupon.maxUses c)%Z && (Coupon.maxUses c <=? Coupon.uses c)%Z);
      [reflexivity |].
    unfold writeAll, writeFile, ret. destruct (fs_writable w); reflexivity.
  - intros x Hx. apply not_true_is_false. rewrite names_eqb. now apply Hbefore.
  - now apply names_eqb.
Qed.

(** The coupon a successful increment stores: its [uses] is one more, and
    every other field is as it was. *)
Lemma with_uses_fields c :
  let c' := with_uses c (Coupon.uses c + 1) in
  Coupon.uses c' = (Coupon.uses c + 1)%Z /\
  Coupon.code c' = Coupon.code c /\
  Coupon.type c' = Coupon.type c /\
  Coupon.value c' = Coupon.value c /\
  Coupon.maxUses c' = Coupon.maxUses c /\
  Coupon.active c' = Coupon.active c.
Proof. destruct c. cbn. repeat split. Qed.

(** The ledger after the increment of a usable coupon, the first one the
    code names: the coupon in its place has one more use. *)
Lemma incrementCouponUse_usable code w l1 c l2 :
  coupons w = (l1 ++ c :: l2)%list ->
  (forall x, In x l1 -> ~ names code x) -> names code c ->
  ~ not_usable c -> fs_writable w = true ->
  exists c',
    incrementCouponUse code w = (Return true, set_coupons (l1 ++ c' :: l2) w) /\
    coupons (snd (incrementCouponUse code w)) = (l1 ++ c' :: l2)%list /\
    Coupon.uses c' = (Coupon.uses c + 1)%Z /\
    Coupon.code c' = Coupon.code c /\
    Coupon.type c' = Coupon.type c /\
    Coupon.value c' = Coupon.value c /\
    Coupon.maxUses c' = Coupon.maxUses c /\
    Coupon.active c' = Coupon.active c.
Proof.
  intros Hl Hbefore Hc Hn Hw.
  exists (with_uses c (Coupon.uses c + 1)).
  rewrite (incrementCouponUse_found code w l1 c l2 Hl Hbefore Hc).
  rewrite not_usable_bool in Hn. apply not_true_is_false in Hn.
  rewrite Hn, Hw. cbn [snd].
  refine (conj eq_refl (conj _ (with_uses_fields c))).
  destruct w. reflexivity.
Qed.

(** C3. [incrementCouponUse] validates again when it increments: when no
    coupon is named by the code, or the named coupon is inactive or used
    up, it returns [false] and the world is unchanged; otherwise it returns
    [true] and in the stored ledger the named coupon's [uses] is one more,
    its other fields, the coupons around it and the rest of the world
    being as they were (the write must succeed). *)
Theorem incrementCouponUse_revalidates code w :
  ((forall c, In c (coupons w) -> ~ names code c) ->
   incrementCouponUse code w = (Return false, w)) /\
  (forall l1 c l2,
     coupons w = (l1 ++ c :: l2)%list ->
     (forall x, In x l1 -> ~ names code x) -> names code c ->
     (not_usable c -> incrementCouponUse code w = (Return false, w)) /\
     (~ not_usable c -> fs_writable w = true ->
      exists c',
        fst (incrementCouponUse code w) = Return true /\
        coupons (snd (incrementCouponUse code w)) = (l1 ++ c' :: l2)%list /\
        Coupon.uses c' = (Coupon.uses c + 1)%Z /\
        Coupon.code c' = Coupon.code c /\
        Coupon.type c' = Coupon.type c /\
        Coupon.value c' = Coupon.value c /\
        Coupon.maxUses c' = Coupon.maxUses c /\
        Coupon.active c' = Coupon.active c /\
        pendingCoupons (snd (incrementCouponUse code w)) = pendingCoupons w /\
        orders (snd (incrementCouponUse code w)) = orders w /\
        fs_writable (snd (incrementCouponUse code w)) = fs_writable w /\
        paidNotices (snd (incrementCouponUse code w)) = paidNotices w)).
Proof.
  split.
  - intro H. unfold incrementCouponUse, bind, readAll.
    rewrite findIndex_none; [reflexivity |].
    intros x Hx. apply not_true_is_false. rewrite names_eqb. now apply H.
  - intros l1 c l2 Hl Hbefore Hc. split.
    + intro Hn.
      rewrite (incrementCouponUse_found code w l1 c l2 Hl Hbefore Hc).
      rewrite not_usable_bool in Hn. now rewrite Hn.
    + intros Hn Hw.
      destruct (incrementCouponUse_usable code w l1 c l2 Hl Hbefore Hc Hn Hw)
        as (c' & E & Hl' & Hu & Hcode & Hty & Hv & Hm & Ha).
      exists c'. rewrite E in *. cbn [fst snd].
      destruct w; cbn.
      repeat (split; [first [reflexivity | assumption] |]).
      reflexivity.
Qed.

Lemma findCoupon_world code w : snd (findCoupon code w) = w.
Proof.
  unfold findCoupon. destruct (truthy code); cbn [negb]; [| reflexivity].
  unfold bind, readAll.
  destruct (find _ (coupons w)) as [c |]; [| reflexivity].
  destruct (Coupon.active c); cbn [negb]; [| reflexivity].
  destruct (usage_exhausted c); reflexivity.
Qed.

(** A successful increment rewrites one coupon, found below its cap. *)
Lemma incrementCouponUse_effect code w :
  (exists idx c,
     coupons w !! idx = Some c /\
     Coupon.active c = true /\
     (0 < Coupon.maxUses c -> Coupon.uses c + 1 <= Coupon.maxUses c)%Z /\
     incrementCouponUse code w =
       if fs_writable w
       then (Return true,
             set_coupons (<[idx := with_uses c (Coupon.uses c + 1)]> (coupons w)) w)
       else (Throws "EACCES", w))
  \/ incrementCouponUse code w = (Return false, w).
Proof.
  unfold incrementCouponUse, bind, readAll.
  destruct (findIndex _ (coupons w)) as [idx |] eqn:Ef; [| now right].
  destruct (findIndex_Some _ _ _ Ef) as (c & Hc & _). rewrite Hc.
  destruct (Coupon.active c) eqn:Ea; cbn [negb]; [| now right].
  destruct ((0 <? Coupon.maxUses c)%Z && (Coupon.maxUses c <=? Coupon.uses c)%Z) eqn:Eu;
    [now right |].
  left. exists idx, c. repeat split; try assumption.
  - apply andb_false_iff in Eu. rewrite Z.ltb_ge, Z.leb_gt in Eu. lia.
  - unfold writeAll, writeFile, ret. destruct (fs_writable w); reflexivity.
Qed.

Lemma run_op_ledger_inv op w :
  ledger_inv (coupons w) -> ledger_inv (coupons (run_op op w)).
Proof.
  intro H. destruct op as [a | code | code | code |]; cbn [run_op].
  - destruct (addCoupon_cases a w) as [(_ & msg & _ & ->) | (NR & v & _ & ->)];
      [exact H |].
    destruct (fs_writable w); [| exact H].
    cbn. apply Forall_app. split; [exact H |].
    constructor; [| constructor].
    unfold within_cap, added_coupon. cbn. lia.
  - unfold deleteCoupon, bind, readAll, writeAll, writeFile.
    destruct (fs_writable w); [| exact H].
    cbn. unfold ledger_inv in *. rewrite List.Forall_forall in *.
    intros x Hx. apply filter_In in Hx. now apply H.
  - destruct (incrementCouponUse_effect code w)
      as [(idx & c & Hc & _ & Hcap & ->) | ->]; [| exact H].
    destruct (fs_writable w); [| exact H].
    cbn. apply Forall_insert; [exact H |].
    unfold within_cap, with_uses. cbn. exact Hcap.
  - now rewrite findCoupon_world.
  - exact H.
Qed.

Lemma run_ops_ledger_inv ops w :
  ledger_inv (coupons w) -> ledger_inv (coupons (run_ops ops w)).
Proof.
  revert w. induction ops as [| op ops IH]; intros w H; [exact H |].
  cbn. apply IH, run_op_ledger_inv, H.
Qed.

(** C2. A capped coupon is never used beyond its cap: the cap holds of the
    empty ledger and is kept by every sequence of ledger operations; a
    coupon just added has [uses = 0]; and an increment that succeeds has
    found the coupon active and, if capped, strictly below its cap. *)
Theorem ledger_uses_within_cap :
  (forall ops w,
     ledger_inv (coupons w) -> ledger_inv (coupons (run_ops ops w))) /\
  (forall ops w,
     coupons w = [] -> ledger_inv (coupons (run_ops ops w))) /\
  (forall a w c w',
     addCoupon a w = (Return c, w') ->
     Coupon.uses c = 0%Z /\ In c (coupons w')) /\
  (forall code w w',
     incrementCouponUse code w = (Return true, w') ->
     exists idx c,
       coupons w !! idx = Some c /\
       coupons w' = <[idx := with_uses c (Coupon.uses c + 1)]> (coupons w) /\
       (0 < Coupon.maxUses c -> Coupon.uses c + 1 <= Coupon.maxUses c)%Z).
Proof.
  refine (conj run_ops_ledger_inv (conj _ (conj _ _))).
  - intros ops w Hw. apply run_ops_ledger_inv. rewrite Hw. constructor.
  - intros a w c w' E.
    destruct (addCoupon_cases a w) as [(_ & msg & _ & E') | (_ & v & _ & E')];
      rewrite E' in E; [discriminate |].
    destruct (fs_writable w); [| discriminate].
    injection E as <- <-. split; [reflexivity |].
    cbn. apply in_or_app. right. now left.
  - intros code w w' E.
    destruct (incrementCouponUse_effect code w)
      as [(idx & c & Hc & _ & Hcap & E') | E']; rewrite E' in E; [| discriminate].
    destruct (fs_writable w); [| discriminate].
    injection E as <-. exists idx, c. auto.
Qed.

(** ** The order store and the confirmation of a payment *)

Lemma set_coupons_same w : set_coupons (coupons w) w = w.
Proof. now destruct w. Qed.

Lemma markPaid_unknown oid p w :
  orders w !! oid = None -> markPaid oid p w = (Return None, w).
Proof. intro H. unfold markPaid, bind, readOrders. now rewrite H. Qed.

Lemma markPaid_paid oid p w o :
  orders w !! oid = Some o -> Order.status o = "paid" ->
  markPaid oid p w = (Return (Some o), w).
Proof.
  intros H Hp. unfold markPaid, bind, readOrders. rewrite H, Hp. reflexivity.
Qed.

Lemma markPaid_pending oid p w o :
  orders w !! oid = Some o -> Order.status o <> "paid" ->
  markPaid oid p w =
    if fs_writable w
    then (Return (Some (paid_order o p)),
          set_orders (<[oid := paid_order o p]> (orders w)) w)
    else (Throws "EACCES", w).
Proof.
  intros H Hp. unfold markPaid, bind, readOrders. rewrite H.
  apply String.eqb_neq in Hp. rewrite Hp.
  unfold writeOrders, writeFile, ret. destruct (fs_writable w); reflexivity.
Qed.

(** With a writable file system [incrementCouponUse] returns, and touches
    the ledger only. *)
Lemma incrementCouponUse_writable code w :
  fs_writable w = true ->
  exists b, incrementCouponUse code w =
              (Return b, set_coupons (coupons (snd (incrementCouponUse code w))) w).
Proof.
  intro Hw.
  destruct (incrementCouponUse_effect code w)
    as [(idx & c & _ & _ & _ & E) | E]; rewrite E.
  - rewrite Hw. exists true. reflexivity.
  - exists false. cbn. now rewrite set_coupons_same.
Qed.

(** The ledger it leaves depends on the ledger and on the file system
    only. *)
Lemma incrementCouponUse_ledger code w w' :
  coupons w = coupons w' -> fs_writable w = fs_writable w' ->
  coupons (snd (incrementCouponUse code w)) = coupons (snd (incrementCouponUse code w')).
Proof.
  intros Hc Hw. unfold incrementCouponUse, bind, readAll. rewrite <- Hc.
  destruct (findIndex _ (coupons w)) as [idx |]; [| exact Hc].
  destruct (coupons w !! idx) as [c |]; [| exact Hc].
  destruct (negb (Coupon.active c)); [exact Hc |].
  destruct ((0 <? Coupon.maxUses c)%Z && (Coupon.maxUses c <=? Coupon.uses c)%Z);
    [exact Hc |].
  unfold writeAll, writeFile, ret. rewrite <- Hw.
  destruct (fs_writable w); [reflexivity | exact Hc].
Qed.

Lemma record_and_notify_settled o w :
  settled o ->
  record_and_notify o w = (Return tt, add_paidNotice (Order.id o) w).
Proof.
  intros [H | H]; unfold record_and_notify, bind.
  - rewrite H. reflexivity.
  - rewrite H. destruct (order_coupon_code o); reflexivity.
Qed.

Lemma record_and_notify_fresh o code w :
  fs_writable w = true ->
  order_coupon_code o = Some code ->
  Pricing.couponUsedMarked (Order.pricing o) = false ->
  record_and_notify o w =
    (Return tt,
     add_paidNotice (Order.id o)
       (set_orders (<[Order.id o := mark_couponUsed o]> (orders w))
          (set_coupons (coupons (snd (incrementCouponUse code w))) w))).
Proof.
  intros Hw Hc Hm. unfold record_and_notify, bind at 1. rewrite Hc, Hm.
  cbn [negb]. unfold bind.
  destruct (incrementCouponUse_writable code w Hw) as [b ->].
  unfold upsertOrder, bind, readOrders, writeOrders, writeFile.
  cbn. rewrite Hw. reflexivity.
Qed.

Lemma confirmation_unknown oid p w :
  orders w !! oid = None -> confirmation oid p w = (Return tt, w).
Proof.
  intro H. unfold confirmation, bind. now rewrite (markPaid_unknown oid p w H).
Qed.

Lemma confirmation_settled oid p w o :
  orders w !! oid = Some o -> Order.status o = "paid" -> settled o ->
  confirmation oid p w = (Return tt, add_paidNotice (Order.id o) w).
Proof.
  intros H Hp Hs. unfold confirmation, bind.
  rewrite (markPaid_paid oid p w o H Hp).
  now apply record_and_notify_settled.
Qed.

Lemma confirmed_order_settled o p :
  Order.status (confirmed_order o p) = "paid" /\
  settled (confirmed_order o p) /\
  Order.id (confirmed_order o p) = Order.id o.
Proof.
  unfold confirmed_order, settled.
  destruct (order_coupon_code o) as [code |] eqn:Ec.
  - destruct (Pricing.couponUsedMarked (Order.pricing o)) eqn:Em; cbn; auto.
  - cbn. auto.
Qed.

Lemma insert_consistent (m : gmap string Order.t) k o :
  store_consistent m -> Order.id o = k -> store_consistent (<[k := o]> m).
Proof.
  intros Hm Ho j o' H. destruct (decide (k = j)) as [<- | Hne].
  - rewrite lookup_insert_eq in H. congruence.
  - rewrite lookup_insert_ne in H by assumption. now apply Hm.
Qed.

Lemma incrementCouponUse_orders code w :
  orders (snd (incrementCouponUse code w)) = orders w.
Proof.
  destruct (incrementCouponUse_effect code w)
    as [(idx & c & _ & _ & _ & ->) | ->]; [| reflexivity].
  destruct (fs_writable w); reflexivity.
Qed.

Lemma upsertOrder_consistent o w :
  store_consistent (orders w) -> store_consistent (orders (snd (upsertOrder o w))).
Proof.
  intro H. unfold upsertOrder, bind, readOrders, writeOrders, writeFile.
  destruct (fs_writable w); [| exact H].
  cbn. now apply insert_consistent.
Qed.

Lemma markPaid_consistent oid p w :
  store_consistent (orders w) ->
  store_consistent (orders (snd (markPaid oid p w))) /\
  forall o, fst (markPaid oid p w) = Return (Some o) -> Order.id o = oid.
Proof.
  intro H. unfold markPaid, bind, readOrders.
  destruct (orders w !! oid) as [o |] eqn:Ho; [| split; [exact H | discriminate]].
  pose proof (H oid o Ho) as Hid.
  destruct (String.eqb (Order.status o) "paid").
  - split; [exact H |]. now intros o' [= <-].
  - unfold writeOrders, writeFile, ret.
    destruct (fs_writable w); cbn; [| split; [exact H | discriminate]].
    split; [now apply insert_consistent |]. now intros o' [= <-].
Qed.

Lemma record_and_notify_consistent o w :
  store_consistent (orders w) ->
  store_consistent (orders (snd (record_and_notify o w))).
Proof.
  intro H. unfold record_and_notify, bind at 1.
  destruct (order_coupon_code o) as [code |]; [| exact H].
  destruct (Pricing.couponUsedMarked (Order.pricing o)); cbn [negb]; [exact H |].
  unfold bind at 1.
  pose proof (incrementCouponUse_orders code w) as Hinc.
  destruct (incrementCouponUse code w) as [[b | e] w1]; cbn in Hinc;
    [| cbn; now rewrite Hinc].
  unfold bind.
  assert (store_consistent (orders w1)) as H1 by now rewrite Hinc.
  pose proof (upsertOrder_consistent (mark_couponUsed o) w1 H1) as Hup.
  destruct (upsertOrder (mark_couponUsed o) w1) as [[[] | e] w2]; exact Hup.
Qed.

(** The store stays consistent through a confirmation, whatever its
    outcome. *)
Lemma confirmation_consistent oid p w :
  store_consistent (orders w) ->
  store_consistent (orders (snd (confirmation oid p w))).
Proof.
  intro H. unfold confirmation, bind.
  destruct (markPaid_consistent oid p w H) as [Hm _].
  destruct (markPaid oid p w) as [[[o |] | e] w1]; cbn in Hm; try exact Hm.
  now apply record_and_notify_consistent.
Qed.

(** The first confirmation of a pending order. *)
Lemma confirmation_pending oid p w o :
  fs_writable w = true -> store_consistent (orders w) ->
  orders w !! oid = Some o -> Order.status o <> "paid" ->
  confirmation oid p w =
    (Return tt,
     mkWorld (ledger_after_confirmation o w) (pendingCoupons w)
             (<[oid := confirmed_order o p]> (orders w)) true
             (paidNotices w ++ [oid])).
Proof.
  intros Hw Hcons H Hp. unfold confirmation, bind.
  rewrite (markPaid_pending oid p w o H Hp), Hw.
  pose proof (Hcons oid o H) as Hid.
  unfold confirmed_order, ledger_after_confirmation.
  change (order_coupon_code (paid_order o p)) with (order_coupon_code o).
  destruct (order_coupon_code o) as [code |] eqn:Ec.
  - destruct (Pricing.couponUsedMarked (Order.pricing o)) eqn:Em.
    + rewrite record_and_notify_settled by (right; exact Em).
      unfold add_paidNotice, set_orders. cbn. now rewrite Hw, Hid.
    + rewrite (record_and_notify_fresh _ code) by (assumption || reflexivity).
      rewrite (incrementCouponUse_ledger code
                 (set_orders (<[oid:=paid_order o p]> (orders w)) w) w eq_refl eq_refl).
      unfold add_paidNotice, set_orders, set_coupons. cbn -[incrementCouponUse].
      rewrite Hw, Hid, insert_insert_eq. reflexivity.
  - rewrite record_and_notify_settled by (left; exact Ec).
    unfold add_paidNotice, set_orders. cbn. now rewrite Hw, Hid.
Qed.

(** ** The webhook handlers *)

Section BotProperties.

Variable JSON_stringify : Payload -> string.
Variable base64 : string -> string.
Variable md5_hex : string -> string.
Variable getStripe : Env -> outcome unit.
Variable constructEvent : string -> option string -> string -> outcome StripeEvent.
Variable JSON_parse : string -> outcome StripeEvent.
Variable products : list Product.t.
Variable channel_send : Posting -> outcome unit.

Abbreviation selecting := (choose_prod products channel_send).
Abbreviation trusted := (isCryptomusWebhookTrusted JSON_stringify base64 md5_hex).
Abbreviation cryptomus := (cryptomus_webhook JSON_stringify base64 md5_hex).
Abbreviation stripe := (stripe_webhook getStripe constructEvent JSON_parse).
Abbreviation delivered := (deliver JSON_stringify base64 md5_hex getStripe constructEvent JSON_parse).
Abbreviation confirming := (confirms JSON_stringify base64 md5_hex getStripe constructEvent JSON_parse).
Abbreviation event_of := (stripe_event getStripe constructEvent JSON_parse).

Lemma has_In set x : has set x = true <-> In x set.
Proof.
  unfold has. rewrite existsb_exists. split.
  - intros (y & Hy & E). apply String.eqb_eq in E. now subst.
  - intro H. exists x. split; [assumption | apply String.eqb_refl].
Qed.

(** The Cryptomus handler, past the authenticity gate, by the shape of the
    payload. *)
Lemma cryptomus_trusted req env w :
  trusted req env = true ->
  cryptomus req env w =
    match payload_order req with
    | None => (Return (mkResponse 200 "no order"), w)
    | Some oid =>
        if has paidStatuses (payload_status req)
        then (Return ok,
              snd (confirmation oid (cryptomus_patch (default empty_payload req)) w))
        else (Return (mkResponse 200 "not paid"), w)
    end.
Proof.
  intro Ht. unfold cryptomus_webhook, try_catch. rewrite Ht. cbn [negb].
  unfold payload_order, payload_status.
  destruct (or_null (order_id (default empty_payload req))) as [oid |];
    [| reflexivity].
  destruct (has paidStatuses _); cbn [negb]; [| reflexivity].
  unfold confirmation, cryptomus_patch, bind.
  destruct (markPaid oid _ w) as [[[o |] | e] w1]; cbn; try reflexivity.
  destruct (record_and_notify o w1) as [[[] | e] w2]; reflexivity.
Qed.

Lemma stripe_after_event event w :
  match
    match stripe_on_event event w with
    | (Return _, w') => ret ok w'
    | (Throws e, w') => (Throws e, w')
    end
  with
  | (Return a, w') => (Return a, w')
  | (Throws _, w') => ret ok w'
  end =
  if String.eqb (ev_type event) "checkout.session.completed" then
    match ev_data event with
    | None => (Return ok, w)
    | Some session =>
        match or_null (session ≫= metadata_orderId) with
        | Some oid => (Return ok, snd (confirmation oid (stripe_patch session) w))
        | None => (Return ok, w)
        end
    end
  else (Return ok, w).
Proof.
  unfold stripe_on_event.
  destruct (String.eqb (ev_type event) "checkout.session.completed");
    [| reflexivity].
  destruct (ev_data event) as [session |]; [| reflexivity].
  destruct (or_null (session ≫= metadata_orderId)) as [oid |]; [| reflexivity].
  unfold confirmation, stripe_patch, stripe_paidAmount, bind.
  destruct (markPaid oid _ w) as [[[o |] | e] w1]; cbn; try reflexivity.
  destruct (record_and_notify o w1) as [[[] | e] w2]; reflexivity.
Qed.

(** The Stripe handler, by the event the request carries. *)
Lemma stripe_by_event req env w :
  stripe req env w =
    match event_of req env with
    | Throws _ => (Return ok, w)
    | Return event =>
        if String.eqb (ev_type event) "checkout.session.completed" then
          match ev_data event with
          | None => (Return ok, w)
          | Some session =>
              match or_null (session ≫= metadata_orderId) with
              | Some oid => (Return ok, snd (confirmation oid (stripe_patch session) w))
              | None => (Return ok, w)
              end
          end
        else (Return ok, w)
    end.
Proof.
  unfold stripe_webhook, stripe_event, try_catch, bind, lift.
  destruct (getStripe env) as [[] | e]; [| reflexivity].
  destruct (or_null (STRIPE_WEBHOOK_SECRET env)) as [whSecret |].
  - destruct (constructEvent _ _ _) as [event | e]; [| reflexivity].
    apply stripe_after_event.
  - destruct (JSON_parse _) as [event | e]; [| reflexivity].
    apply stripe_after_event.
Qed.

(** A delivery that confirms a payment is answered [ok] and leaves the
    world of the confirmation. *)
Lemma deliver_confirms d env oid p w :
  confirming d env oid p ->
  delivered d env w = (Return ok, snd (confirmation oid p w)).
Proof.
  destruct d as [req | req]; cbn [confirms deliver].
  - intros (Ht & Ho & Hs & ->).
    rewrite (cryptomus_trusted req env w Ht), Ho.
    apply has_In in Hs. now rewrite Hs.
  - intros (event & session & He & Hty & Hd & Ho & ->).
    rewrite stripe_by_event, He, Hty, Hd, Ho. reflexivity.
Qed.

(** C9. Without a Cryptomus API key (unset or empty) the authenticity check
    accepts every request, signed or not, and the handler goes on to process
    the payload: it answers by the order id and the status of the payload
    and, for a paid status, runs the confirmation. *)
Theorem cryptomus_trusts_all_without_key req env :
  CRYPTOMUS_API_KEY env = None \/ CRYPTOMUS_API_KEY env = Some "" ->
  trusted req env = true /\
  (forall w,
     cryptomus req env w =
       match payload_order req with
       | None => (Return (mkResponse 200 "no order"), w)
       | Some oid =>
           if has paidStatuses (payload_status req)
           then (Return ok,
                 snd (confirmation oid (cryptomus_patch (default empty_payload req)) w))
           else (Return (mkResponse 200 "not paid"), w)
       end) /\
  (forall w, exists resp w',
     cryptomus req env w = (Return resp, w') /\ status_code resp <> 401%nat).
Proof.
  intro Hkey.
  assert (trusted req env = true) as Ht.
  { unfold isCryptomusWebhookTrusted. destruct Hkey as [-> | ->]; reflexivity. }
  split; [exact Ht |]. split.
  - intro w. now apply cryptomus_trusted.
  - intro w. rewrite (cryptomus_trusted req env w Ht).
    destruct (payload_order req) as [oid |]; [| eexists _, _; split; [reflexivity | cbn; lia]].
    destruct (has paidStatuses (payload_status req));
      eexists _, _; (split; [reflexivity | cbn; lia]).
Qed.

(** C8. A webhook that passes the authenticity check is always answered
    with status 200, whatever happens while it is processed. Cryptomus: a
    payload without order id is answered ["no order"], one whose status is
    not a paid one ["not paid"], one for an unknown order ["ok"], each
    without any change; when the confirmation throws, the answer is still
    ["ok"]. Stripe: every request is answered ["ok"]; an event of another
    type, without order id or for an unknown order changes nothing, and a
    request whose event cannot be had (the client, the signature or the
    JSON throws) changes nothing either. *)
Theorem webhooks_always_acknowledge :
  (forall req env w,
     trusted req env = true ->
     exists resp w', cryptomus req env w = (Return resp, w') /\ status_code resp = 200%nat) /\
  (forall req env w,
     trusted req env = true -> payload_order req = None ->
     cryptomus req env w = (Return (mkResponse 200 "no order"), w)) /\
  (forall req env w oid,
     trusted req env = true -> payload_order req = Some oid ->
     ~ In (payload_status req) paidStatuses ->
     cryptomus req env w = (Return (mkResponse 200 "not paid"), w)) /\
  (forall req env w oid,
     trusted req env = true -> payload_order req = Some oid ->
     In (payload_status req) paidStatuses -> orders w !! oid = None ->
     cryptomus req env w = (Return ok, w)) /\
  (forall req env w oid msg w',
     trusted req env = true -> payload_order req = Some oid ->
     In (payload_status req) paidStatuses ->
     confirmation oid (cryptomus_patch (default empty_payload req)) w = (Throws msg, w') ->
     cryptomus req env w = (Return ok, w')) /\
  (forall req env w, exists w', stripe req env w = (Return ok, w')) /\
  (forall req env w e,
     event_of req env = Throws e -> stripe req env w = (Return ok, w)) /\
  (forall req env w event,
     event_of req env = Return event ->
     ev_type event <> "checkout.session.completed" \/
     (exists session, ev_data event = Some session /\
        (or_null (session ≫= metadata_orderId) = None \/
         exists oid, or_null (session ≫= metadata_orderId) = Some oid /\
                     orders w !! oid = None)) ->
     stripe req env w = (Return ok, w)).
Proof.
  refine (conj _ (conj _ (conj _ (conj _ (conj _ (conj _ (conj _ _))))))).
  - intros req env w Ht. rewrite (cryptomus_trusted req env w Ht).
    destruct (payload_order req) as [oid |]; [| eexists _, _; split; reflexivity].
    destruct (has paidStatuses (payload_status req));
      eexists _, _; split; reflexivity.
  - intros req env w Ht Ho. now rewrite (cryptomus_trusted req env w Ht), Ho.
  - intros req env w oid Ht Ho Hs.
    rewrite (cryptomus_trusted req env w Ht), Ho.
    rewrite <- has_In in Hs. apply not_true_is_false in Hs. now rewrite Hs.
  - intros req env w oid Ht Ho Hs Hu.
    rewrite (cryptomus_trusted req env w Ht), Ho.
    apply has_In in Hs. rewrite Hs. now rewrite confirmation_unknown.
  - intros req env w oid msg w' Ht Ho Hs Hc.
    rewrite (cryptomus_trusted req env w Ht), Ho.
    apply has_In in Hs. rewrite Hs, Hc. reflexivity.
  - intros req env w. rewrite stripe_by_event.
    destruct (event_of req env) as [event | e]; [| now eexists].
    destruct (String.eqb (ev_type event) "checkout.session.completed");
      [| now eexists].
    destruct (ev_data event) as [session |]; [| now eexists].
    destruct (or_null (session ≫= metadata_orderId)); now eexists.
  - intros req env w e He. now rewrite stripe_by_event, He.
  - intros req env w event He H. rewrite stripe_by_event, He.
    destruct H as [Hty | (session & Hd & H)].
    + apply String.eqb_neq in Hty. now rewrite Hty.
    + destruct (String.eqb (ev_type event) "checkout.session.completed");
        [| reflexivity].
      rewrite Hd. destruct H as [-> | (oid & -> & Hu)]; [reflexivity |].
      now rewrite confirmation_unknown.
Qed.

(** C10. The Cryptomus handler confirms the payment for each of the
    statuses ["paid"], ["paid_over"] and ["paid_partial"] (read without
    regard to case): for a pending order the order is marked paid with the
    payment details of the payload, the use of its coupon is recorded in
    the ledger (the usable coupon its code names has one more use there,
    all else in the ledger as it was) and in the order, and the paid notification goes out; so a
    partial payment confirms the order in full. This is with [markPaid]
    as the specification describes it. Any other status is answered
    ["not paid"] and changes nothing. *)
Theorem cryptomus_paid_statuses req env oid :
  trusted req env = true -> payload_order req = Some oid ->
  let p := cryptomus_patch (default empty_payload req) in
  (In (payload_status req) ["paid"; "paid_over"; "paid_partial"] ->
   (forall w,
      cryptomus req env w = (Return ok, snd (confirmation oid p w))) /\
   (forall w o,
      fs_writable w = true -> store_consistent (orders w) ->
      orders w !! oid = Some o -> Order.status o <> "paid" ->
      let w' := snd (cryptomus req env w) in
      orders w' = <[oid := confirmed_order o p]> (orders w) /\
      Order.status (confirmed_order o p) = "paid" /\
      Order.payment (confirmed_order o p) =
        Payment.mk (Some "crypto") (Some "cryptomus")
                   (Payment.url (Order.payment o))
                   (patch_transactionId p) (patch_paidAmount p) /\
      (forall code,
         order_coupon_code o = Some code ->
         Pricing.couponUsedMarked (Order.pricing o) = false ->
         coupons w' = coupons (snd (incrementCouponUse code w)) /\
         Pricing.couponUsedMarked (Order.pricing (confirmed_order o p)) = true /\
         (forall l1 c l2,
            coupons w = (l1 ++ c :: l2)%list ->
            (forall x, In x l1 -> ~ names code x) -> names code c ->
            ~ not_usable c ->
            exists c',
              coupons w' = (l1 ++ c' :: l2)%list /\
              Coupon.uses c' = (Coupon.uses c + 1)%Z /\
              Coupon.code c' = Coupon.code c /\
              Coupon.type c' = Coupon.type c /\
              Coupon.value c' = Coupon.value c /\
              Coupon.maxUses c' = Coupon.maxUses c /\
              Coupon.active c' = Coupon.active c)) /\
      paidNotices w' = (paidNotices w ++ [oid])%list)) /\
  (~ In (payload_status req) ["paid"; "paid_over"; "paid_partial"] ->
   forall w, cryptomus req env w = (Return (mkResponse 200 "not paid"), w)).
Proof.
  intros Ht Ho p. split.
  - intro Hs.
    assert (forall w, cryptomus req env w = (Return ok, snd (confirmation oid p w))) as E.
    { intro w. rewrite (cryptomus_trusted req env w Ht), Ho.
      change (In (payload_status req) paidStatuses) in Hs.
      apply has_In in Hs. now rewrite Hs. }
    split; [exact E |].
    intros w o Hw Hcons Hl Hp w'. subst w'. rewrite E.
    rewrite (confirmation_pending oid p w o Hw Hcons Hl Hp). cbn [snd orders coupons paidNotices].
    refine (conj eq_refl (conj _ (conj _ (conj _ eq_refl)))).
    + apply confirmed_order_settled.
    + unfold confirmed_order.
      destruct (order_coupon_code o);
        [destruct (Pricing.couponUsedMarked (Order.pricing o)) |]; reflexivity.
    + intros code Hc Hm.
      assert (ledger_after_confirmation o w = coupons (snd (incrementCouponUse code w)))
        as El by (unfold ledger_after_confirmation; now rewrite Hc, Hm).
      refine (conj El (conj _ _)).
      * unfold confirmed_order. now rewrite Hc, Hm.
      * intros l1 c l2 Hc1 Hbefore Hn Hu.
        destruct (incrementCouponUse_usable code w l1 c l2 Hc1 Hbefore Hn Hu Hw)
          as (c' & _ & Hc2 & Hf).
        exists c'. rewrite El. exact (conj Hc2 Hf).
  - intros Hs w. rewrite (cryptomus_trusted req env w Ht), Ho.
    change (~ In (payload_status req) paidStatuses) in Hs.
    rewrite <- has_In in Hs. apply not_true_is_false in Hs. now rewrite Hs.
Qed.

(** C1, as the code has it. After a first confirmation of a pending order,
    a second webhook for the same order, from either provider and with the
    same or other payment details, is answered [ok] and leaves the coupon
    ledger, the pending coupons and the order store exactly as the first
    left them. The paid notification goes out on the first confirmation;
    the handlers notify whenever [markPaid] hands back an order, and
    [markPaid], as the specification describes it, hands back the order
    that is already paid, so the notification goes out on the duplicate as
    well. *)
Theorem duplicate_confirmation d1 d2 env oid p1 p2 w o :
  fs_writable w = true -> store_consistent (orders w) ->
  orders w !! oid = Some o -> Order.status o <> "paid" ->
  confirming d1 env oid p1 -> confirming d2 env oid p2 ->
  let w1 := snd (delivered d1 env w) in
  let w2 := snd (delivered d2 env w1) in
  fst (delivered d1 env w) = Return ok /\
  fst (delivered d2 env w1) = Return ok /\
  orders w1 !! oid = Some (confirmed_order o p1) /\
  Order.status (confirmed_order o p1) = "paid" /\
  stores w2 = stores w1 /\
  paidNotices w1 = (paidNotices w ++ [oid])%list /\
  paidNotices w2 = (paidNotices w1 ++ [oid])%list.
Proof.
  intros Hw Hcons Hl Hp H1 H2 w1 w2. subst w2 w1.
  rewrite (deliver_confirms d1 env oid p1 w H1).
  rewrite (confirmation_pending oid p1 w o Hw Hcons Hl Hp). cbn [fst snd].
  set (w1 := mkWorld _ _ _ _ _).
  rewrite (deliver_confirms d2 env oid p2 w1 H2).
  destruct (confirmed_order_settled o p1) as (Hpaid & Hset & Hid).
  assert (orders w1 !! oid = Some (confirmed_order o p1)) as Hl1
    by (subst w1; cbn; apply lookup_insert_eq).
  rewrite (confirmation_settled oid p2 w1 _ Hl1 Hpaid Hset).
  rewrite Hid, (Hcons oid o Hl). cbn [fst snd].
  repeat apply conj; try reflexivity; assumption.
Qed.

(** ** Product selection and the pending coupon *)

Lemma findCoupon_resolve code w :
  findCoupon code w = (Return (resolve code (coupons w)), w).
Proof.
  unfold findCoupon, resolve. destruct (truthy code); cbn [negb]; [| reflexivity].
  unfold bind, readAll.
  destruct (find _ (coupons w)) as [c |]; [| reflexivity].
  destruct (Coupon.active c); cbn [negb andb]; [| reflexivity].
  destruct (usage_exhausted c); reflexivity.
Qed.

Lemma resolve_same_code code ledger c :
  resolve code ledger = Some c ->
  truthy code = true /\ same_code (Coupon.code c) code /\ In c ledger.
Proof.
  unfold resolve. destruct (truthy code); [| discriminate].
  destruct (find _ ledger) as [c' |] eqn:Ef; [| discriminate].
  destruct (Coupon.active c' && negb (usage_exhausted c')); [| discriminate].
  intros [= <-]. apply find_some in Ef as [Hin E].
  apply String.eqb_eq in E. auto.
Qed.

Lemma toLowerCase_truthy s : truthy (toLowerCase s) = truthy s.
Proof. now destruct s. Qed.

(** Resolving the code of a resolved coupon resolves to that coupon. *)
Lemma resolve_own_code code ledger c :
  resolve code ledger = Some c -> resolve (Coupon.code c) ledger = Some c.
Proof.
  intro H. destruct (resolve_same_code code ledger c H) as (Ht & Hs & _).
  unfold resolve in *. rewrite Ht in H.
  rewrite <- toLowerCase_truthy, Hs, toLowerCase_truthy, Ht.
  exact H.
Qed.

(** The effect of selecting a product. The line about the applied coupon
    is posted after the pending coupon is cleared and before the order is
    stored; the payment methods are posted after the order is stored. *)
Lemma choose_prod_effect i oid w prod :
  fs_writable w = true -> selected_product products i = Some prod ->
  selecting i oid w =
    let stored o w' :=
      (Return (selection_reply channel_send o),
       set_orders (<[oid := o]> (orders w')) w') in
    match pendingCoupons w !! i_channelId i with
    | Some pend =>
        if truthy (Pending.code pend) then
          let w' := set_pendingCoupons (delete (i_channelId i) (pendingCoupons w)) w in
          match resolve (Pending.code pend) (coupons w) with
          | Some c =>
              match channel_send (coupon_posting prod c) with
              | Return _ => stored (order_for oid i prod (Some c)) w'
              | Throws e => (Return (ErrorReply e), w')
              end
          | None => stored (order_for oid i prod None) w'
          end
        else stored (order_for oid i prod None) w
    | None => stored (order_for oid i prod None) w
    end.
Proof.
  intros Hw Hsel. unfold selected_product in Hsel. unfold choose_prod.
  destruct (String.prefix "choose_prod:" (customId i)); [| discriminate].
  cbn [negb]. unfold try_catch, bind at 1. rewrite Hsel.
  unfold getPendingCoupon, bind, readAll_pending, ret. cbv zeta.
  assert (Hstore : forall o w', fs_writable w' = true ->
            (let (o0, w0) :=
               (let (o1, w1) := upsertOrder o w' in
                match o1 with
                | Return _ =>
                    (let (o2, w2) := lift (channel_send (PaymentMethods o)) w1 in
                     match o2 with
                     | Return _ => (Return ChoosePaymentMethod, w2)
                     | Throws e => (Throws e, w2)
                     end)
                | Throws e => (Throws e, w1)
                end) in
             match o0 with
             | Return a => (Return a, w0)
             | Throws e => (Return (ErrorReply e), w0)
             end)
            = (Return (selection_reply channel_send o),
               set_orders (<[Order.id o := o]> (orders w')) w')).
  { intros o w' Hw'. unfold upsertOrder, bind, readOrders, writeOrders, writeFile, lift,
      selection_reply.
    rewrite Hw'. destruct (channel_send (PaymentMethods o)); reflexivity. }
  assert (Hid : forall c, Order.id (order_for oid i prod c) = oid)
    by (intros [c |]; reflexivity).
  destruct (pendingCoupons w !! i_channelId i) as [pend |] eqn:Ep.
  - destruct (truthy (Pending.code pend)).
    + rewrite findCoupon_resolve.
      unfold clearPendingCoupon, bind, readAll_pending.
      destruct (resolve (Pending.code pend) (coupons w)) as [c |];
        cbn beta; rewrite Ep;
        unfold writeAll_pending, writeFile; rewrite Hw.
      * unfold lift, coupon_posting.
        destruct (channel_send _) as [[] | e]; [| reflexivity].
        rewrite <- (Hid (Some c)) at 2. apply (Hstore (order_for oid i prod (Some c))).
        exact Hw.
      * rewrite <- (Hid None) at 2. apply (Hstore (order_for oid i prod None)). exact Hw.
    + rewrite <- (Hid None) at 2. apply (Hstore (order_for oid i prod None)). exact Hw.
  - rewrite <- (Hid None) at 2. apply (Hstore (order_for oid i prod None)). exact Hw.
Qed.

(** The state a selection leaves when the line about the coupon, if one
    is due, is posted. *)
Lemma choose_prod_posted i oid w prod :
  fs_writable w = true -> selected_product products i = Some prod ->
  coupon_posted channel_send i prod w ->
  snd (selecting i oid w) =
    match pendingCoupons w !! i_channelId i with
    | Some pend =>
        if truthy (Pending.code pend) then
          set_orders
            (<[oid := order_for oid i prod (resolve (Pending.code pend) (coupons w))]>
               (orders w))
            (set_pendingCoupons (delete (i_channelId i) (pendingCoupons w)) w)
        else set_orders (<[oid := order_for oid i prod None]> (orders w)) w
    | None => set_orders (<[oid := order_for oid i prod None]> (orders w)) w
    end.
Proof.
  intros Hw Hsel Hpost. rewrite (choose_prod_effect i oid w prod Hw Hsel). cbv zeta.
  unfold coupon_posted, applied_coupon in Hpost.
  destruct (pendingCoupons w !! i_channelId i) as [pend |]; [| reflexivity].
  destruct (truthy (Pending.code pend)); [| reflexivity].
  destruct (resolve (Pending.code pend) (coupons w)) as [c |]; [| reflexivity].
  now rewrite (Hpost c eq_refl).
Qed.

(** The new order is stored under its own id. *)
Lemma choose_prod_consistent i oid w prod :
  fs_writable w = true -> selected_product products i = Some prod ->
  store_consistent (orders w) ->
  store_consistent (orders (snd (selecting i oid w))).
Proof.
  intros Hw Hsel H. rewrite (choose_prod_effect i oid w prod Hw Hsel). cbv zeta.
  assert (Hid : forall c, Order.id (order_for oid i prod c) = oid)
    by (intros [c |]; reflexivity).
  destruct (pendingCoupons w !! i_channelId i) as [pend |];
    [destruct (truthy (Pending.code pend));
     [destruct (resolve (Pending.code pend) (coupons w)) as [c |];
      [destruct (channel_send (coupon_posting prod c)) |] |] |];
    cbn [snd]; unfold set_orders, set_pendingCoupons; cbn [orders];
    try (apply insert_consistent; [assumption | apply Hid]); assumption.
Qed.

(** What the submission of a code leaves behind when it is accepted. *)
Lemma coupon_modal_submit_saved ch input w X w0 :
  fs_writable w = true ->
  coupon_modal_submit ch input w = (Return (CouponSaved X), w0) ->
  exists c,
    resolve (trim input) (coupons w) = Some c /\ Coupon.code c = X /\
    w0 = set_pendingCoupons
           (<[ch := Pending.mk (Coupon.code c) (Coupon.type c) (Coupon.value c)
                               (Coupon.maxUses c)]> (pendingCoupons w)) w.
Proof.
  intros Hw. unfold coupon_modal_submit, bind. rewrite findCoupon_resolve.
  destruct (resolve (trim input) (coupons w)) as [c |]; [| discriminate].
  unfold setPendingCoupon, bind, readAll_pending, writeAll_pending, writeFile.
  rewrite Hw. cbn. intros [= <- <-]. exists c. auto.
Qed.

Lemma attached_code_order_for oid i prod r :
  attached_code (order_for oid i prod r) = Coupon.code <$> r.
Proof. now destruct r. Qed.

(** Selecting a product in a channel with a pending coupon of a non-empty
    code: the association is gone afterwards, and the order carries the
    coupon the code resolved to, if it resolved. *)
Lemma choose_prod_with_pending i oid w prod pend :
  fs_writable w = true -> selected_product products i = Some prod ->
  pendingCoupons w !! i_channelId i = Some pend ->
  truthy (Pending.code pend) = true ->
  coupon_posted channel_send i prod w ->
  let w1 := snd (selecting i oid w) in
  fs_writable w1 = true /\
  pendingCoupons w1 !! i_channelId i = None /\
  coupons w1 = coupons w /\
  orders w1 !! oid =
    Some (order_for oid i prod (resolve (Pending.code pend) (coupons w))).
Proof.
  intros Hw Hsel Hp Ht Hpost w1. subst w1.
  rewrite (choose_prod_posted i oid w prod Hw Hsel Hpost), Hp, Ht. cbn.
  rewrite lookup_delete_eq, lookup_insert_eq. auto.
Qed.

(** The same selection when the platform refuses the line about the
    coupon: the association is gone, and no order is stored. *)
Lemma choose_prod_refused i oid w prod pend c e :
  fs_writable w = true -> selected_product products i = Some prod ->
  pendingCoupons w !! i_channelId i = Some pend ->
  resolve (Pending.code pend) (coupons w) = Some c ->
  channel_send (coupon_posting prod c) = Throws e ->
  selecting i oid w =
    (Return (ErrorReply e),
     set_pendingCoupons (delete (i_channelId i) (pendingCoupons w)) w).
Proof.
  intros Hw Hsel Hp Hr He.
  rewrite (choose_prod_effect i oid w prod Hw Hsel), Hp. cbv zeta.
  destruct (resolve_same_code _ _ _ Hr) as (Ht & _).
  now rewrite Ht, Hr, He.
Qed.

(** Selecting a product in a channel without a pending coupon. *)
Lemma choose_prod_without_pending i oid w prod :
  fs_writable w = true -> selected_product products i = Some prod ->
  pendingCoupons w !! i_channelId i = None ->
  let w1 := snd (selecting i oid w) in
  pendingCoupons w1 !! i_channelId i = None /\
  orders w1 !! oid = Some (order_for oid i prod None).
Proof.
  intros Hw Hsel Hp w1. subst w1.
  rewrite (choose_prod_effect i oid w prod Hw Hsel), Hp. cbn.
  rewrite Hp, lookup_insert_eq. auto.
Qed.


End BotProperties.

(** ** The properties on the sample data *)

Lemma sample_world_consistent : store_consistent (orders sample_world).
Proof.
  intros k o H. cbn in H. apply lookup_singleton_Some in H as [<- <-].
  reflexivity.
Defined.

Lemma ledger_uses_within_cap_witness :
  ledger_inv
    (coupons
       (run_ops [OpIncrement "save30"; OpIncrement " SAVE30 ";
                 OpAdd (mkAddArgs "half" "percent" (Finite 50) (Some 2%Z));
                 OpIncrement "HALF"; OpFind "half"; OpList; OpDelete "save30"]
                sample_world)).
Proof.
  apply (proj1 ledger_uses_within_cap).
  constructor; [| constructor]. unfold within_cap. cbn. lia.
Defined.

Lemma incrementCouponUse_revalidates_witness :
  exists c',
    fst (incrementCouponUse " save30 " sample_world) = Return true /\
    coupons (snd (incrementCouponUse " save30 " sample_world)) = [c'] /\
    Coupon.uses sample_coupon = 0%Z /\ Coupon.uses c' = 1%Z /\
    Coupon.code c' = "SAVE30" /\ Coupon.maxUses c' = 1%Z.
Proof.
  destruct (proj2 (proj2 (incrementCouponUse_revalidates " save30 " sample_world)
                     [] sample_coupon [] eq_refl (fun x (H : In x []) => match H with end)
                     eq_refl))
    as (c' & Hr & Hl & Hu & Hc & _ & _ & Hm & _).
  - intros [H | [_ H]]; [discriminate | cbn in H; lia].
  - reflexivity.
  - exists c'. exact (conj Hr (conj Hl (conj eq_refl (conj Hu (conj Hc Hm))))).
Defined.


Lemma cryptomus_trusts_all_without_key_witness :
  isCryptomusWebhookTrusted sample_stringify sample_base64 sample_md5
    (Some sample_payload_1) sample_env = true.
Proof.
  apply (cryptomus_trusts_all_without_key sample_stringify sample_base64 sample_md5
           (Some sample_payload_1) sample_env).
  left. reflexivity.
Defined.

Lemma webhooks_always_acknowledge_witness :
  cryptomus_webhook sample_stringify sample_base64 sample_md5
    (Some sample_payload_1) sample_env sample_world_readonly
  = (Return ok, sample_world_readonly).
Proof.
  refine (proj1 (proj2 (proj2 (proj2 (proj2
            (webhooks_always_acknowledge sample_stringify sample_base64 sample_md5
               sample_getStripe sample_constructEvent sample_parse)))))
            (Some sample_payload_1) sample_env sample_world_readonly
            "order-1" "EACCES" sample_world_readonly eq_refl eq_refl _ _).
  - cbn. tauto.
  - vm_compute. reflexivity.
Defined.

Lemma cryptomus_paid_statuses_witness :
  let w' := snd (cryptomus_webhook sample_stringify sample_base64 sample_md5
                   (Some sample_payload_2) sample_env sample_world) in
  orders w' =
    <["order-1" := confirmed_order sample_order (cryptomus_patch sample_payload_2)]>
      (orders sample_world) /\
  paidNotices w' = ["order-1"] /\
  coupons sample_world = [sample_coupon] /\ Coupon.uses sample_coupon = 0%Z /\
  exists c', coupons w' = [c'] /\ Coupon.uses c' = 1%Z /\ Coupon.code c' = "SAVE30".
Proof.
  assert (In (payload_status (Some sample_payload_2)) ["paid"; "paid_over"; "paid_partial"])
    as Hs by (cbn; tauto).
  destruct (proj2 (proj1 (cryptomus_paid_statuses sample_stringify sample_base64 sample_md5
                     (Some sample_payload_2) sample_env "order-1" eq_refl eq_refl) Hs)
              sample_world sample_order eq_refl sample_world_consistent eq_refl)
    as (H1 & _ & _ & H3 & H2); [discriminate |].
  destruct (H3 "SAVE30" eq_refl eq_refl) as (_ & _ & H4).
  destruct (H4 [] sample_coupon [] eq_refl (fun x (H : In x []) => match H with end) eq_refl)
    as (c' & Hl & Hu & Hc & _).
  - intros [H | [_ H]]; [discriminate | cbn in H; lia].
  - refine (conj H1 (conj H2 (conj eq_refl (conj eq_refl _)))).
    exists c'. exact (conj Hl (conj Hu Hc)).
Defined.

Lemma duplicate_confirmation_witness :
  let deliver := deliver sample_stringify sample_base64 sample_md5
                   sample_getStripe sample_constructEvent sample_parse in
  let w1 := snd (deliver (ViaCryptomus (Some sample_payload_1)) sample_env sample_world) in
  let w2 := snd (deliver (ViaStripe (mkStripeRequest "{}" None)) sample_env w1) in
  stores w2 = stores w1 /\
  paidNotices w1 = ["order-1"] /\
  paidNotices w2 = (paidNotices w1 ++ ["order-1"])%list.
Proof.
  intros deliver w1 w2.
  destruct (duplicate_confirmation sample_stringify sample_base64 sample_md5
              sample_getStripe sample_constructEvent sample_parse
              (ViaCryptomus (Some sample_payload_1))
              (ViaStripe (mkStripeRequest "{}" None))
              sample_env "order-1"
              (cryptomus_patch sample_payload_1)
              (stripe_patch (Some (mkSession (Some "order-1") (Some "pi_1") None (Some 7000%Z))))
              sample_world sample_order
              eq_refl sample_world_consistent eq_refl)
    as (_ & _ & _ & _ & H1 & H2 & H3).
  - discriminate.
  - cbn. repeat split. tauto.
  - cbn. eexists _, _. repeat split.
  - split; [exact H1 | split; [exact H2 | exact H3]].
Defined.

(** C1, as stated, fails on its last part: the duplicate is notified as
    well. A pending order is confirmed by a first Cryptomus webhook and a
    second one arrives for it; [notifyPaid] has then been called twice. *)
Lemma duplicate_webhook_notifies_again :
  let cryptomus := cryptomus_webhook sample_stringify sample_base64 sample_md5 in
  let w1 := snd (cryptomus (Some sample_payload_1) sample_env sample_world) in
  let w2 := snd (cryptomus (Some sample_payload_2) sample_env w1) in
  paidNotices w1 = ["order-1"] /\
  paidNotices w2 = ["order-1"; "order-1"] /\
  paidNotices w2 <> paidNotices w1.
Proof.
  vm_compute. split; [reflexivity | split; [reflexivity | discriminate]].
Qed.


(** * More of the code: properties *)

(** ** The coupon ledger *)

Lemma same_code_keys a b : toUpperCase a = toUpperCase b <-> same_code a b.
Proof.
  unfold same_code. split; intro H.
  - apply (f_equal toLowerCase) in H. now rewrite !toLowerCase_toUpperCase in H.
  - apply (f_equal toUpperCase) in H. now rewrite !toUpperCase_toLowerCase in H.
Qed.

Lemma filter_length_some {A} (p : A -> bool) l :
  List.length (List.filter p l) <> List.length l <->
  exists x, In x l /\ p x = false.
Proof.
  induction l as [| y l IH]; cbn.
  - split; [congruence | intros (x & [] & _)].
  - pose proof (List.filter_length_le p l) as Hle.
    destruct (p y) eqn:Ey; cbn.
    + split.
      * intro H. destruct (proj1 IH) as (x & Hx & E); [lia |].
        exists x. auto.
      * intros (x & [<- | Hx] & E); [congruence |].
        assert (List.length (List.filter p l) <> List.length l)
          by (apply IH; eauto). lia.
    + split; [intros _; exists y; auto | lia].
Qed.

(** X1. [deleteCoupon] removes every coupon the code names (trimmed, case
    aside) and no other, keeps the rest in their order, and tells whether
    there was one to remove; it rewrites the file in any case, so on a
    file system that refuses writes it throws even when there is nothing
    to remove. *)
Theorem deleteCoupon_removes code w :
  (fs_writable w = true ->
   exists b w',
     deleteCoupon code w = (Return b, w') /\
     (forall c, In c (coupons w') <-> In c (coupons w) /\ ~ names code c) /\
     sublist (coupons w') (coupons w) /\
     (b = true <-> exists c, In c (coupons w) /\ names code c) /\
     pendingCoupons w' = pendingCoupons w /\ orders w' = orders w) /\
  (fs_writable w = false -> deleteCoupon code w = (Throws "EACCES", w)).
Proof.
  unfold deleteCoupon, bind, readAll, writeAll, writeFile. split; intros ->.
  - eexists _, _. split; [reflexivity |]. cbn [coupons set_coupons].
    refine (conj _ (conj _ (conj _ (conj eq_refl eq_refl)))).
    + intro c. rewrite filter_In, negb_true_iff, <- not_true_iff_false, names_eqb.
      reflexivity.
    + induction (coupons w) as [| y l IH]; cbn; [constructor |].
      destruct (negb _); now constructor.
    + rewrite negb_true_iff, Nat.eqb_neq, filter_length_some.
      split; intros (c & Hin & Hc); exists c; (split; [assumption |]).
      * now apply names_eqb, negb_false_iff.
      * now apply negb_false_iff, names_eqb.
  - reflexivity.
Qed.

Lemma NoDup_map_eq {A B} (f : A -> B) l x y :
  List.NoDup (List.map f l) -> In x l -> In y l -> f x = f y -> x = y.
Proof.
  induction l as [| z l IH]; cbn; [intros _ [] |].
  intros Hnd Hx Hy E. apply List.NoDup_cons_iff in Hnd as [Hz Hnd].
  destruct Hx as [<- | Hx], Hy as [<- | Hy]; auto.
  - exfalso. apply Hz. rewrite E. now apply in_map.
  - exfalso. apply Hz. rewrite <- E. now apply in_map.
Qed.

Lemma find_none_iff {A} (p : A -> bool) l :
  List.find p l = None <-> forall x, In x l -> p x = false.
Proof.
  split; [apply find_none |].
  induction l as [| y l IH]; intro H; [reflexivity |].
  cbn. rewrite (H y) by (now left). apply IH. intros x Hx. apply H. now right.
Qed.

Lemma find_app_last {A} (p : A -> bool) l x :
  (forall y, In y l -> p y = false) -> p x = true ->
  List.find p (l ++ [x]) = Some x.
Proof.
  induction l as [| y l IH]; intros H Hx; cbn.
  - now rewrite Hx.
  - rewrite (H y) by (now left). apply IH; [| assumption].
    intros z Hz. apply H. now right.
Qed.

Lemma resolve_pred code x :
  String.eqb (toLowerCase (Coupon.code x)) (toLowerCase code) = true
  <-> same_code (Coupon.code x) code.
Proof. apply String.eqb_eq. Qed.

Lemma truthy_spec s : truthy s = true <-> s <> "".
Proof. destruct s; cbn; split; congruence. Qed.

Lemma usable_bool c :
  Coupon.active c && negb (usage_exhausted c) = true <-> ~ not_usable c.
Proof.
  rewrite not_usable_bool. unfold usage_exhausted.
  destruct (Coupon.active c), ((0 <? Coupon.maxUses c)%Z && (Coupon.maxUses c <=? Coupon.uses c)%Z);
    cbn; split; congruence.
Qed.

(** X2. [findCoupon] changes nothing and hands out usable coupons only: the
    coupon it returns is in the ledger, has the code asked for (case
    aside), is active and not used up, and the code asked for is not empty.
    In a ledger of distinct codes it finds the coupon of that code exactly
    when that coupon is usable; it finds nothing for a code no coupon
    has. *)
Theorem findCoupon_usable_only code w :
  snd (findCoupon code w) = w /\
  (forall c,
     fst (findCoupon code w) = Return (Some c) ->
     code <> "" /\ In c (coupons w) /\ same_code (Coupon.code c) code /\
     ~ not_usable c) /\
  (forall c,
     codes_distinct (coupons w) -> code <> "" ->
     In c (coupons w) -> same_code (Coupon.code c) code ->
     (~ not_usable c -> fst (findCoupon code w) = Return (Some c)) /\
     (not_usable c -> fst (findCoupon code w) = Return None)) /\
  ((forall c, In c (coupons w) -> ~ same_code (Coupon.code c) code) ->
   fst (findCoupon code w) = Return None).
Proof.
  rewrite findCoupon_resolve. cbn [fst snd]. unfold resolve.
  refine (conj eq_refl (conj _ (conj _ _))).
  - intros c H. destruct (truthy code) eqn:Et; [| discriminate].
    destruct (find _ (coupons w)) as [c' |] eqn:Ef; [| discriminate].
    destruct (Coupon.active c' && negb (usage_exhausted c')) eqn:Eu; [| discriminate].
    injection H as <-. apply find_some in Ef as [Hin Hp].
    refine (conj _ (conj Hin (conj _ _))).
    + now apply truthy_spec.
    + now apply resolve_pred.
    + now apply usable_bool.
  - intros c Hnd Hne Hin Hs. apply truthy_spec in Hne. rewrite Hne.
    destruct (find _ (coupons w)) as [c' |] eqn:Ef.
    + apply find_some in Ef as [Hin' Hp]. apply resolve_pred in Hp.
      assert (c' = c) as ->.
      { apply (NoDup_map_eq code_key (coupons w)); try assumption.
        apply same_code_keys. unfold same_code in *. congruence. }
      split; intro H.
      * apply usable_bool in H. now rewrite H.
      * destruct (Coupon.active c && negb (usage_exhausted c)) eqn:Eu; [| reflexivity].
        apply usable_bool in Eu. tauto.
    + exfalso. apply (find_none _ _ Ef) in Hin.
      apply resolve_pred in Hs. congruence.
  - intro H. destruct (truthy code); [| reflexivity].
    rewrite (proj2 (find_none_iff _ _)); [reflexivity |].
    intros x Hx. apply not_true_iff_false. rewrite resolve_pred. now apply H.
Qed.

Lemma set_coupons_twice a b w : set_coupons a (set_coupons b w) = set_coupons a w.
Proof. reflexivity. Qed.

Lemma map_chars_length f s : String.length (map_chars f s) = String.length s.
Proof. induction s; cbn; congruence. Qed.

(** Facts about a definition [addCoupon] has accepted. *)
Lemma addCoupon_accepted a w c w' :
  addCoupon a w = (Return c, w') ->
  ~ rejected a (coupons w) /\ fs_writable w = true /\
  Coupon.code c = normalized (arg_code a) /\
  Coupon.uses c = 0%Z /\ (0 <= Coupon.maxUses c)%Z /\ Coupon.active c = true /\
  w' = set_coupons (coupons w ++ [c]) w.
Proof.
  intro E.
  destruct (addCoupon_cases a w) as [(_ & msg & _ & E') | (NR & v & _ & E')];
    rewrite E' in E; [discriminate |].
  destruct (fs_writable w); [| discriminate].
  injection E as <- <-. unfold added_coupon. cbn.
  repeat split; try reflexivity; try assumption.
  unfold rejected in NR. lia.
Qed.

(** X3. For a code typed in characters of ASCII and a ledger whose codes
    are of such characters, a coupon that [addCoupon] has just stored is
    found again by [findCoupon], under its stored code and under the code
    as it was typed (trimmed, in any case). *)
Theorem addCoupon_then_findCoupon a w c w' :
  ascii_only (arg_code a) -> ledger_ascii (coupons w) ->
  addCoupon a w = (Return c, w') ->
  In c (coupons w') /\
  findCoupon (Coupon.code c) w' = (Return (Some c), w') /\
  findCoupon (trim (arg_code a)) w' = (Return (Some c), w').
Proof.
  intros _ _ E.
  destruct (addCoupon_accepted a w c w' E) as (NR & Hw & Hcode & Hu & Hm & Ha & ->).
  assert (valid_code_format (normalized (arg_code a))) as Hfmt.
  { destruct (code_regex (normalized (arg_code a))) eqn:Er;
      [now apply code_regex_spec |].
    exfalso. apply NR. left. rewrite <- code_regex_spec. congruence. }
  assert (forall code, same_code (Coupon.code c) code -> code <> "" ->
            resolve code (coupons w ++ [c]) = Some c) as Hres.
  { intros code Hs Hne. unfold resolve. apply truthy_spec in Hne. rewrite Hne.
    rewrite find_app_last.
    - rewrite Ha. unfold usage_exhausted. rewrite Hu.
      replace (Coupon.maxUses c <=? 0)%Z with (Coupon.maxUses c =? 0)%Z
        by (destruct (Z.eqb_spec (Coupon.maxUses c) 0), (Z.leb_spec (Coupon.maxUses c) 0); lia).
      destruct (Z.eqb_spec (Coupon.maxUses c) 0) as [-> | Hne0]; [reflexivity |].
      now rewrite andb_false_r.
    - intros y Hy. apply not_true_iff_false. rewrite resolve_pred. intro Hy'.
      apply NR. right; left. exists y. split; [assumption |].
      unfold same_code in *. rewrite <- Hcode. congruence.
    - now apply resolve_pred. }
  assert (String.length (Coupon.code c) >= 2)%nat as Hlen
    by (rewrite Hcode; apply Hfmt).
  split; [destruct w; cbn; apply in_or_app; right; now left |].
  rewrite !findCoupon_resolve. cbn [coupons set_coupons]. split; f_equal; f_equal.
  - apply Hres; [reflexivity |]. destruct (Coupon.code c); cbn in Hlen; [lia | discriminate].
  - apply Hres.
    + rewrite Hcode. unfold same_code, normalized. apply toLowerCase_toUpperCase.
    + rewrite Hcode in Hlen. unfold normalized, toUpperCase in Hlen.
      rewrite map_chars_length in Hlen.
      destruct (trim (arg_code a)); cbn in Hlen; [lia | discriminate].
Qed.

Lemma trimEnd_no_space s :
  all_chars (fun c => negb (is_space c)) s = true -> trimEnd s = s.
Proof.
  induction s as [| c s IH]; cbn; [reflexivity |].
  intro H. apply andb_true_iff in H as [Hc Hs]. rewrite (IH Hs).
  apply negb_true_iff in Hc. rewrite Hc. now destruct s.
Qed.

Lemma trim_no_space s :
  all_chars (fun c => negb (is_space c)) s = true -> trim s = s.
Proof.
  intro H. unfold trim.
  assert (trimStart s = s) as ->; [| now apply trimEnd_no_space].
  destruct s as [| c s]; [reflexivity |]. cbn in *.
  apply andb_true_iff in H as [Hc _]. apply negb_true_iff in Hc. now rewrite Hc.
Qed.

Lemma code_char_no_space c : is_code_char c = true -> negb (is_space c) = true.
Proof. destruct c as [[] [] [] [] [] [] [] []]; vm_compute; congruence. Qed.

Lemma code_char_upper c : is_code_char c = true -> upper_char c = c.
Proof. destruct c as [[] [] [] [] [] [] [] []]; vm_compute; congruence. Qed.

Lemma all_chars_impl (p q : ascii -> bool) s :
  (forall c, p c = true -> q c = true) ->
  all_chars p s = true -> all_chars q s = true.
Proof.
  intro H. induction s as [| c s IH]; cbn; [reflexivity |].
  rewrite !andb_true_iff. intros [? ?]. auto.
Qed.

(** A code of the required format is its own normalized form. *)
Lemma normalized_valid s : code_regex s = true -> normalized s = s.
Proof.
  intro H. unfold code_regex in H. apply andb_true_iff in H as [_ H].
  unfold normalized.
  rewrite trim_no_space by (eapply all_chars_impl; [apply code_char_no_space | exact H]).
  clear -H. induction s as [| c s IH]; cbn in *; [reflexivity |].
  apply andb_true_iff in H as [Hc Hs]. rewrite (IH Hs). f_equal.
  now apply code_char_upper.
Qed.

Lemma filter_others_kept (ledger : list Coupon.t) (c : Coupon.t) key :
  (forall x, In x ledger -> toUpperCase (Coupon.code x) <> key) ->
  toUpperCase (Coupon.code c) = key ->
  List.filter (fun x => negb (String.eqb (toUpperCase (Coupon.code x)) key))
              (ledger ++ [c]) = ledger.
Proof.
  intros Hl Hc. rewrite List.filter_app. cbn. rewrite Hc, String.eqb_refl. cbn.
  rewrite app_nil_r. apply forallb_filter_id, forallb_forall.
  intros x Hx. apply negb_true_iff, String.eqb_neq. now apply Hl.
Qed.

(** X4. Deleting a coupon right after adding it gives back the world as it
    was before: the ledger had no coupon of that code, so the deletion
    removes the new coupon and nothing else. *)
Theorem addCoupon_then_deleteCoupon a w c w' :
  addCoupon a w = (Return c, w') ->
  deleteCoupon (arg_code a) w' = (Return true, w) /\
  deleteCoupon (Coupon.code c) w' = (Return true, w).
Proof.
  intro E.
  destruct (addCoupon_accepted a w c w' E) as (NR & Hw & Hcode & Hu & Hm & Ha & ->).
  assert (code_regex (normalized (arg_code a)) = true) as Hfmt.
  { destruct (code_regex (normalized (arg_code a))) eqn:Er; [reflexivity |].
    exfalso. apply NR. left. rewrite <- code_regex_spec. congruence. }
  assert (normalized (Coupon.code c) = normalized (arg_code a)) as Hnc
    by (rewrite Hcode; now apply normalized_valid).
  assert (forall code, normalized code = normalized (arg_code a) ->
            deleteCoupon code (set_coupons (coupons w ++ [c]) w) = (Return true, w)) as Hdel.
  { intros code Hnorm.
    unfold deleteCoupon, bind, readAll, writeAll, writeFile.
    fold (normalized code). rewrite Hnorm. cbn [fs_writable set_coupons coupons].
    rewrite Hw.
    rewrite (filter_others_kept (coupons w) c).
    - rewrite length_app. cbn [List.length].
      replace (List.length (coupons w) =? List.length (coupons w) + 1)%nat with false
        by (symmetry; apply Nat.eqb_neq; lia).
      cbn. f_equal. now destruct w.
    - intros x Hx Hx'. apply same_code_normalized in Hx'.
      apply NR. right; left. eauto.
    - rewrite Hcode. unfold normalized. apply toUpperCase_idem. }
  split; apply Hdel; [reflexivity | exact Hnc].
Qed.

Lemma NoDup_snoc {A} (l : list A) x :
  List.NoDup l -> ~ In x l -> List.NoDup (l ++ [x]).
Proof.
  induction l as [| y l IH]; cbn; intros Hnd Hx.
  - constructor; [intros [] | constructor].
  - apply List.NoDup_cons_iff in Hnd as [Hy Hnd]. constructor.
    + rewrite in_app_iff. cbn. intuition congruence.
    + apply IH; tauto.
Qed.

Lemma NoDup_map_filter {A B} (f : A -> B) (p : A -> bool) l :
  List.NoDup (List.map f l) -> List.NoDup (List.map f (List.filter p l)).
Proof.
  induction l as [| y l IH]; cbn; [auto |].
  intro Hnd. apply List.NoDup_cons_iff in Hnd as [Hy Hnd].
  destruct (p y); cbn; [| auto]. constructor; [| auto].
  rewrite in_map_iff in *. intros (x & E & Hx). apply Hy.
  exists x. split; [assumption |]. now apply filter_In in Hx.
Qed.

Lemma map_insert_same {A B} (f : A -> B) (l : list A) i x y :
  l !! i = Some x -> f y = f x -> List.map f (<[i := y]> l) = List.map f l.
Proof.
  revert i. induction l as [| z l IH]; intros [| i] H E; cbn in *; try discriminate.
  - injection H as ->. now rewrite E.
  - f_equal. now apply IH.
Qed.

Lemma run_op_codes op w :
  codes_distinct (coupons w) /\ codes_well_formed (coupons w) ->
  codes_distinct (coupons (run_op op w)) /\ codes_well_formed (coupons (run_op op w)).
Proof.
  unfold codes_distinct, codes_well_formed. intros [Hd Hf].
  destruct op as [a | code | code | code |]; cbn [run_op].
  - destruct (addCoupon_cases a w) as [(_ & msg & _ & ->) | (NR & v & _ & ->)];
      [auto |].
    destruct (fs_writable w); [| auto]. cbn. split.
    + rewrite List.map_app. cbn. apply NoDup_snoc; [assumption |].
      rewrite in_map_iff. intros (x & E & Hx). apply NR. right; left.
      exists x. split; [assumption |]. apply same_code_normalized.
      unfold code_key in E. rewrite E. unfold normalized. apply toUpperCase_idem.
    + apply Forall_app. split; [assumption |]. constructor; [| constructor].
      cbn. destruct (code_regex (normalized (arg_code a))) eqn:Er;
        [now apply code_regex_spec |].
      exfalso. apply NR. left. rewrite <- code_regex_spec. congruence.
  - unfold deleteCoupon, bind, readAll, writeAll, writeFile.
    destruct (fs_writable w); [| auto]. cbn. split.
    + now apply NoDup_map_filter.
    + rewrite List.Forall_forall in *. intros x Hx. apply filter_In in Hx. now apply Hf.
  - destruct (incrementCouponUse_effect code w)
      as [(idx & c & Hc & _ & _ & ->) | ->]; [| auto].
    destruct (fs_writable w); [| auto]. cbn. split.
    + now rewrite (map_insert_same code_key _ idx c).
    + apply Forall_insert; [assumption |]. cbn.
      rewrite List.Forall_forall in Hf. apply Hf.
      apply list_elem_of_In, list_elem_of_lookup. eauto.
  - rewrite findCoupon_world. auto.
  - auto.
Qed.

(** X5. The ledger never holds two coupons of the same code, case aside,
    nor a code that is not of the required format: both hold of the empty
    ledger and are kept by every sequence of ledger operations. *)
Theorem ledger_codes_distinct :
  (forall ops w,
     codes_distinct (coupons w) -> codes_well_formed (coupons w) ->
     codes_distinct (coupons (run_ops ops w)) /\
     codes_well_formed (coupons (run_ops ops w))) /\
  (forall ops w,
     coupons w = [] ->
     codes_distinct (coupons (run_ops ops w)) /\
     codes_well_formed (coupons (run_ops ops w))).
Proof.
  assert (forall ops w,
     codes_distinct (coupons w) /\ codes_well_formed (coupons w) ->
     codes_distinct (coupons (run_ops ops w)) /\
     codes_well_formed (coupons (run_ops ops w))) as H.
  { induction ops as [| op ops IH]; intros w Hw; [exact Hw |].
    cbn. apply IH, run_op_codes, Hw. }
  split.
  - intros ops w Hd Hf. now apply H.
  - intros ops w Hw. apply H. rewrite Hw. split; constructor.
Qed.

Lemma with_uses_same c : with_uses c (Coupon.uses c) = c.
Proof. now destruct c. Qed.

(** X6. Calling [incrementCouponUse] [n] times in a row on an active
    coupon raises [uses] by [n], but for a capped coupon not beyond
    [maxUses]: there it stops, and from then on a call returns [false] and
    [findCoupon] no longer finds the coupon. Nothing else changes. *)
Theorem incrementCouponUse_times_cap n code w l1 c l2 :
  fs_writable w = true ->
  coupons w = (l1 ++ c :: l2)%list ->
  (forall x, In x l1 -> ~ names code x) -> names code c ->
  Coupon.active c = true ->
  incrementCouponUse_times n code w =
    set_coupons (l1 ++ with_uses c (uses_after c n) :: l2) w /\
  ((0 < Coupon.maxUses c)%Z ->
   (Coupon.maxUses c <= Coupon.uses c + Z.of_nat n)%Z ->
   let w' := incrementCouponUse_times n code w in
   fst (incrementCouponUse code w') = Return false /\
   snd (incrementCouponUse code w') = w' /\
   (trim code = code -> fst (findCoupon code w') = Return None)).
Proof.
  intros Hw Hl Hbefore Hc Ha.
  assert (forall n w c,
            fs_writable w = true -> coupons w = (l1 ++ c :: l2)%list ->
            names code c -> Coupon.active c = true ->
            incrementCouponUse_times n code w =
              set_coupons (l1 ++ with_uses c (uses_after c n) :: l2) w) as Hrun.
  { clear n w c Hw Hl Hc Ha. intro n.
    induction n as [| n IH]; intros w c Hw Hl Hc Ha.
    - cbn [incrementCouponUse_times].
      assert (uses_after c 0 = Coupon.uses c) as ->.
      { unfold uses_after. change (Z.of_nat 0) with 0%Z.
        destruct (0 <? Coupon.maxUses c)%Z; lia. }
      rewrite with_uses_same, <- Hl. now rewrite set_coupons_same.
    - cbn [incrementCouponUse_times].
      rewrite (incrementCouponUse_found code w l1 c l2 Hl Hbefore Hc), Ha.
      cbn [negb orb].
      destruct (0 <? Coupon.maxUses c)%Z eqn:E0;
        [destruct (Coupon.maxUses c <=? Coupon.uses c)%Z eqn:E1 |]; cbn [andb].
      + cbn [snd]. rewrite (IH w c Hw Hl Hc Ha).
        assert (uses_after c (S n) = uses_after c n) as ->; [| reflexivity].
        unfold uses_after. rewrite E0. apply Z.leb_le in E1. lia.
      + rewrite Hw. cbn [snd].
        rewrite (IH _ (with_uses c (Coupon.uses c + 1))); try assumption; try reflexivity.
        rewrite set_coupons_twice.
        assert (with_uses (with_uses c (Coupon.uses c + 1))
                  (uses_after (with_uses c (Coupon.uses c + 1)) n)
                = with_uses c (uses_after c (S n))) as ->; [| reflexivity].
        unfold uses_after, with_uses. cbn. rewrite E0. f_equal.
        apply Z.leb_gt in E1. lia.
      + rewrite Hw. cbn [snd].
        rewrite (IH _ (with_uses c (Coupon.uses c + 1))); try assumption; try reflexivity.
        rewrite set_coupons_twice.
        assert (with_uses (with_uses c (Coupon.uses c + 1))
                  (uses_after (with_uses c (Coupon.uses c + 1)) n)
                = with_uses c (uses_after c (S n))) as ->; [| reflexivity].
        unfold uses_after, with_uses. cbn. rewrite E0. f_equal. lia. }
  split; [now apply Hrun |].
  intros Hcap Hn w'. subst w'. rewrite (Hrun n w c Hw Hl Hc Ha).
  set (c' := with_uses c (uses_after c n)).
  set (w' := set_coupons _ w).
  assert (Coupon.uses c' = Z.max (Coupon.uses c) (Coupon.maxUses c)) as Hu.
  { subst c'. unfold uses_after. cbn. apply Z.ltb_lt in Hcap. rewrite Hcap. lia. }
  assert (usage_exhausted c' = true) as Hex.
  { unfold usage_exhausted. change (Coupon.maxUses c') with (Coupon.maxUses c).
    rewrite Hu. apply andb_true_iff. rewrite Z.ltb_lt, Z.leb_le. lia. }
  assert (incrementCouponUse code w' = (Return false, w')) as Einc.
  { rewrite (incrementCouponUse_found code w' l1 c' l2 eq_refl Hbefore Hc).
    change (Coupon.active c') with (Coupon.active c). rewrite Ha. cbn [negb orb].
    unfold usage_exhausted in Hex. now rewrite Hex. }
  rewrite Einc. refine (conj eq_refl (conj eq_refl _)).
  intro Htrim. rewrite findCoupon_resolve. cbn [fst]. unfold resolve.
  destruct (truthy code); [| reflexivity].
  assert (find (fun x => String.eqb (toLowerCase (Coupon.code x)) (toLowerCase code))
               (coupons w') = Some c') as ->.
  { subst w'. cbn [coupons set_coupons]. clear -Hbefore Hc Htrim.
    unfold names in *. rewrite Htrim in *.
    induction l1 as [| y l1 IH]; cbn.
    - apply same_code_keys in Hc. unfold same_code in Hc. cbn in Hc.
      rewrite Hc, String.eqb_refl. reflexivity.
    - destruct (String.eqb (toLowerCase (Coupon.code y)) (toLowerCase code)) eqn:Ey.
      + exfalso. apply (Hbefore y); [now left |].
        apply same_code_keys. now apply String.eqb_eq.
      + apply IH. intros x Hx. apply Hbefore. now right. }
  now rewrite Hex, andb_false_r.
Qed.

Lemma find_split {A} (p : A -> bool) l c :
  List.find p l = Some c ->
  exists l1 l2, l = (l1 ++ c :: l2)%list /\ (forall x, In x l1 -> p x = false) /\ p c = true.
Proof.
  induction l as [| y l IH]; cbn; [discriminate |].
  destruct (p y) eqn:Ey.
  - intros [= <-]. exists [], l. repeat split; [intros x [] | assumption].
  - intro H. destruct (IH H) as (l1 & l2 & -> & Hl1 & Hc).
    exists (y :: l1), l2. repeat split; [| assumption].
    intros x [<- | Hx]; auto.
Qed.

Lemma names_same_code code c :
  trim code = code -> (names code c <-> same_code (Coupon.code c) code).
Proof. intro H. unfold names. rewrite H. apply same_code_keys. Qed.

Lemma lower_char_space c : is_space (lower_char c) = is_space c.
Proof. destruct c as [[] [] [] [] [] [] [] []]; reflexivity. Qed.

Lemma same_code_no_space a b :
  toLowerCase a = toLowerCase b ->
  all_chars (fun c => negb (is_space c)) a = true ->
  all_chars (fun c => negb (is_space c)) b = true.
Proof.
  revert b. induction a as [| x a IH]; intros [| y b]; cbn; try discriminate; auto.
  intros [= Hc Hs]. rewrite !andb_true_iff. intros [Hx Ha]. split; [| eauto].
  now rewrite <- (lower_char_space y), <- Hc, lower_char_space.
Qed.

(** X7. On codes of characters of ASCII, typed and stored,
    [findCoupon] and [incrementCouponUse] agree on a code without white
    space around it: the coupon the one finds is the coupon the other
    counts a use on, and where the one finds nothing the other returns
    [false] and changes nothing. They part on a code with white space
    around it, which [incrementCouponUse] trims and [findCoupon] does not:
    in a ledger of well-formed codes [findCoupon] finds nothing for it. *)
Theorem findCoupon_incrementCouponUse_agree code w :
  ascii_only code -> ledger_ascii (coupons w) ->
  (trim code = code -> code <> "" -> fs_writable w = true ->
   (forall c,
      fst (findCoupon code w) = Return (Some c) ->
      exists l1 l2,
        coupons w = (l1 ++ c :: l2)%list /\
        incrementCouponUse code w =
          (Return true,
           set_coupons (l1 ++ with_uses c (Coupon.uses c + 1) :: l2) w)) /\
   (fst (findCoupon code w) = Return None ->
    incrementCouponUse code w = (Return false, w))) /\
  (trim code <> code -> codes_well_formed (coupons w) ->
   fst (findCoupon code w) = Return None).
Proof.
  intros _ _.
  rewrite findCoupon_resolve. cbn [fst]. unfold resolve. split.
  - intros Htrim Hne Hw. apply truthy_spec in Hne. rewrite Hne.
    destruct (find _ (coupons w)) as [c' |] eqn:Ef.
    + destruct (find_split _ _ _ Ef) as (l1 & l2 & Hl & Hl1 & Hc').
      assert (forall x, In x l1 -> ~ names code x) as Hbefore.
      { intros x Hx Hn. apply (names_same_code _ _ Htrim), resolve_pred in Hn.
        rewrite (Hl1 x Hx) in Hn. discriminate. }
      assert (names code c') as Hn
        by now apply (names_same_code _ _ Htrim), resolve_pred.
      pose proof (incrementCouponUse_found code w l1 c' l2 Hl Hbefore Hn) as E.
      unfold usage_exhausted.
      destruct (Coupon.active c'); cbn [negb orb andb] in *.
      * destruct ((0 <? Coupon.maxUses c')%Z && (Coupon.maxUses c' <=? Coupon.uses c')%Z);
          cbn [negb] in *.
        -- split; [discriminate | intros _; exact E].
        -- rewrite Hw in E. split; [| discriminate].
           intros c [= <-]. eauto.
      * split; [discriminate | intros _; exact E].
    + split; [discriminate | intros _].
      unfold incrementCouponUse, bind, readAll.
      rewrite findIndex_none; [reflexivity |].
      intros x Hx. apply not_true_iff_false. rewrite names_eqb.
      rewrite (names_same_code _ _ Htrim), <- resolve_pred.
      now rewrite (find_none _ _ Ef x Hx).
  - intros Htrim Hf. destruct (truthy code); [| reflexivity].
    destruct (find _ (coupons w)) as [c' |] eqn:Ef; [| reflexivity].
    exfalso. apply find_some in Ef as [Hin Hp]. apply resolve_pred in Hp.
    apply Htrim, trim_no_space.
    apply (same_code_no_space (Coupon.code c')); [exact Hp |].
    unfold codes_well_formed in Hf. rewrite List.Forall_forall in Hf.
    specialize (Hf c' Hin). apply code_regex_spec in Hf.
    unfold code_regex in Hf. apply andb_true_iff in Hf as [_ Hf].
    eapply all_chars_impl; [apply code_char_no_space | exact Hf].
Qed.

(** ** The pending coupons *)

(** X8. The pending coupons behave as one slot per channel: what
    [setPendingCoupon] stores for a channel is what [getPendingCoupon]
    reads back; a second store replaces the first; [clearPendingCoupon]
    empties the slot, and on a channel that had none before the store it
    gives back the world as it was; none of them touches another
    channel, the ledger or the orders. *)
Theorem pending_slot_per_channel ch v w :
  fs_writable w = true ->
  let w1 := snd (setPendingCoupon ch v w) in
  let w2 := snd (clearPendingCoupon ch w1) in
  fst (getPendingCoupon ch w1) = Return (Some v) /\
  (forall v', snd (setPendingCoupon ch v' w1) = snd (setPendingCoupon ch v' w)) /\
  fst (getPendingCoupon ch w2) = Return None /\
  (pendingCoupons w !! ch = None -> w2 = w) /\
  (forall ch', ch' <> ch ->
     fst (getPendingCoupon ch' w1) = fst (getPendingCoupon ch' w) /\
     fst (getPendingCoupon ch' w2) = fst (getPendingCoupon ch' w)) /\
  coupons w1 = coupons w /\ orders w1 = orders w /\
  coupons w2 = coupons w /\ orders w2 = orders w.
Proof.
  intros Hw w1 w2. subst w2 w1.
  unfold setPendingCoupon, clearPendingCoupon, getPendingCoupon, bind,
    readAll_pending, writeAll_pending, writeFile, ret.
  rewrite Hw. cbn. rewrite lookup_insert_eq. cbn.
  refine (conj _ (conj _ (conj _ (conj _ (conj _ _))))); rewrite ?Hw; cbn.
  - reflexivity.
  - intro v'. rewrite ?Hw. cbn. now rewrite insert_insert_eq.
  - now rewrite lookup_delete_eq.
  - intro Hn. rewrite delete_insert_eq, delete_id by assumption. now destruct w.
  - intros ch' Hne. rewrite lookup_insert_ne by congruence.
    rewrite lookup_delete_ne, lookup_insert_ne by congruence. auto.
  - auto.
Qed.

(** X9. [clearPendingCoupon] writes only when there is something to clear:
    on a channel without pending coupon it returns and leaves the world as
    it is, also on a file system that refuses writes, where clearing an
    existing entry and storing one throw. [getPendingCoupon] never
    writes. *)
Theorem pending_writes_only_when_needed ch w :
  (pendingCoupons w !! ch = None -> clearPendingCoupon ch w = (Return tt, w)) /\
  getPendingCoupon ch w = (Return (pendingCoupons w !! ch), w) /\
  (fs_writable w = false ->
   (forall v, setPendingCoupon ch v w = (Throws "EACCES", w)) /\
   (forall v, pendingCoupons w !! ch = Some v ->
      clearPendingCoupon ch w = (Throws "EACCES", w))).
Proof.
  unfold setPendingCoupon, clearPendingCoupon, getPendingCoupon, bind,
    readAll_pending, writeAll_pending, writeFile, ret.
  refine (conj _ (conj eq_refl _)).
  - now intros ->.
  - intros Hw. split.
    + intro v. now rewrite Hw.
    + intros v Hv. now rewrite Hv, Hw.
Qed.
(** * utils/crypto.js: the signature and the invoice request *)

Lemma or_null_Some (o : option string) (s : string) :
  or_null o = Some s <-> o = Some s /\ s <> "".
Proof.
  unfold or_null, truthy_opt. destruct o as [t|]; [|split; [congruence | intros [? _]; congruence]].
  destruct t; cbn; split.
  - congruence.
  - intros [E N]. injection E as <-. congruence.
  - intros E. injection E as <-. split; congruence.
  - intros [E _]. exact E.
Qed.

Lemma or_null_None (o : option string) :
  or_null o = None <-> o = None \/ o = Some "".
Proof.
  unfold or_null, truthy_opt. destruct o as [t|]; [|split; auto].
  destruct t; cbn; split; auto; try congruence.
  intros [E|E]; congruence.
Qed.

Lemma first_truthy_empty (l : list (option string)) :
  first_truthy l = "" <-> Forall (fun o => o = None \/ o = Some "") l.
Proof.
  induction l as [|a l IH]; cbn.
  - split; auto.
  - destruct (or_null a) as [s|] eqn:E.
    + apply or_null_Some in E as [-> N]. split.
      * intros ->. congruence.
      * intros H. inversion H as [|? ? [D|D] _]; congruence.
    + rewrite IH. apply or_null_None in E. split.
      * intro H. now constructor.
      * intro H. now inversion H.
Qed.

Section SignatureProperties.

Variable JSON_stringify : Payload -> string.
Variable base64 md5_hex : string -> string.

Abbreviation trusted_by := (isCryptomusWebhookTrusted JSON_stringify base64 md5_hex).
Abbreviation cryptomus_hook := (cryptomus_webhook JSON_stringify base64 md5_hex).
Abbreviation signature_of := (makeSign Payload JSON_stringify base64 md5_hex).
Abbreviation signed := (signed_payload JSON_stringify base64 md5_hex).

(** X10 (utils/crypto.js, [makeSign] and [isCryptomusWebhookTrusted]; main
    file, the Cryptomus webhook): with a non-empty API key configured, a
    notification is trusted exactly when it carries a non-empty [sign] equal
    to what [makeSign] gives for its other fields and the key; an untrusted
    notification is answered 401 "untrusted" and changes nothing, whatever
    it says about an order; and a payload signed with [makeSign] under the
    configured key is trusted. *)
Theorem cryptomus_signature_check (req : option Payload) (env : Env) (key : string) :
  CRYPTOMUS_API_KEY env = Some key -> key <> "" ->
  let payload := default empty_payload req in
  let expected := signature_of (delete_sign payload) key in
  (trusted_by req env = true <-> sign payload = Some expected /\ expected <> "") /\
  (forall w, trusted_by req env = false ->
     cryptomus_hook req env w = (Return (mkResponse 401 "untrusted"), w)) /\
  (forall p, signature_of (delete_sign p) key <> "" ->
     trusted_by (Some (signed p key)) env = true).
Proof.
  intros Hk Hne payload expected.
  assert (Hu : forall r, trusted_by r env =
             match or_null (sign (default empty_payload r)) with
             | None => false
             | Some received =>
                 String.eqb (signature_of (delete_sign (default empty_payload r)) key) received
             end).
  { intro r. unfold isCryptomusWebhookTrusted. rewrite Hk.
    assert (or_null (Some key) = Some key) as -> by (apply or_null_Some; auto).
    reflexivity. }
  refine (conj _ (conj _ _)).
  - rewrite Hu. fold payload. destruct (or_null (sign payload)) as [s|] eqn:E.
    + apply or_null_Some in E as [E N]. rewrite String.eqb_eq. fold expected. split.
      * intros ->. auto.
      * intros [E' _]. congruence.
    + split; [congruence|]. intros [E' N]. apply or_null_None in E as [E|E]; congruence.
  - intros w Hf. unfold cryptomus_webhook, try_catch. rewrite Hf. reflexivity.
  - intros p Hp. rewrite Hu.
    change (default empty_payload (Some (signed p key))) with (signed p key).
    change (sign (signed p key)) with (Some (signature_of (delete_sign p) key)).
    change (delete_sign (signed p key)) with (delete_sign p).
    assert (or_null (Some (signature_of (delete_sign p) key))
            = Some (signature_of (delete_sign p) key)) as -> by (apply or_null_Some; auto).
    apply String.eqb_eq. reflexivity.
Qed.

End SignatureProperties.

Section InvoiceProperties.

Variable JSON_stringify_body : InvoiceBody -> string.
Variable JSON_stringify_data : option InvoiceData -> string.
Variable base64 md5_hex : string -> string.

Abbreviation create_invoice :=
  (createCryptomusInvoice JSON_stringify_body JSON_stringify_data base64 md5_hex).
Abbreviation request_for := (invoice_request JSON_stringify_body base64 md5_hex).

(** X11 (utils/crypto.js, [getEnv] and [createCryptomusInvoice]): the
    merchant is the first non-empty of CRYPTOMUS_MERCHANT_UUID,
    CRYPTOMUS_MERCHANT and CRYPTOMUS_MERCHAN, in this order: the first
    when it is set and not empty, else the second, else the third, and
    empty when none is.  Without a merchant the call
    fails with "Missing CRYPTOMUS_MERCHANT_UUID", and with a merchant but
    no API key with "Missing CRYPTOMUS_API_KEY", in both cases whatever the
    network would answer.  An invoice is returned only with a non-empty
    address, taken together with the uuid from a successful answer to the
    one request, which is a POST carrying the merchant, the amount with two
    decimals and the signature [makeSign] gives for the body; an
    unsuccessful answer or one without an address is an error whose message
    starts with "Cryptomus invoice failed: ". *)
Theorem createCryptomusInvoice_outcomes (a : InvoiceArgs) (env : Env) (penv : ProcessEnv) :
  let merchant := fst (getEnv env penv) in
  let apiKey := snd (getEnv env penv) in
  let request := request_for a merchant apiKey in
  (merchant = "" <->
     Forall (fun o => o = None \/ o = Some "")
       [CRYPTOMUS_MERCHANT_UUID penv; CRYPTOMUS_MERCHANT penv; CRYPTOMUS_MERCHAN penv]) /\
  ((forall u, CRYPTOMUS_MERCHANT_UUID penv = Some u -> u <> "" -> merchant = u) /\
   (forall m,
      CRYPTOMUS_MERCHANT_UUID penv = None \/ CRYPTOMUS_MERCHANT_UUID penv = Some "" ->
      CRYPTOMUS_MERCHANT penv = Some m -> m <> "" -> merchant = m) /\
   (forall m,
      CRYPTOMUS_MERCHANT_UUID penv = None \/ CRYPTOMUS_MERCHANT_UUID penv = Some "" ->
      CRYPTOMUS_MERCHANT penv = None \/ CRYPTOMUS_MERCHANT penv = Some "" ->
      CRYPTOMUS_MERCHAN penv = Some m -> merchant = m)) /\
  (merchant = "" ->
     forall fetch, create_invoice fetch a env penv = Throws "Missing CRYPTOMUS_MERCHANT_UUID") /\
  (merchant <> "" -> CRYPTOMUS_API_KEY env = None \/ CRYPTOMUS_API_KEY env = Some "" ->
     forall fetch, create_invoice fetch a env penv = Throws "Missing CRYPTOMUS_API_KEY") /\
  (http_method request = "POST" /\ http_merchant request = merchant /\
   http_body request = JSON_stringify_body (invoice_body a) /\
   body_amount (invoice_body a) = toFixed2_string (inv_amountUsd a) /\
   body_order_id (invoice_body a) = inv_orderId a /\
   http_sign request =
     makeSign InvoiceBody JSON_stringify_body base64 md5_hex (invoice_body a) apiKey) /\
  (forall fetch inv, create_invoice fetch a env penv = Return inv ->
     merchant <> "" /\ CRYPTOMUS_API_KEY env = Some apiKey /\ apiKey <> "" /\
     invoice_url inv <> "" /\
     exists res data,
       fetch request = Return res /\ res_ok res = true /\ res_data res = Some data /\
       data_result_url data = Some (invoice_url inv) /\
       data_result_uuid data = invoice_uuid inv) /\
  (forall fetch res, merchant <> "" -> apiKey <> "" ->
     fetch request = Return res ->
     res_ok res = false \/ or_null (res_data res ≫= data_result_url) = None ->
     exists msg, create_invoice fetch a env penv = Throws ("Cryptomus invoice failed: " ++ msg)).
Proof.
  intros merchant apiKey request.
  assert (Hkey : apiKey = "" <-> CRYPTOMUS_API_KEY env = None \/ CRYPTOMUS_API_KEY env = Some "").
  { unfold apiKey, getEnv. cbn [snd]. rewrite first_truthy_empty. split.
    - intro H. now inversion H.
    - intro H. constructor; [exact H | constructor]. }
  assert (Hc : forall fetch, create_invoice fetch a env penv =
     if negb (truthy merchant) then Throws "Missing CRYPTOMUS_MERCHANT_UUID" else
     if negb (truthy apiKey) then Throws "Missing CRYPTOMUS_API_KEY" else
     match fetch request with
     | Throws e => Throws e
     | Return res =>
         let data := res_data res in
         match (if res_ok res then or_null (data ≫= data_result_url) else None) with
         | None =>
             let msg :=
               match or_else (data ≫= data_message) (data ≫= data_error) with
               | Some m => if truthy m then m else JSON_stringify_data data
               | None => JSON_stringify_data data
               end in
             Throws ("Cryptomus invoice failed: " ++ msg)
         | Some url => Return (mkInvoice url (data ≫= data_result_uuid))
         end
     end) by reflexivity.
  refine (conj _ (conj _ (conj _ (conj _ (conj _ (conj _ _)))))).
  - unfold merchant, getEnv. cbn [fst]. apply first_truthy_empty.
  - unfold merchant, getEnv. cbn [fst first_truthy]. repeat split.
    + intros u -> Hu. rewrite (proj2 (or_null_Some (Some u) u) (conj eq_refl Hu)).
      reflexivity.
    + intros m H1 -> Hm. rewrite (proj2 (or_null_None _) H1).
      rewrite (proj2 (or_null_Some (Some m) m) (conj eq_refl Hm)). reflexivity.
    + intros m H1 H2 ->.
      rewrite (proj2 (or_null_None _) H1), (proj2 (or_null_None _) H2).
      now destruct m.
  - intros Hm fetch. rewrite Hc, Hm. reflexivity.
  - intros Hm Hk fetch. rewrite Hc. apply Hkey in Hk. rewrite Hk.
    apply truthy_spec in Hm. rewrite Hm. reflexivity.
  - repeat split.
  - intros fetch inv. rewrite Hc.
    destruct (truthy merchant) eqn:Hm; cbn [negb]; [|discriminate].
    destruct (truthy apiKey) eqn:Ha; cbn [negb]; [|discriminate].
    apply truthy_spec in Hm, Ha.
    destruct (fetch request) as [res|e] eqn:Hf; [|discriminate].
    cbn zeta. destruct (res_ok res) eqn:Hok.
    2:{ discriminate. }
    destruct (or_null (res_data res ≫= data_result_url)) as [url|] eqn:Hu; [|discriminate].
    intros E. injection E as <-. cbn [invoice_url invoice_uuid].
    apply or_null_Some in Hu as [Hu Hn].
    destruct (res_data res) as [data|] eqn:Hd; [|discriminate].
    cbn in Hu. refine (conj Hm (conj _ (conj Ha (conj Hn _)))).
    + unfold apiKey, getEnv in *. cbn [snd first_truthy] in *.
      destruct (or_null (CRYPTOMUS_API_KEY env)) as [k|] eqn:Ek; [|congruence].
      now apply or_null_Some in Ek as [-> _].
    + exists res, data. auto.
  - intros fetch res Hm Ha Hf Hbad. rewrite Hc, Hf.
    apply truthy_spec in Hm, Ha. rewrite Hm, Ha. cbn [negb]. cbn zeta.
    assert ((if res_ok res then or_null (res_data res ≫= data_result_url) else None) = None) as ->.
    { destruct Hbad as [-> | ->]; [reflexivity | now destruct (res_ok res)]. }
    eexists. reflexivity.
Qed.

End InvoiceProperties.

(** * The product buttons *)

Lemma concat_full_rows {A} (rows : list (list A)) :
  Forall (fun r => length r = 5%nat) rows ->
  length (concat rows) = (5 * length rows)%nat.
Proof.
  induction 1 as [| r rows Hr _ IH]; [reflexivity |].
  cbn [concat]. rewrite List.length_app, Hr, IH. cbn [length]. lia.
Qed.

Lemma rows_loop_inv (ps done : list Product.t) rows row count :
  count = length row -> (count <= 5)%nat ->
  Forall (fun r => length r = 5%nat) rows ->
  (concat rows ++ row)%list = map product_button done ->
  (count = 0%nat -> done = []) ->
  exists rows' row' count',
    fold_left rows_step ps (rows, row, count) = (rows', row', count') /\
    count' = length row' /\ (count' <= 5)%nat /\
    Forall (fun r => length r = 5%nat) rows' /\
    (concat rows' ++ row')%list = map product_button (done ++ ps) /\
    (count' = 0%nat -> (done ++ ps)%list = []).
Proof.
  revert done rows row count.
  induction ps as [| p ps IH]; intros done rows row count Hc H5 Hf Hm H0.
  - exists rows, row, count. rewrite List.app_nil_r.
    exact (conj eq_refl (conj Hc (conj H5 (conj Hf (conj Hm H0))))).
  - cbn [fold_left].
    replace (done ++ p :: ps)%list with ((done ++ [p]) ++ ps)%list
      by (now rewrite <- List.app_assoc).
    unfold rows_step at 2. destruct (Nat.eqb count 5) eqn:E; cbv beta iota zeta.
    + apply Nat.eqb_eq in E. apply IH.
      * reflexivity.
      * lia.
      * apply Forall_app. split; [exact Hf |]. constructor; [congruence | constructor].
      * rewrite List.concat_app. cbn [concat]. rewrite List.app_nil_r, List.map_app.
        cbn [map app]. rewrite <- Hm. now rewrite <- List.app_assoc.
      * discriminate.
    + apply Nat.eqb_neq in E. apply IH.
      * rewrite List.length_app. cbn [length]. lia.
      * lia.
      * exact Hf.
      * rewrite List.map_app. cbn [map]. rewrite <- Hm. now rewrite <- List.app_assoc.
      * discriminate.
Qed.

Lemma before_colon_idem s : before_colon (before_colon s) = before_colon s.
Proof.
  induction s as [| c s IH]; [reflexivity |]. cbn.
  destruct (Ascii.eqb c ":") eqn:E; [reflexivity |]. cbn. now rewrite E, IH.
Qed.

Lemma after_colon_choose x : after_colon ("choose_prod:" ++ x) = Some x.
Proof. reflexivity. Qed.

Lemma prefix_app (a b : string) : String.prefix a (a ++ b) = true.
Proof.
  induction a as [| c a IH]; [now destruct b |].
  change (String c a ++ b) with (String c (a ++ b)). cbn [String.prefix].
  destruct (ascii_dec c c); [exact IH | congruence].
Qed.

Lemma find_by_id (products : list Product.t) p :
  NoDup (map Product.id products) -> In p products ->
  List.find (fun q => bool_decide (Some (Product.id q) = Some (Product.id p))) products = Some p.
Proof.
  induction products as [| q products IH]; intros Hn Hin; [destruct Hin |].
  cbn [map] in Hn. apply NoDup_cons in Hn as [Hq Hn]. cbn [List.find].
  destruct Hin as [-> | Hin].
  - now rewrite bool_decide_eq_true_2.
  - rewrite bool_decide_eq_false_2; [now apply IH |].
    intros [= E]. apply Hq. rewrite E. apply list_elem_of_In, in_map, Hin.
Qed.

(** X12 (main file, [open_ticket]: the product buttons). The rows posted
    for the catalogue hold one button for each product, in the order of
    the catalogue; every row has between one and five buttons and every
    row but the last has five, so there are ceil(n/5) rows for [n]
    products and none for an empty catalogue. Pressing the button of a
    product selects the first product whose id is that product's id up to
    its first colon: the product itself when the ids of the catalogue
    are distinct and its id has no colon. *)
Theorem product_rows_layout (products : list Product.t) :
  let rows := product_rows products in
  concat rows = map product_button products /\
  Forall (fun r => (1 <= length r <= 5)%nat) rows /\
  (forall k r, rows !! k = Some r -> (S k < length rows)%nat -> length r = 5%nat) /\
  length rows = ((length products + 4) / 5)%nat /\
  (forall p ch user,
     let press := mkInteraction (button_customId (product_button p)) ch user in
     selected_product products press =
       List.find (fun q => bool_decide (Some (Product.id q)
                                        = Some (before_colon (Product.id p)))) products /\
     (In p products -> NoDup (map Product.id products) -> no_colon (Product.id p) ->
      selected_product products press = Some p)).
Proof.
  intro rows.
  destruct (rows_loop_inv products [] [] [] 0%nat eq_refl ltac:(lia)
              (List.Forall_nil _) eq_refl (fun _ => eq_refl))
    as (rows' & row' & count' & Hfold & Hc & H5 & Hf & Hm & H0).
  cbn [app] in Hm, H0.
  assert (Hlen : (5 * length rows' + count')%nat = length products).
  { rewrite <- (List.length_map product_button products), <- Hm, List.length_app,
      (concat_full_rows rows' Hf). lia. }
  assert (Hrows : rows = if Nat.eqb count' 0 then rows' else (rows' ++ [row'])%list).
  { unfold rows, product_rows. now rewrite Hfold. }
  assert (Hsel : forall p ch user,
     selected_product products (mkInteraction (button_customId (product_button p)) ch user) =
       List.find (fun q => bool_decide (Some (Product.id q)
                                        = Some (before_colon (Product.id p)))) products).
  { intros p ch user. unfold selected_product, split_colon_1, product_button.
    cbn [customId button_customId]. now rewrite prefix_app, after_colon_choose. }
  destruct (Nat.eqb count' 0) eqn:E.
  - apply Nat.eqb_eq in E. specialize (H0 E). subst products.
    destruct row'; [| cbn in Hc; lia]. rewrite List.app_nil_r in Hm.
    assert (rows' = []) as ->.
    { destruct rows' as [| r rs]; [reflexivity |]. inversion Hf as [| ? ? Hr _]; subst.
      destruct r; [discriminate Hr | discriminate Hm]. }
    rewrite Hrows. refine (conj eq_refl (conj (List.Forall_nil _) (conj _ (conj eq_refl _)))).
    + intros k r Hk. destruct k; discriminate Hk.
    + intros p ch user. split; [apply Hsel |]. intros [].
  - apply Nat.eqb_neq in E. rewrite Hrows.
    refine (conj _ (conj _ (conj _ (conj _ _)))).
    + rewrite List.concat_app. cbn [concat]. now rewrite List.app_nil_r.
    + apply Forall_app. split.
      * eapply Forall_impl; [exact Hf |]. cbn. intros r Hr. lia.
      * constructor; [lia | constructor].
    + intros k r Hk Hlt. rewrite List.length_app in Hlt. cbn [length] in Hlt.
      rewrite lookup_app_l in Hk by lia.
      rewrite Forall_forall in Hf. apply Hf, (list_elem_of_lookup_2 _ k), Hk.
    + rewrite List.length_app. cbn [length].
      apply (Nat.div_unique _ 5 _ (count' - 1)); lia.
    + intros p ch user. split; [apply Hsel |]. intros Hin Hn Hp.
      rewrite Hsel. unfold no_colon in Hp. rewrite Hp. now apply find_by_id.
Qed.

(** * Selecting a product and submitting a coupon code *)

Section SelectionProperties.

Variable products : list Product.t.
Variable channel_send : Posting -> outcome unit.

(** X13 (main file, the [choose_prod:] branch of the button handler).
    Selecting a product never touches the coupon ledger (no use is counted
    at selection), the payment notices, another order or the pending
    coupon of another channel. When the pressed button names no product of
    the catalogue nothing changes at all, so a pending coupon stays for
    the next selection; on a file system that refuses writes nothing
    changes either and the reply is the error. Otherwise, when the chat
    platform takes the line about the applied coupon (if there is one to
    post), the order stored under the new id is pending, for the pressing
    user and channel and the selected product, without payment data and
    with its coupon use not recorded, and the reply asks for the payment
    method, or is the error when the platform refuses the payment
    methods, the order being stored all the same; a pending entry with an
    empty code is ignored and kept. When the platform refuses the line
    about the coupon, the reply is the error, the pending coupon is gone
    and no order is stored. *)
Theorem choose_prod_spends_nothing (i : Interaction) (oid : string) (w : World) :
  let r := choose_prod products channel_send i oid w in
  coupons (snd r) = coupons w /\ paidNotices (snd r) = paidNotices w /\
  (forall k, k <> oid -> orders (snd r) !! k = orders w !! k) /\
  (forall ch, ch <> i_channelId i ->
     pendingCoupons (snd r) !! ch = pendingCoupons w !! ch) /\
  (selected_product products i = None ->
     snd r = w /\ (fst r = Return ProductNotFound \/ fst r = Return OtherButton)) /\
  (fs_writable w = false ->
     snd r = w /\
     forall prod, selected_product products i = Some prod ->
       fst r = Return (ErrorReply "EACCES")) /\
  (fs_writable w = true ->
   forall prod, selected_product products i = Some prod ->
     (coupon_posted channel_send i prod w ->
      exists o,
        orders (snd r) !! oid = Some o /\
        fst r = Return (selection_reply channel_send o) /\
        (channel_send (PaymentMethods o) = Return tt -> fst r = Return ChoosePaymentMethod) /\
        Order.id o = oid /\ Order.status o = "pending" /\
        Order.channelId o = i_channelId i /\ Order.userId o = i_userId i /\
        Order.product o = Product.mk (Product.id prod) (Product.name prod) (Product.price prod) /\
        Order.payment o = Payment.mk None None None None None /\
        Pricing.original (Order.pricing o) = Product.price prod /\
        Pricing.couponUsedMarked (Order.pricing o) = false) /\
     (forall c e,
        applied_coupon i w = Some c ->
        channel_send (coupon_posting prod c) = Throws e ->
        fst r = Return (ErrorReply e) /\
        orders (snd r) = orders w /\
        pendingCoupons (snd r) = delete (i_channelId i) (pendingCoupons w)) /\
     (forall pend,
        pendingCoupons w !! i_channelId i = Some pend -> Pending.code pend = "" ->
        pendingCoupons (snd r) = pendingCoupons w /\
        orders (snd r) !! oid = Some (new_order oid i prod))).
Proof.
  intro r.
  assert (Hro : fs_writable w = false -> snd r = w /\
     forall prod, selected_product products i = Some prod ->
       fst r = Return (ErrorReply "EACCES")).
  { intro Hw. subst r. unfold selected_product, choose_prod.
    destruct (String.prefix "choose_prod:" (customId i)); cbn [negb];
      [| split; [reflexivity | discriminate]].
    unfold try_catch, bind at 1.
    destruct (find _ products) as [prod |]; [| split; [reflexivity | discriminate]].
    unfold getPendingCoupon, bind, readAll_pending, ret.
    destruct (pendingCoupons w !! i_channelId i) as [pend |] eqn:Ep.
    - destruct (truthy (Pending.code pend)).
      + rewrite findCoupon_resolve.
        unfold clearPendingCoupon, bind, readAll_pending.
        destruct (resolve (Pending.code pend) (coupons w)) as [c |];
          cbn beta; rewrite Ep;
          unfold writeAll_pending, writeFile; rewrite Hw; cbn; auto.
      + unfold upsertOrder, bind, readOrders, writeOrders, writeFile.
        cbn. rewrite Hw. auto.
    - unfold upsertOrder, bind, readOrders, writeOrders, writeFile.
      cbn. rewrite Hw. auto. }
  assert (Hno : selected_product products i = None ->
     snd r = w /\ (fst r = Return ProductNotFound \/ fst r = Return OtherButton)).
  { intro Hs. subst r. unfold selected_product in Hs. unfold choose_prod.
    destruct (String.prefix "choose_prod:" (customId i)); cbn [negb]; [| auto].
    unfold try_catch, bind at 1. rewrite Hs. auto. }
  destruct (fs_writable w) eqn:Hw.
  2:{ destruct (Hro eq_refl) as [E He].
      refine (conj _ (conj _ (conj _ (conj _ (conj Hno (conj (fun _ => conj E He) _))))));
        try (intros; now rewrite E). }
  destruct (selected_product products i) as [prod |] eqn:Hsel.
  2:{ destruct (Hno eq_refl) as [E He].
      refine (conj _ (conj _ (conj _ (conj _ (conj Hno (conj _ _))))));
        try (intros; now rewrite E).
      all: intros; discriminate. }
  pose proof (choose_prod_effect products channel_send i oid w prod Hw Hsel) as E.
  fold r in E. cbv zeta in E.
  assert (Ho : forall c, let o := order_for oid i prod c in
     Order.id o = oid /\ Order.status o = "pending" /\
     Order.channelId o = i_channelId i /\ Order.userId o = i_userId i /\
     Order.product o = Product.mk (Product.id prod) (Product.name prod) (Product.price prod) /\
     Order.payment o = Payment.mk None None None None None /\
     Pricing.original (Order.pricing o) = Product.price prod /\
     Pricing.couponUsedMarked (Order.pricing o) = false).
  { intros [c |]; cbn; auto 10. }
  assert (Hst : forall o w', r = (Return (selection_reply channel_send o),
                                   set_orders (<[oid := o]> (orders w')) w') ->
            orders (snd r) !! oid = Some o /\
            fst r = Return (selection_reply channel_send o) /\
            (channel_send (PaymentMethods o) = Return tt -> fst r = Return ChoosePaymentMethod)).
  { intros o w' ->. cbn [fst snd]. refine (conj _ (conj eq_refl _)).
    - destruct w'. cbn. apply lookup_insert_eq.
    - intro Hs. unfold selection_reply. now rewrite Hs. }
  refine (conj _ (conj _ (conj _ (conj _ (conj _ (conj _ _)))))).
  - rewrite E. destruct (pendingCoupons w !! i_channelId i) as [pend |];
      [destruct (truthy (Pending.code pend));
       [destruct (resolve (Pending.code pend) (coupons w)) as [c |];
        [destruct (channel_send (coupon_posting prod c)) |] |] |]; reflexivity.
  - rewrite E. destruct (pendingCoupons w !! i_channelId i) as [pend |];
      [destruct (truthy (Pending.code pend));
       [destruct (resolve (Pending.code pend) (coupons w)) as [c |];
        [destruct (channel_send (coupon_posting prod c)) |] |] |]; reflexivity.
  - intros k Hk. rewrite E. destruct (pendingCoupons w !! i_channelId i) as [pend |];
      [destruct (truthy (Pending.code pend));
       [destruct (resolve (Pending.code pend) (coupons w)) as [c |];
        [destruct (channel_send (coupon_posting prod c)) |] |] |];
      cbn [snd]; unfold set_orders, set_pendingCoupons; cbn [orders];
      try reflexivity; now rewrite lookup_insert_ne.
  - intros ch Hch. rewrite E. destruct (pendingCoupons w !! i_channelId i) as [pend |];
      [destruct (truthy (Pending.code pend));
       [destruct (resolve (Pending.code pend) (coupons w)) as [c |];
        [destruct (channel_send (coupon_posting prod c)) |] |] |];
      cbn [snd]; unfold set_orders, set_pendingCoupons; cbn [pendingCoupons];
      try reflexivity; now rewrite lookup_delete_ne.
  - discriminate.
  - discriminate.
  - intros _ prod' [= <-]. refine (conj _ (conj _ _)).
    + intro Hpost. unfold coupon_posted, applied_coupon in Hpost.
      destruct (pendingCoupons w !! i_channelId i) as [pend |] eqn:Ep;
        [destruct (truthy (Pending.code pend)) eqn:Et;
         [destruct (resolve (Pending.code pend) (coupons w)) as [c |] eqn:Er |] |].
      * rewrite (Hpost c eq_refl) in E. eexists.
        exact (conj (proj1 (Hst _ _ E)) (conj (proj1 (proj2 (Hst _ _ E)))
                 (conj (proj2 (proj2 (Hst _ _ E))) (Ho (Some c))))).
      * eexists.
        exact (conj (proj1 (Hst _ _ E)) (conj (proj1 (proj2 (Hst _ _ E)))
                 (conj (proj2 (proj2 (Hst _ _ E))) (Ho None)))).
      * eexists.
        exact (conj (proj1 (Hst _ _ E)) (conj (proj1 (proj2 (Hst _ _ E)))
                 (conj (proj2 (proj2 (Hst _ _ E))) (Ho None)))).
      * eexists.
        exact (conj (proj1 (Hst _ _ E)) (conj (proj1 (proj2 (Hst _ _ E)))
                 (conj (proj2 (proj2 (Hst _ _ E))) (Ho None)))).
    + intros c e Hc He. unfold applied_coupon in Hc.
      destruct (pendingCoupons w !! i_channelId i) as [pend |] eqn:Ep; [| discriminate].
      destruct (resolve_same_code _ _ _ Hc) as (Ht & _).
      rewrite Ht, Hc, He in E. rewrite E. cbn [fst snd].
      destruct w. repeat split.
    + intros pend Hp Hc.
      rewrite Hp, Hc in E. cbn [truthy] in E. rewrite E. cbn [snd].
      destruct w. cbn. split; [reflexivity | apply lookup_insert_eq].
Qed.

(** X14 (main file, the submit handler of the coupon form). Submitting a
    code never touches the ledger, the orders or the pending coupon of
    another channel. A code that [findCoupon] does not accept (after
    trimming) is answered as invalid and leaves everything as it was, an
    earlier pending coupon of the channel included. An accepted code is
    not empty and is saved under the code of the ledger's coupon, which
    equals the typed one case aside, together with that coupon's type,
    value and cap, replacing what was pending. On a file system that
    refuses writes an accepted code is not saved: the handler fails with
    the write error before any reply. *)
Theorem coupon_modal_submit_outcomes (ch input : string) (w : World) :
  let r := coupon_modal_submit ch input w in
  coupons (snd r) = coupons w /\ orders (snd r) = orders w /\
  (forall ch', ch' <> ch -> pendingCoupons (snd r) !! ch' = pendingCoupons w !! ch') /\
  (fst (findCoupon (trim input) w) = Return None ->
     fst r = Return InvalidCoupon /\ snd r = w) /\
  (forall c, fst (findCoupon (trim input) w) = Return (Some c) ->
     Coupon.code c <> "" /\ same_code (Coupon.code c) (trim input) /\
     (fs_writable w = true ->
        fst r = Return (CouponSaved (Coupon.code c)) /\
        pendingCoupons (snd r) !! ch =
          Some (Pending.mk (Coupon.code c) (Coupon.type c) (Coupon.value c)
                           (Coupon.maxUses c))) /\
     (fs_writable w = false -> fst r = Throws "EACCES" /\ snd r = w)).
Proof.
  intro r. subst r. unfold coupon_modal_submit, bind.
  rewrite findCoupon_resolve. cbn [fst].
  destruct (resolve (trim input) (coupons w)) as [c |] eqn:Er.
  - unfold setPendingCoupon, bind, readAll_pending, writeAll_pending, writeFile.
    destruct (resolve_same_code _ _ _ Er) as (Ht & Hs & Hin).
    assert (Hne : Coupon.code c <> "").
    { apply truthy_spec. rewrite <- toLowerCase_truthy, Hs, toLowerCase_truthy. exact Ht. }
    destruct (fs_writable w) eqn:Hw; cbn.
    + refine (conj eq_refl (conj eq_refl (conj _ (conj _ _)))).
      * intros ch' Hch. now rewrite lookup_insert_ne.
      * discriminate.
      * intros c' [= <-]. refine (conj Hne (conj Hs (conj _ _))); [| discriminate].
        intros _. split; [reflexivity | apply lookup_insert_eq].
    + refine (conj eq_refl (conj eq_refl (conj (fun _ _ => eq_refl) (conj _ _)))).
      * discriminate.
      * intros c' [= <-]. refine (conj Hne (conj Hs (conj _ _))); [discriminate |].
        intros _. split; reflexivity.
  - refine (conj eq_refl (conj eq_refl (conj (fun _ _ => eq_refl) (conj _ _)))).
    + intros _. split; reflexivity.
    + discriminate.
Qed.

Lemma incrementCouponUse_fs code w :
  fs_writable (snd (incrementCouponUse code w)) = fs_writable w.
Proof.
  destruct (incrementCouponUse_effect code w)
    as [(idx & c & _ & _ & _ & ->) | ->]; [| reflexivity].
  destruct (fs_writable w) eqn:E; cbn; now rewrite ?E.
Qed.

(** X15 (main file: the coupon form, the [choose_prod:] branch and the
    confirmation of the webhooks; utils/coupons.js, [findCoupon] and
    [incrementCouponUse]). A coupon is not reserved by an order: as long
    as no payment is confirmed, the same code is accepted again, so two
    orders (in one channel or in two) both get the coupon and its
    discount, and the ledger is untouched; this is with a chat platform
    that takes the line each selection posts about the coupon before it
    stores its order. When both orders are then
    paid, both keep the coupon and the discounted total, and the ledger
    has seen two calls of [incrementCouponUse], of which a capped coupon
    counts only those that fit its cap. *)
Theorem coupon_shared_by_pending_orders
    (ch1 ch2 input : string) (i1 i2 : Interaction) (oid1 oid2 : string)
    (w : World) (prod1 prod2 : Product.t) (c : Coupon.t) (p1 p2 : PaymentPatch) :
  fs_writable w = true -> store_consistent (orders w) ->
  fst (findCoupon (trim input) w) = Return (Some c) ->
  i_channelId i1 = ch1 -> i_channelId i2 = ch2 ->
  selected_product products i1 = Some prod1 ->
  selected_product products i2 = Some prod2 ->
  oid1 <> oid2 ->
  channel_send (coupon_posting prod1 c) = Return tt ->
  channel_send (coupon_posting prod2 c) = Return tt ->
  let w1 := snd (coupon_modal_submit ch1 input w) in
  let w2 := snd (choose_prod products channel_send i1 oid1 w1) in
  let w3 := snd (coupon_modal_submit ch2 input w2) in
  let w4 := snd (choose_prod products channel_send i2 oid2 w3) in
  let w5 := snd (confirmation oid1 p1 w4) in
  let w6 := snd (confirmation oid2 p2 w5) in
  let o1 := order_for oid1 i1 prod1 (Some c) in
  let o2 := order_for oid2 i2 prod2 (Some c) in
  (orders w4 !! oid1 = Some o1 /\ orders w4 !! oid2 = Some o2 /\
   coupons w4 = coupons w) /\
  (orders w6 !! oid1 = Some (mark_couponUsed (paid_order o1 p1)) /\
   orders w6 !! oid2 = Some (mark_couponUsed (paid_order o2 p2)) /\
   coupons w6 = coupons (incrementCouponUse_times 2 (Coupon.code c) w) /\
   paidNotices w6 = (paidNotices w ++ [oid1; oid2])%list).
Proof.
  intros Hw Hcons Hf Hi1 Hi2 Hs1 Hs2 Hne Hp1 Hp2 w1 w2 w3 w4 w5 w6 o1 o2.
  rewrite findCoupon_resolve in Hf. injection Hf as Hr.
  pose proof (resolve_own_code _ _ _ Hr) as Hown.
  destruct (resolve_same_code _ _ _ Hown) as (Ht & _ & _).
  set (pend := Pending.mk (Coupon.code c) (Coupon.type c) (Coupon.value c)
                          (Coupon.maxUses c)).
  (* the first submission and selection *)
  assert (E1 : w1 = set_pendingCoupons (<[ch1 := pend]> (pendingCoupons w)) w).
  { subst w1. unfold coupon_modal_submit, bind. rewrite findCoupon_resolve, Hr.
    unfold setPendingCoupon, bind, readAll_pending, writeAll_pending, writeFile.
    rewrite Hw. reflexivity. }
  assert (Hw1 : fs_writable w1 = true) by (rewrite E1; exact Hw).
  assert (E2 : w2 = set_orders (<[oid1 := o1]> (orders w1))
                      (set_pendingCoupons (delete ch1 (pendingCoupons w1)) w1)).
  { subst w2. rewrite (choose_prod_effect products channel_send i1 oid1 w1 prod1 Hw1 Hs1).
    cbv zeta. rewrite Hi1. rewrite E1 at 1. cbn [pendingCoupons set_pendingCoupons].
    rewrite lookup_insert_eq. cbn [Pending.code pend]. rewrite Ht.
    replace (coupons w1) with (coupons w) by (rewrite E1; reflexivity).
    now rewrite Hown, Hp1. }
  assert (Hw2 : fs_writable w2 = true) by (rewrite E2; exact Hw1).
  assert (Hc2 : coupons w2 = coupons w) by (rewrite E2, E1; reflexivity).
  (* the second submission and selection *)
  assert (E3 : w3 = set_pendingCoupons (<[ch2 := pend]> (pendingCoupons w2)) w2).
  { subst w3. unfold coupon_modal_submit, bind. rewrite findCoupon_resolve, Hc2, Hr.
    unfold setPendingCoupon, bind, readAll_pending, writeAll_pending, writeFile.
    rewrite Hw2. reflexivity. }
  assert (Hw3 : fs_writable w3 = true) by (rewrite E3; exact Hw2).
  assert (E4 : w4 = set_orders (<[oid2 := o2]> (orders w3))
                      (set_pendingCoupons (delete ch2 (pendingCoupons w3)) w3)).
  { subst w4. rewrite (choose_prod_effect products channel_send i2 oid2 w3 prod2 Hw3 Hs2).
    cbv zeta. rewrite Hi2. rewrite E3 at 1. cbn [pendingCoupons set_pendingCoupons].
    rewrite lookup_insert_eq. cbn [Pending.code pend]. rewrite Ht.
    replace (coupons w3) with (coupons w) by (rewrite E3; exact (eq_sym Hc2)).
    now rewrite Hown, Hp2. }
  assert (Hw4 : fs_writable w4 = true) by (rewrite E4; exact Hw3).
  assert (Hc4 : coupons w4 = coupons w) by (rewrite E4, E3; exact Hc2).
  assert (Ho4 : orders w4 = <[oid2 := o2]> (<[oid1 := o1]> (orders w))).
  { rewrite E4, E3, E2, E1. reflexivity. }
  assert (Hn4 : paidNotices w4 = paidNotices w).
  { rewrite E4, E3, E2, E1. reflexivity. }
  assert (H41 : orders w4 !! oid1 = Some o1).
  { rewrite Ho4, lookup_insert_ne by congruence. apply lookup_insert_eq. }
  assert (H42 : orders w4 !! oid2 = Some o2).
  { rewrite Ho4. apply lookup_insert_eq. }
  split; [exact (conj H41 (conj H42 Hc4)) |].
  (* the two confirmations *)
  assert (Hcons4 : store_consistent (orders w4)).
  { rewrite Ho4. apply insert_consistent; [apply insert_consistent |];
      [exact Hcons | reflexivity | reflexivity]. }
  assert (Hcode : forall oid i prod,
            order_coupon_code (order_for oid i prod (Some c)) = Some (Coupon.code c)).
  { intros. unfold order_coupon_code. cbn. now rewrite Ht. }
  assert (E5 : w5 = mkWorld (ledger_after_confirmation o1 w4) (pendingCoupons w4)
                      (<[oid1 := confirmed_order o1 p1]> (orders w4)) true
                      (paidNotices w4 ++ [oid1])).
  { subst w5. rewrite (confirmation_pending oid1 p1 w4 o1 Hw4 Hcons4 H41); [reflexivity |].
    discriminate. }
  assert (Hcons5 : store_consistent (orders w5)).
  { subst w5. now apply confirmation_consistent. }
  assert (H52 : orders w5 !! oid2 = Some o2).
  { rewrite E5. cbn [orders]. now rewrite lookup_insert_ne. }
  assert (E6 : w6 = mkWorld (ledger_after_confirmation o2 w5) (pendingCoupons w5)
                      (<[oid2 := confirmed_order o2 p2]> (orders w5)) true
                      (paidNotices w5 ++ [oid2])).
  { subst w6. rewrite (confirmation_pending oid2 p2 w5 o2); [reflexivity | | | |].
    - rewrite E5. reflexivity.
    - exact Hcons5.
    - exact H52.
    - discriminate. }
  assert (Hco : forall o p, order_coupon_code o = Some (Coupon.code c) ->
            Pricing.couponUsedMarked (Order.pricing o) = false ->
            confirmed_order o p = mark_couponUsed (paid_order o p)).
  { intros o p Ho Hm. unfold confirmed_order. now rewrite Ho, Hm. }
  assert (Hl : forall o v, order_coupon_code o = Some (Coupon.code c) ->
            Pricing.couponUsedMarked (Order.pricing o) = false ->
            ledger_after_confirmation o v = coupons (snd (incrementCouponUse (Coupon.code c) v))).
  { intros o v Ho Hm. unfold ledger_after_confirmation. now rewrite Ho, Hm. }
  rewrite E6. cbn [orders coupons paidNotices].
  rewrite !Hco by (apply Hcode || reflexivity).
  rewrite (Hl o2 w5) by (apply Hcode || reflexivity).
  refine (conj _ (conj _ (conj _ _))).
  - rewrite lookup_insert_ne by congruence. rewrite E5. cbn [orders].
    rewrite Hco by (apply Hcode || reflexivity). apply lookup_insert_eq.
  - apply lookup_insert_eq.
  - change (incrementCouponUse_times 2 (Coupon.code c) w)
      with (snd (incrementCouponUse (Coupon.code c)
                   (snd (incrementCouponUse (Coupon.code c) w)))).
    apply incrementCouponUse_ledger.
    + rewrite E5. cbn [coupons]. rewrite (Hl o1 w4) by (apply Hcode || reflexivity).
      now apply incrementCouponUse_ledger; rewrite ?Hw4, ?Hw.
    + rewrite incrementCouponUse_fs, E5, Hw. reflexivity.
  - rewrite E5. cbn [paidNotices]. rewrite Hn4, <- List.app_assoc. reflexivity.
Qed.

End SelectionProperties.
(** * The payment buttons *)

Lemma toFixed2_string_cents (c : Z) (x : Q) :
  (0 <= c)%Z -> x == inject_Z c / 100 -> toFixed2_string x = cents_toFixed2 c.
Proof.
  intros Hc Hx. unfold toFixed2_string, cents_toFixed2.
  assert (H0 : 0 <= inject_Z c) by (change 0 with (inject_Z 0); rewrite <- Zle_Qle; exact Hc).
  assert (Hx0 : 0 <= x).
  { rewrite Hx. unfold Qdiv. change (/ 100) with (1 # 100). lra. }
  assert (Qlt_bool x 0 = false) as ->.
  { destruct (Qlt_bool x 0) eqn:E; [| reflexivity]. apply Qlt_bool_iff in E. lra. }
  assert (Qfloor (x * 100 + (1 # 2)) = c) as ->.
  { apply floor_unique; rewrite Hx; unfold Qdiv; change (/ 100) with (1 # 100); lra. }
  assert ((c <? 0)%Z = false) as -> by (apply Z.ltb_ge; exact Hc).
  now rewrite Zabs2N.abs_N_nonneg.
Qed.

(** The same for the double written with two decimals: the amount of an
    order priced in whole cents is sent as those two decimals. *)
Lemma toFixed2_string_double (c : Z) :
  (0 <= c <= max_cents)%Z -> toFixed2_string (cents c) = cents_toFixed2 c.
Proof.
  intros Hc. unfold toFixed2_string, cents_toFixed2.
  destruct (base_dollars c Hc) as (_ & Hx0 & Hn).
  assert (inject_Z c / 100 == inject_Z c * (1 # 100)) as E by reflexivity.
  rewrite E in Hn. set (x := cents c) in *.
  assert (Qlt_bool x 0 = false) as ->.
  { destruct (Qlt_bool x 0) eqn:B; [| reflexivity]. apply Qlt_bool_iff in B. lra. }
  assert (Qfloor (x * 100 + (1 # 2)) = c) as -> by (apply floor_unique; lra).
  assert ((c <? 0)%Z = false) as -> by (apply Z.ltb_ge; lia).
  now rewrite Zabs2N.abs_N_nonneg by lia.
Qed.

Lemma payment_block_only_refl w : payment_block_only w w.
Proof.
  refine (conj eq_refl (conj eq_refl (conj eq_refl (conj eq_refl _)))).
  intro k. destruct (orders w !! k); [| exact I]. auto 10.
Qed.

Lemma payment_block_only_update w o pay :
  orders w !! Order.id o = Some o -> Order.status o <> "paid" ->
  Payment.paidAmount pay = Payment.paidAmount (Order.payment o) ->
  payment_block_only w
    (set_orders (<[Order.id o := with_payment o pay]> (orders w)) w).
Proof.
  intros Ho Hs Hp.
  refine (conj eq_refl (conj eq_refl (conj eq_refl (conj eq_refl _)))).
  intro k. cbn [orders set_orders]. destruct (decide (Order.id o = k)) as [<- | Hk].
  - rewrite Ho, lookup_insert_eq. cbn.
    repeat split; try reflexivity; [exact Hp | intro; contradiction].
  - rewrite lookup_insert_ne by exact Hk.
    destruct (orders w !! k); [| exact I]. auto 10.
Qed.

Lemma named_order_stored (i : Interaction) w o :
  store_consistent (orders w) ->
  (split_colon_1 (customId i) ≫= fun k => orders w !! k) = Some o ->
  orders w !! Order.id o = Some o.
Proof.
  intros Hc H. destruct (split_colon_1 (customId i)) as [k |]; [| discriminate].
  cbn in H. now rewrite (Hc k o H).
Qed.

Lemma upsertOrder_eq o w :
  upsertOrder o w =
    if fs_writable w
    then (Return tt, set_orders (<[Order.id o := o]> (orders w)) w)
    else (Throws "EACCES", w).
Proof.
  unfold upsertOrder, bind, readOrders, writeOrders, writeFile, ret.
  now destruct (fs_writable w).
Qed.

Section PayProperties.

Variable JSON_stringify_body : InvoiceBody -> string.
Variable JSON_stringify_data : option InvoiceData -> string.
Variable base64 md5_hex : string -> string.
Variable fetch : HttpRequest -> outcome HttpResponse.
Variable createStripeCheckout : Env -> CheckoutArgs -> outcome Checkout.
Variable send_pay_link : string -> Order.t -> option string -> outcome unit.

Abbreviation crypto_button :=
  (pay_crypto JSON_stringify_body JSON_stringify_data base64 md5_hex fetch send_pay_link).
Abbreviation stripe_button := (pay_stripe createStripeCheckout send_pay_link).
Abbreviation crypto_finish := (pay_crypto_finish send_pay_link).
Abbreviation stripe_finish := (pay_stripe_finish send_pay_link).
Abbreviation invoice_for :=
  (createCryptomusInvoice JSON_stringify_body JSON_stringify_data base64 md5_hex fetch).

(** The order a payment button names. *)
Abbreviation named_order i w := (split_colon_1 (customId i) ≫= fun k => orders w !! k).

Lemma pay_crypto_finish_eq o inv w :
  crypto_finish o inv w =
    if fs_writable w
    then (match send_pay_link "crypto" o (Some (invoice_url inv)) with
          | Return _ => Return PaymentLinkSent
          | Throws e => Throws e
          end,
          set_orders (<[Order.id o := with_payment o (crypto_payment o inv)]> (orders w)) w)
    else (Throws "EACCES", w).
Proof.
  unfold pay_crypto_finish, bind at 1. rewrite upsertOrder_eq.
  destruct (fs_writable w); [| reflexivity].
  unfold bind, lift, ret. cbn [Order.id with_payment].
  now destruct (send_pay_link "crypto" o (Some (invoice_url inv))) as [[] | e].
Qed.

Lemma pay_crypto_cases i env penv w :
  String.prefix "pay_crypto:" (customId i) = true ->
  crypto_button i env penv w =
    match named_order i w with
    | None => (Return OrderNotFound, w)
    | Some o =>
        if String.eqb (Order.status o) "paid" then (Return AlreadyPaid, w) else
        match invoice_for (crypto_invoice_args o penv) env penv with
        | Throws e => (Return (PayError e), w)
        | Return inv =>
            if fs_writable w
            then (match send_pay_link "crypto" o (Some (invoice_url inv)) with
                  | Return _ => Return PaymentLinkSent
                  | Throws e => Return (PayError e)
                  end,
                  set_orders
                    (<[Order.id o := with_payment o (crypto_payment o inv)]> (orders w)) w)
            else (Return (PayError "EACCES"), w)
        end
    end.
Proof.
  intro Hp. unfold pay_crypto. rewrite Hp. cbn [negb].
  unfold try_catch, bind at 1, getOrderById, bind at 1, readOrders, ret at 1.
  destruct (named_order i w) as [o |]; [| reflexivity].
  destruct (String.eqb (Order.status o) "paid"); [reflexivity |].
  unfold bind at 1, lift at 1.
  destruct (invoice_for (crypto_invoice_args o penv) env penv) as [inv | e]; [| reflexivity].
  rewrite pay_crypto_finish_eq. destruct (fs_writable w); [| reflexivity].
  now destruct (send_pay_link "crypto" o (Some (invoice_url inv))).
Qed.

Lemma pay_stripe_cases i env penv w :
  String.prefix "pay_stripe:" (customId i) = true ->
  stripe_button i env penv w =
    match named_order i w with
    | None => (Return OrderNotFound, w)
    | Some o =>
        if String.eqb (Order.status o) "paid" then (Return AlreadyPaid, w) else
        match createStripeCheckout env (stripe_checkout_args o penv) with
        | Throws e => (Return (PayError e), w)
        | Return session =>
            if fs_writable w
            then (match send_pay_link "stripe" o (checkout_url session) with
                  | Return _ => Return CheckoutLinkSent
                  | Throws e => Return (PayError e)
                  end,
                  set_orders
                    (<[Order.id o := with_payment o (stripe_payment o session)]> (orders w)) w)
            else (Return (PayError "EACCES"), w)
        end
    end.
Proof.
  intro Hp. unfold pay_stripe. rewrite Hp. cbn [negb].
  unfold try_catch, bind at 1, getOrderById, bind at 1, readOrders, ret at 1.
  destruct (named_order i w) as [o |]; [| reflexivity].
  destruct (String.eqb (Order.status o) "paid"); [reflexivity |].
  unfold bind at 1, lift at 1.
  destruct (createStripeCheckout env (stripe_checkout_args o penv)) as [session | e];
    [| reflexivity].
  unfold pay_stripe_finish, bind at 1. rewrite upsertOrder_eq.
  destruct (fs_writable w); [| reflexivity].
  unfold bind, lift, ret. cbn [Order.id with_payment].
  now destruct (send_pay_link "stripe" o (checkout_url session)) as [[] | e].
Qed.

Lemma pay_crypto_block i env penv w :
  store_consistent (orders w) ->
  payment_block_only w (snd (crypto_button i env penv w)) /\
  store_consistent (orders (snd (crypto_button i env penv w))).
Proof.
  intro Hcons. destruct (String.prefix "pay_crypto:" (customId i)) eqn:Hp.
  2:{ unfold pay_crypto. rewrite Hp. split; [apply payment_block_only_refl | exact Hcons]. }
  rewrite (pay_crypto_cases i env penv w Hp).
  destruct (named_order i w) as [o |] eqn:Hn;
    [| split; [apply payment_block_only_refl | exact Hcons]].
  pose proof (named_order_stored i w o Hcons Hn) as Ho.
  destruct (String.eqb (Order.status o) "paid") eqn:Hs;
    [split; [apply payment_block_only_refl | exact Hcons] |].
  apply String.eqb_neq in Hs.
  destruct (invoice_for (crypto_invoice_args o penv) env penv) as [inv | e];
    [| split; [apply payment_block_only_refl | exact Hcons]].
  destruct (fs_writable w); [| split; [apply payment_block_only_refl | exact Hcons]].
  cbn [snd]. split.
  - now apply payment_block_only_update.
  - apply insert_consistent; [exact Hcons | reflexivity].
Qed.

Lemma pay_stripe_block i env penv w :
  store_consistent (orders w) ->
  payment_block_only w (snd (stripe_button i env penv w)) /\
  store_consistent (orders (snd (stripe_button i env penv w))).
Proof.
  intro Hcons. destruct (String.prefix "pay_stripe:" (customId i)) eqn:Hp.
  2:{ unfold pay_stripe. rewrite Hp. split; [apply payment_block_only_refl | exact Hcons]. }
  rewrite (pay_stripe_cases i env penv w Hp).
  destruct (named_order i w) as [o |] eqn:Hn;
    [| split; [apply payment_block_only_refl | exact Hcons]].
  pose proof (named_order_stored i w o Hcons Hn) as Ho.
  destruct (String.eqb (Order.status o) "paid") eqn:Hs;
    [split; [apply payment_block_only_refl | exact Hcons] |].
  apply String.eqb_neq in Hs.
  destruct (createStripeCheckout env (stripe_checkout_args o penv)) as [session | e];
    [| split; [apply payment_block_only_refl | exact Hcons]].
  destruct (fs_writable w); [| split; [apply payment_block_only_refl | exact Hcons]].
  cbn [snd]. split.
  - now apply payment_block_only_update.
  - apply insert_consistent; [exact Hcons | reflexivity].
Qed.

Lemma pay_stripe_finish_eq o session w :
  stripe_finish o session w =
    if fs_writable w
    then (match send_pay_link "stripe" o (checkout_url session) with
          | Return _ => Return CheckoutLinkSent
          | Throws e => Throws e
          end,
          set_orders (<[Order.id o := with_payment o (stripe_payment o session)]> (orders w)) w)
    else (Throws "EACCES", w).
Proof.
  unfold pay_stripe_finish, bind at 1. rewrite upsertOrder_eq.
  destruct (fs_writable w); [| reflexivity].
  unfold bind, lift, ret. cbn [Order.id with_payment].
  now destruct (send_pay_link "stripe" o (checkout_url session)) as [[] | e].
Qed.

(** X16 (main file, the [pay_crypto:] and [pay_stripe:] branches of the
    button handler). A button handled from its reading of the order to its
    writing, with no other handler in between: whatever the providers and
    the chat platform do, it changes nothing but the method, provider,
    address and transaction id of the order it names, and only when that
    order is not paid: the ledger, the pending coupons and every status,
    price, coupon and paid amount stay as they are, no order appears or
    disappears, and a paid order is left untouched. A button that names
    no stored order is answered "order not found" and one that names a
    paid order "already paid", in both cases without calling the
    provider. The handler awaits the provider between the reading and the
    writing, and other handlers can run meanwhile: then its writing, in
    whatever state it finds, still touches no order but the one it names,
    nor the ledger, the pending coupons or the notices, but it stores that
    order as it was read at the start, with the new payment data, over
    what has been written to it since. *)
Theorem pay_buttons_change_payment_block_only
    (i : Interaction) (env : Env) (penv : ProcessEnv) (w : World) :
  store_consistent (orders w) ->
  let rc := crypto_button i env penv w in
  let rs := stripe_button i env penv w in
  payment_block_only w (snd rc) /\ payment_block_only w (snd rs) /\
  store_consistent (orders (snd rc)) /\ store_consistent (orders (snd rs)) /\
  (named_order i w = None ->
     (String.prefix "pay_crypto:" (customId i) = true -> rc = (Return OrderNotFound, w)) /\
     (String.prefix "pay_stripe:" (customId i) = true -> rs = (Return OrderNotFound, w))) /\
  (forall o, named_order i w = Some o -> Order.status o = "paid" ->
     (String.prefix "pay_crypto:" (customId i) = true -> rc = (Return AlreadyPaid, w)) /\
     (String.prefix "pay_stripe:" (customId i) = true -> rs = (Return AlreadyPaid, w))) /\
  (forall o, named_order i w = Some o -> Order.status o <> "paid" ->
     (String.prefix "pay_crypto:" (customId i) = true ->
      forall inv, invoice_for (crypto_invoice_args o penv) env penv = Return inv ->
        rc = try_catch (crypto_finish o inv) (fun e => ret (PayError e)) w) /\
     (String.prefix "pay_stripe:" (customId i) = true ->
      forall session,
        createStripeCheckout env (stripe_checkout_args o penv) = Return session ->
        rs = try_catch (stripe_finish o session) (fun e => ret (PayError e)) w)) /\
  (forall o inv session w',
     let wc := snd (crypto_finish o inv w') in
     let ws := snd (stripe_finish o session w') in
     (coupons wc = coupons w' /\ pendingCoupons wc = pendingCoupons w' /\
      paidNotices wc = paidNotices w' /\
      forall k, k <> Order.id o -> orders wc !! k = orders w' !! k) /\
     (coupons ws = coupons w' /\ pendingCoupons ws = pendingCoupons w' /\
      paidNotices ws = paidNotices w' /\
      forall k, k <> Order.id o -> orders ws !! k = orders w' !! k) /\
     (fs_writable w' = true ->
      orders wc !! Order.id o = Some (with_payment o (crypto_payment o inv)) /\
      orders ws !! Order.id o = Some (with_payment o (stripe_payment o session)) /\
      Order.status (with_payment o (crypto_payment o inv)) = Order.status o /\
      Order.status (with_payment o (stripe_payment o session)) = Order.status o /\
      Order.pricing (with_payment o (crypto_payment o inv)) = Order.pricing o /\
      Order.pricing (with_payment o (stripe_payment o session)) = Order.pricing o)).
Proof.
  intros Hcons rc rs.
  pose proof (pay_crypto_block i env penv w Hcons) as Hc.
  pose proof (pay_stripe_block i env penv w Hcons) as Hs.
  refine (conj (proj1 Hc) (conj (proj1 Hs) (conj (proj2 Hc) (conj (proj2 Hs)
            (conj _ (conj _ (conj _ _))))))).
  - intro Hn. split; intro Hp; subst rc rs.
    + now rewrite (pay_crypto_cases i env penv w Hp), Hn.
    + now rewrite (pay_stripe_cases i env penv w Hp), Hn.
  - intros o Hn Hpaid. apply String.eqb_eq in Hpaid. split; intro Hp; subst rc rs.
    + now rewrite (pay_crypto_cases i env penv w Hp), Hn, Hpaid.
    + now rewrite (pay_stripe_cases i env penv w Hp), Hn, Hpaid.
  - intros o Hn Hpaid. apply String.eqb_neq in Hpaid. split; intro Hp; subst rc rs.
    + intros inv Hinv. rewrite (pay_crypto_cases i env penv w Hp), Hn, Hpaid, Hinv.
      unfold try_catch. rewrite pay_crypto_finish_eq.
      destruct (fs_writable w); [| reflexivity].
      now destruct (send_pay_link "crypto" o (Some (invoice_url inv))).
    + intros session Hse. rewrite (pay_stripe_cases i env penv w Hp), Hn, Hpaid, Hse.
      unfold try_catch. rewrite pay_stripe_finish_eq.
      destruct (fs_writable w); [| reflexivity].
      now destruct (send_pay_link "stripe" o (checkout_url session)).
  - intros o inv session w' wc ws. subst wc ws.
    rewrite pay_crypto_finish_eq, pay_stripe_finish_eq.
    destruct (fs_writable w') eqn:Hw; cbn [snd].
    + refine (conj _ (conj _ _)).
      * destruct w'. cbn. repeat split. intros k Hk. now rewrite lookup_insert_ne.
      * destruct w'. cbn. repeat split. intros k Hk. now rewrite lookup_insert_ne.
      * intros _. destruct w'. cbn [orders set_orders].
        rewrite !lookup_insert_eq. destruct o. repeat split.
    + refine (conj _ (conj _ _)); [repeat split .. | discriminate].
Qed.

Lemma createCryptomusInvoice_no_key a env penv :
  fst (getEnv env penv) <> "" ->
  CRYPTOMUS_API_KEY env = None \/ CRYPTOMUS_API_KEY env = Some "" ->
  invoice_for a env penv = Throws "Missing CRYPTOMUS_API_KEY".
Proof.
  intros Hm Hk. unfold createCryptomusInvoice.
  destruct (getEnv env penv) as [merchant apiKey] eqn:E. cbn [fst] in Hm.
  apply truthy_spec in Hm. rewrite Hm. cbn [negb].
  assert (apiKey = "") as ->; [| reflexivity].
  unfold getEnv in E. injection E as _ <-.
  apply (proj2 (first_truthy_empty [CRYPTOMUS_API_KEY env])).
  constructor; [exact Hk | constructor].
Qed.

Lemma createCryptomusInvoice_url a env penv inv :
  invoice_for a env penv = Return inv -> invoice_url inv <> "".
Proof.
  unfold createCryptomusInvoice. destruct (getEnv env penv) as [merchant apiKey].
  destruct (negb (truthy merchant)); [discriminate |].
  destruct (negb (truthy apiKey)); [discriminate |].
  destruct (fetch _) as [res | e]; [| discriminate].
  destruct (res_ok res); [| discriminate].
  destruct (or_null (res_data res ≫= data_result_url)) as [url |] eqn:Hu; [| discriminate].
  intros [= <-]. cbn. now apply or_null_Some in Hu.
Qed.

(** X17 (main file, the [pay_crypto:] branch; utils/crypto.js,
    [createCryptomusInvoice]). For a stored order that is not paid, the
    invoice is asked for the order's total, written with two decimals (for
    a total of [c] whole cents exactly the decimal form of [c] cents), and
    under the order's id. When the invoice cannot be created the reply is
    the provider's error and nothing changes; so it is without an API
    key, where the error is "Missing CRYPTOMUS_API_KEY". When the invoice
    is there, its address is not empty and is stored with the order
    together with the invoice uuid as transaction id; the order is then
    updated even when posting the link fails, in which case the reply is
    that error. On a file system that refuses writes the link is created
    but neither stored nor posted. *)
Theorem pay_crypto_link
    (i : Interaction) (env : Env) (penv : ProcessEnv) (w : World) (o : Order.t) :
  String.prefix "pay_crypto:" (customId i) = true ->
  named_order i w = Some o -> Order.status o <> "paid" ->
  let args := crypto_invoice_args o penv in
  let r := crypto_button i env penv w in
  inv_amountUsd args = Pricing.total (Order.pricing o) /\
  inv_orderId args = Order.id o /\
  body_amount (invoice_body args) = toFixed2_string (Pricing.total (Order.pricing o)) /\
  (forall c : Z, (0 <= c)%Z -> Pricing.total (Order.pricing o) == inject_Z c / 100 ->
     body_amount (invoice_body args) = cents_toFixed2 c) /\
  (forall e, invoice_for args env penv = Throws e -> r = (Return (PayError e), w)) /\
  (fst (getEnv env penv) <> "" ->
   CRYPTOMUS_API_KEY env = None \/ CRYPTOMUS_API_KEY env = Some "" ->
   r = (Return (PayError "Missing CRYPTOMUS_API_KEY"), w)) /\
  (forall inv, invoice_for args env penv = Return inv ->
     invoice_url inv <> "" /\
     (fs_writable w = false -> r = (Return (PayError "EACCES"), w)) /\
     (fs_writable w = true ->
        orders (snd r) !! Order.id o =
          Some (with_payment o
                  (Payment.mk (Some "crypto") (Some "cryptomus") (Some (invoice_url inv))
                     (invoice_uuid inv) (Payment.paidAmount (Order.payment o)))) /\
        (send_pay_link "crypto" o (Some (invoice_url inv)) = Return tt ->
           fst r = Return PaymentLinkSent) /\
        (forall e, send_pay_link "crypto" o (Some (invoice_url inv)) = Throws e ->
           fst r = Return (PayError e)))).
Proof.
  intros Hp Hn Hs args r.
  assert (E : r = match invoice_for args env penv with
        | Throws e => (Return (PayError e), w)
        | Return inv =>
            if fs_writable w
            then (match send_pay_link "crypto" o (Some (invoice_url inv)) with
                  | Return _ => Return PaymentLinkSent
                  | Throws e => Return (PayError e)
                  end,
                  set_orders
                    (<[Order.id o := with_payment o (crypto_payment o inv)]> (orders w)) w)
            else (Return (PayError "EACCES"), w)
        end).
  { subst r. rewrite (pay_crypto_cases i env penv w Hp), Hn.
    apply String.eqb_neq in Hs. now rewrite Hs. }
  refine (conj eq_refl (conj eq_refl (conj eq_refl (conj _ (conj _ (conj _ _)))))).
  - intros c Hc Ht. now apply toFixed2_string_cents.
  - intros e He. now rewrite E, He.
  - intros Hm Hk. now rewrite E, (createCryptomusInvoice_no_key args env penv Hm Hk).
  - intros inv Hi. rewrite E, Hi.
    refine (conj (createCryptomusInvoice_url _ _ _ _ Hi) (conj _ _)).
    + now intros ->.
    + intros ->. cbn [fst snd orders set_orders].
      refine (conj (lookup_insert_eq _ _ _) (conj _ _)).
      * now intros ->.
      * intros e ->. reflexivity.
Qed.

(** X18 (main file, the [pay_crypto:] branch and the confirmation of the
    webhooks). The handler reads the order, waits for the invoice and then
    writes the order back as it had read it, with the link. With nothing
    in between that is the whole run. When a payment of the order is
    confirmed while the handler waits, the write that follows puts the
    order back as it was read: not paid and its coupon use not recorded,
    although the ledger has counted the use. A further notification for
    the order then confirms it anew: the ledger sees a second call of
    [incrementCouponUse] and the payment is announced a second time. *)
Theorem pay_link_written_after_confirmation
    (i : Interaction) (env : Env) (penv : ProcessEnv) (w : World)
    (o : Order.t) (code : string) (inv : Invoice) (p p' : PaymentPatch) :
  String.prefix "pay_crypto:" (customId i) = true ->
  fs_writable w = true -> store_consistent (orders w) ->
  named_order i w = Some o -> Order.status o <> "paid" ->
  order_coupon_code o = Some code ->
  Pricing.couponUsedMarked (Order.pricing o) = false ->
  invoice_for (crypto_invoice_args o penv) env penv = Return inv ->
  let oid := Order.id o in
  let linked := with_payment o (crypto_payment o inv) in
  let w1 := snd (confirmation oid p w) in
  let w2 := snd (crypto_finish o inv w1) in
  let w3 := snd (confirmation oid p' w2) in
  crypto_button i env penv w =
    try_catch (crypto_finish o inv) (fun e => ret (PayError e)) w /\
  orders w1 !! oid = Some (mark_couponUsed (paid_order o p)) /\
  orders w2 !! oid = Some linked /\
  Order.status linked <> "paid" /\
  Pricing.couponUsedMarked (Order.pricing linked) = false /\
  coupons w2 = coupons (snd (incrementCouponUse code w)) /\
  orders w3 !! oid = Some (mark_couponUsed (paid_order linked p')) /\
  coupons w3 = coupons (incrementCouponUse_times 2 code w) /\
  paidNotices w3 = (paidNotices w ++ [oid; oid])%list.
Proof.
  intros Hp Hw Hcons Hn Hs Hcode Hm Hinv oid linked w1 w2 w3.
  pose proof (named_order_stored i w o Hcons Hn) as Ho. fold oid in Ho.
  assert (Hco : forall o0 q, order_coupon_code o0 = Some code ->
            Pricing.couponUsedMarked (Order.pricing o0) = false ->
            confirmed_order o0 q = mark_couponUsed (paid_order o0 q)).
  { intros o0 q H1 H2. unfold confirmed_order. now rewrite H1, H2. }
  assert (Hl : forall o0 v, order_coupon_code o0 = Some code ->
            Pricing.couponUsedMarked (Order.pricing o0) = false ->
            ledger_after_confirmation o0 v = coupons (snd (incrementCouponUse code v))).
  { intros o0 v H1 H2. unfold ledger_after_confirmation. now rewrite H1, H2. }
  assert (E1 : w1 = mkWorld (coupons (snd (incrementCouponUse code w))) (pendingCoupons w)
                      (<[oid := mark_couponUsed (paid_order o p)]> (orders w)) true
                      (paidNotices w ++ [oid])).
  { subst w1. rewrite (confirmation_pending oid p w o Hw Hcons Ho Hs).
    cbn [snd]. now rewrite (Hl o w Hcode Hm), (Hco o p Hcode Hm). }
  assert (E2 : w2 = set_orders (<[oid := linked]> (orders w1)) w1).
  { subst w2. rewrite pay_crypto_finish_eq. rewrite E1 at 1. cbn [fs_writable].
    reflexivity. }
  assert (Hw2 : fs_writable w2 = true) by (rewrite E2, E1; reflexivity).
  assert (Hcons2 : store_consistent (orders w2)).
  { rewrite E2. cbn [orders set_orders]. apply insert_consistent; [| reflexivity].
    subst w1. now apply confirmation_consistent. }
  assert (Ho2 : orders w2 !! oid = Some linked).
  { rewrite E2. apply lookup_insert_eq. }
  assert (Hs2 : Order.status linked <> "paid") by exact Hs.
  assert (E3 : w3 = mkWorld (coupons (snd (incrementCouponUse code w2))) (pendingCoupons w2)
                      (<[oid := mark_couponUsed (paid_order linked p')]> (orders w2)) true
                      (paidNotices w2 ++ [oid])).
  { subst w3. rewrite (confirmation_pending oid p' w2 linked Hw2 Hcons2 Ho2 Hs2).
    cbn [snd]. now rewrite (Hl linked w2 Hcode Hm), (Hco linked p' Hcode Hm). }
  refine (conj _ (conj _ (conj Ho2 (conj Hs2 (conj Hm (conj _ (conj _ (conj _ _)))))))).
  - rewrite (pay_crypto_cases i env penv w Hp), Hn.
    apply String.eqb_neq in Hs. rewrite Hs, Hinv.
    unfold try_catch. rewrite pay_crypto_finish_eq, Hw.
    now destruct (send_pay_link "crypto" o (Some (invoice_url inv))).
  - rewrite E1. apply lookup_insert_eq.
  - rewrite E2, E1. reflexivity.
  - rewrite E3. apply lookup_insert_eq.
  - rewrite E3. cbn [coupons].
    change (incrementCouponUse_times 2 code w)
      with (snd (incrementCouponUse code (snd (incrementCouponUse code w)))).
    apply incrementCouponUse_ledger.
    + rewrite E2, E1. reflexivity.
    + rewrite incrementCouponUse_fs, Hw2, Hw. reflexivity.
  - rewrite E3, E2, E1. cbn [paidNotices set_orders]. now rewrite <- List.app_assoc.
Qed.

End PayProperties.
(** * The [+dn] and [+close] messages *)

Section CloseProperties.

Variable user_found channel_found : string -> bool.

Abbreviation handle := (on_message user_found channel_found).

Lemma authorized_checks m penv :
  authorized m penv ->
  m_inGuild m = true /\
  match m_channelName m with Some n => String.prefix "ticket-" n | None => false end = true /\
  negb (match or_null (OWNER_ID penv) with
        | Some owner => String.eqb (m_authorId m) owner
        | None => false
        end) && negb (m_hasManage m) = false.
Proof.
  intros (Hg & (n & Hn & Hp) & Hwho). refine (conj Hg (conj _ _)).
  - now rewrite Hn.
  - destruct Hwho as [(owner & Ho & Hne & Ha) | Hm].
    + assert (or_null (OWNER_ID penv) = Some owner) as ->
        by (apply or_null_Some; auto).
      rewrite Ha, String.eqb_refl. reflexivity.
    + rewrite Hm. apply andb_false_r.
Qed.

Lemma not_authorized_checks m penv :
  ~ authorized m penv ->
  m_inGuild m = false \/
  match m_channelName m with Some n => String.prefix "ticket-" n | None => false end = false \/
  negb (match or_null (OWNER_ID penv) with
        | Some owner => String.eqb (m_authorId m) owner
        | None => false
        end) && negb (m_hasManage m) = true.
Proof.
  intro Hn. destruct (m_inGuild m) eqn:Hg; [| auto]. right.
  destruct (match m_channelName m with Some n => String.prefix "ticket-" n | None => false end)
    eqn:Hc; [| auto]. right.
  apply andb_true_iff. split; apply negb_true_iff.
  - destruct (or_null (OWNER_ID penv)) as [owner |] eqn:Ho; [| reflexivity].
    apply or_null_Some in Ho as [Ho Hne].
    destruct (String.eqb (m_authorId m) owner) eqn:Ha; [| reflexivity].
    apply String.eqb_eq in Ha. exfalso. apply Hn. refine (conj Hg (conj _ _)).
    + destruct (m_channelName m) as [n |]; [eauto | discriminate].
    + left. eauto.
  - destruct (m_hasManage m) eqn:Hm; [| reflexivity].
    exfalso. apply Hn. refine (conj Hg (conj _ _)).
    + destruct (m_channelName m) as [n |]; [eauto | discriminate].
    + now right.
Qed.

(** What an authorized [+dn] does. *)
Lemma on_message_dn m order penv g :
  authorized m penv -> command m = Some "+dn" ->
  handle m order penv g =
    let unpaid := match order with
                  | Some o => negb (String.eqb (Order.status o) "paid")
                  | None => false
                  end in
    let n := S (default 0%nat (g !! force_key m)) in
    let g' := if unpaid then <[force_key m := n]> g else g in
    if unpaid && Nat.ltb n 2 then ([SendWarning], g') else
    ((SendClosing ::
      match order with
      | Some o =>
          let doc := invoice_doc o penv in
          CreateInvoicePDF doc ::
          (if user_found (Order.userId o)
           then [SendInvoiceToBuyer (Order.userId o) (doc_invoiceId doc)] else []) ++
          match or_null (LOG_CHANNEL_ID penv) with
          | Some l => if channel_found l then [LogCompletedOrder l (Order.id o)] else []
          | None => []
          end
      | None => []
      end ++ [SendTranscriptToLog; DeleteChannelLater])%list, g').
Proof.
  intros Ha Hc. destruct (authorized_checks m penv Ha) as (Hg & Hn & Hwho).
  unfold on_message. rewrite Hg, Hn. cbn [negb].
  fold (command m). rewrite Hc.
  rewrite (bool_decide_eq_true_2 (Some "+dn" = Some "+dn") eq_refl).
  cbn [negb andb]. rewrite Hwho.
  rewrite (bool_decide_eq_false_2 (Some "+dn" = Some "+close")) by discriminate.
  reflexivity.
Qed.


End CloseProperties.
(** * The transcript *)

Lemma insert_by_time_perm m l : Permutation (insert_by_time m l) (m :: l).
Proof.
  induction l as [| x l IH]; [reflexivity |]. cbn.
  destruct (msg_createdTimestamp m <=? msg_createdTimestamp x)%Z; [reflexivity |].
  rewrite IH. apply perm_swap.
Qed.

Lemma sort_by_time_perm l : Permutation (sort_by_time l) l.
Proof.
  induction l as [| m l IH]; [reflexivity |]. cbn.
  rewrite insert_by_time_perm. now constructor.
Qed.

Lemma insert_by_time_sorted m l :
  StronglySorted (fun a b => (msg_createdTimestamp a <= msg_createdTimestamp b)%Z) l ->
  StronglySorted (fun a b => (msg_createdTimestamp a <= msg_createdTimestamp b)%Z)
                 (insert_by_time m l).
Proof.
  induction 1 as [| x l Hs IH Hx]; cbn.
  - constructor; constructor.
  - destruct (msg_createdTimestamp m <=? msg_createdTimestamp x)%Z eqn:E.
    + apply Z.leb_le in E. constructor; [now constructor |].
      constructor; [exact E |].
      eapply Forall_impl; [exact Hx |]. cbn. intros y Hy. lia.
    + apply Z.leb_gt in E. constructor; [exact IH |].
      rewrite (insert_by_time_perm m l). constructor; [lia | exact Hx].
Qed.

Lemma sort_by_time_sorted l :
  StronglySorted (fun a b => (msg_createdTimestamp a <= msg_createdTimestamp b)%Z)
                 (sort_by_time l).
Proof.
  induction l as [| m l IH]; [constructor |]. cbn. now apply insert_by_time_sorted.
Qed.

Section TranscriptProperties.

Variable toISOString : Z -> string.
Variable fetch_messages : option string -> option (list ChatMessage).

Abbreviation loop := (transcript_loop toISOString fetch_messages).
Abbreviation lines_of := (transcript_lines toISOString fetch_messages).
Abbreviation header := (transcript_header toISOString).
Abbreviation rendered := (flat_map (message_lines toISOString)).

Lemma transcript_loop_ends fuel before fetched lines :
  (fetched < 2000)%nat -> (2000 <= fuel + fetched)%nat ->
  exists rest,
    forall fuel', (fuel <= fuel')%nat ->
      loop fuel' before fetched lines = Some (lines ++ rest)%list.
Proof.
  revert before fetched lines.
  induction fuel as [| fuel IH]; intros before fetched lines Hlt Hge; [lia |].
  destruct (fetch_messages before) as [[| m batch] |] eqn:Ef.
  - exists []. intros [| fuel'] Hf; [lia |]. cbn. now rewrite Ef, List.app_nil_r.
  - destruct (Nat.leb 2000 (fetched + length (m :: batch))) eqn:Ecap.
    + eexists. intros [| fuel'] Hf; [lia |]. cbn [transcript_loop].
      rewrite Ef, Ecap. rewrite <- List.app_assoc. reflexivity.
    + apply Nat.leb_gt in Ecap.
      destruct (IH (msg_id <$> head (sort_by_time (m :: batch)))
                   (fetched + length (m :: batch))%nat
                   (lines ++ rendered (sort_by_time (m :: batch)))%list)
        as [rest Hrest]; [exact Ecap | cbn [length] in *; lia |].
      eexists. intros [| fuel'] Hf; [lia |]. cbn [transcript_loop].
      rewrite Ef. apply Nat.leb_gt in Ecap. rewrite Ecap.
      rewrite Hrest by lia. rewrite <- List.app_assoc. reflexivity.
  - exists []. intros [| fuel'] Hf; [lia |]. cbn. now rewrite Ef, List.app_nil_r.
Qed.

Lemma transcript_loop_truncated fuel before fetched lines out :
  (forall b, exists batch, fetch_messages b = Some batch /\ batch <> []) ->
  loop fuel before fetched lines = Some out ->
  last out = Some truncated_line.
Proof.
  intro Hall. revert before fetched lines.
  induction fuel as [| fuel IH]; intros before fetched lines; [discriminate |].
  cbn [transcript_loop]. destruct (Hall before) as (batch & -> & Hne).
  destruct batch as [| m batch]; [congruence |].
  destruct (Nat.leb 2000 (fetched + length (m :: batch))).
  - intros [= <-]. apply last_snoc.
  - apply IH.
Qed.

(** X20 (main file, [buildTranscriptText]). The loop that collects the
    messages always ends, whatever the platform answers: after at most
    2000 fetches the text is there, and it starts with the five header
    lines. A first fetch that fails or brings nothing gives the header
    alone. Each batch is written oldest message first, and the batches in
    the order they were fetched, each fetch asking for what is before the
    oldest message of the batch before. When the platform never runs out
    of messages the text ends with the line that says it was cut at 2000
    messages. *)
Theorem transcript_always_ends (channel : Channel) (now : Z) :
  (exists lines rest,
     lines = (header channel now ++ rest)%list /\
     forall fuel, (2000 <= fuel)%nat ->
       lines_of fuel channel now = Some lines /\
       buildTranscriptText toISOString fetch_messages fuel channel now
         = Some (String.concat (String LF EmptyString) lines)) /\
  (fetch_messages None = None \/ fetch_messages None = Some [] ->
     forall fuel, (0 < fuel)%nat -> lines_of fuel channel now = Some (header channel now)) /\
  (forall b, Permutation (sort_by_time b) b /\
     StronglySorted (fun x y => (msg_createdTimestamp x <= msg_createdTimestamp y)%Z)
                    (sort_by_time b)) /\
  (forall b1 b2,
     b1 <> [] -> b2 <> [] -> (length b1 + length b2 < 2000)%nat ->
     fetch_messages None = Some b1 ->
     fetch_messages (msg_id <$> head (sort_by_time b1)) = Some b2 ->
     (fetch_messages (msg_id <$> head (sort_by_time b2)) = None \/
      fetch_messages (msg_id <$> head (sort_by_time b2)) = Some []) ->
     forall fuel, (3 <= fuel)%nat ->
       lines_of fuel channel now =
         Some (header channel now ++ rendered (sort_by_time b1)
                 ++ rendered (sort_by_time b2))%list) /\
  ((forall b, exists batch, fetch_messages b = Some batch /\ batch <> []) ->
   forall fuel lines, lines_of fuel channel now = Some lines ->
     last lines = Some truncated_line).
Proof.
  refine (conj _ (conj _ (conj _ (conj _ _)))).
  - destruct (transcript_loop_ends 2000 None 0 (header channel now)) as [rest Hrest];
      [lia | lia |].
    exists (header channel now ++ rest)%list, rest. split; [reflexivity |].
    intros fuel Hf. unfold buildTranscriptText, transcript_lines.
    rewrite (Hrest fuel Hf). split; reflexivity.
  - intros H [| fuel] Hf; [lia |]. unfold transcript_lines. cbn [transcript_loop].
    destruct H as [-> | ->]; reflexivity.
  - intro b. split; [apply sort_by_time_perm | apply sort_by_time_sorted].
  - intros b1 b2 Hn1 Hn2 Hlen H1 H2 H3 fuel Hf.
    destruct fuel as [| [| [| fuel]]]; try lia.
    unfold transcript_lines. cbn [transcript_loop]. rewrite H1.
    destruct b1 as [| m1 b1]; [congruence |].
    assert (Nat.leb 2000 (0 + length (m1 :: b1)) = false) as ->
      by (apply Nat.leb_gt; cbn [length] in *; lia).
    rewrite H2. destruct b2 as [| m2 b2]; [congruence |].
    assert (Nat.leb 2000 (0 + length (m1 :: b1) + length (m2 :: b2)) = false) as ->
      by (apply Nat.leb_gt; cbn [length] in *; lia).
    rewrite <- List.app_assoc. destruct H3 as [-> | ->]; reflexivity.
  - intros Hall fuel lines. unfold transcript_lines.
    apply transcript_loop_truncated. exact Hall.
Qed.

End TranscriptProperties.
(** * The Stripe webhook: when the signature counts *)

Section StripeProperties.

Variable getStripe : Env -> outcome unit.
Variable constructEvent : string -> option string -> string -> outcome StripeEvent.
Variable JSON_parse : string -> outcome StripeEvent.

(** X21 (main file, the Stripe webhook). Without a webhook secret (unset
    or empty) the signature is not looked at: the handler does the same
    for every signature header, and for a missing one, and never calls
    the verification. With a secret the event is the one the verification
    returns for the body, the signature header and the secret, the body
    is not parsed otherwise, and a request that fails the verification is
    answered "ok" and changes nothing; so is every request when the
    Stripe client cannot be had. The paid amount recorded for a session
    is its amount in cents written as dollars with two decimals, and
    none for a session without amount or with amount zero. *)
Theorem stripe_signature_only_with_secret (req : StripeRequest) (env : Env) (w : World) :
  (STRIPE_WEBHOOK_SECRET env = None \/ STRIPE_WEBHOOK_SECRET env = Some "" ->
   forall sig verify,
     stripe_webhook getStripe verify JSON_parse (mkStripeRequest (stripe_body req) sig) env w
     = stripe_webhook getStripe constructEvent JSON_parse req env w) /\
  (forall secret, STRIPE_WEBHOOK_SECRET env = Some secret -> secret <> "" ->
     (forall parse,
        stripe_webhook getStripe constructEvent parse req env w
        = stripe_webhook getStripe constructEvent JSON_parse req env w) /\
     (forall e, constructEvent (stripe_body req) (stripe_signature req) secret = Throws e ->
        stripe_webhook getStripe constructEvent JSON_parse req env w = (Return ok, w))) /\
  (forall e, getStripe env = Throws e ->
     stripe_webhook getStripe constructEvent JSON_parse req env w = (Return ok, w)) /\
  (forall s c, amount_total s = Some c -> (0 < c)%Z ->
     stripe_paidAmount (Some s) = Some (money (inject_Z c / 100))) /\
  (forall s, amount_total s = None \/ amount_total s = Some 0%Z ->
     stripe_paidAmount (Some s) = None /\ stripe_paidAmount None = None).
Proof.
  refine (conj _ (conj _ (conj _ (conj _ _)))).
  - intros Hs sig verify. apply or_null_None in Hs.
    unfold stripe_webhook, try_catch, bind, lift. cbn [stripe_body stripe_signature].
    rewrite Hs. reflexivity.
  - intros secret Hs Hne.
    assert (or_null (STRIPE_WEBHOOK_SECRET env) = Some secret) as E
      by (apply or_null_Some; auto).
    split.
    + intro parse. unfold stripe_webhook, try_catch, bind, lift. rewrite E. reflexivity.
    + intros e He. unfold stripe_webhook, try_catch, bind, lift. rewrite E, He.
      now destruct (getStripe env) as [[] | e'].
  - intros e He. unfold stripe_webhook, try_catch, bind, lift. now rewrite He.
  - intros s c Hc Hpos. unfold stripe_paidAmount, money. rewrite Hc.
    assert ((c =? 0)%Z = false) as -> by (apply Z.eqb_neq; lia).
    now rewrite (toFixed2_string_cents c (inject_Z c / 100)) by (lia || reflexivity).
  - intros s [H | H]; unfold stripe_paidAmount; rewrite H; split; reflexivity.
Qed.

End StripeProperties.
(** * The pricing function: order *)

Lemma Qfloor_nonneg x : 0 <= x -> (0 <= Qfloor x)%Z.
Proof.
  intro H. change 0%Z with (Qfloor 0). now apply Qfloor_resp_le.
Qed.

Lemma round_half_away_mono x y : x <= y -> (round_half_away x <= round_half_away y)%Z.
Proof.
  intro H. unfold round_half_away.
  destruct (Qle_bool 0 x) eqn:Ex; destruct (Qle_bool 0 y) eqn:Ey.
  - apply Qfloor_resp_le. lra.
  - apply Qle_bool_iff in Ex.
    assert (~ 0 <= y) by (rewrite <- Qle_bool_iff; congruence). lra.
  - assert (~ 0 <= x) by (rewrite <- Qle_bool_iff; congruence).
    apply Qle_bool_iff in Ey.
    assert (0 <= - x + (1 # 2)) as A by lra. assert (0 <= y + (1 # 2)) as B by lra.
    apply Qfloor_nonneg in A, B. lia.
  - assert (Qfloor (- y + (1 # 2)) <= Qfloor (- x + (1 # 2)))%Z; [| lia].
    apply Qfloor_resp_le. lra.
Qed.

Lemma toFixed2_mono x y : x <= y -> toFixed2 x <= toFixed2 y.
Proof.
  intro H. unfold toFixed2. apply cents_mono, round_half_away_mono. lra.
Qed.

Lemma sub64_mono x y x' y' : x - y <= x' - y' -> sub64 x y <= sub64 x' y'.
Proof. intro H. unfold sub64. now apply binary64_mono. Qed.

(** [Math.max(0, Math.min(a, v))] grows with [a] and with [v], and no
    faster than [a]. *)
Lemma clamped_mono a a' v v' :
  a <= a' -> v <= v' ->
  Qmax 0 (Qmin a v) <= Qmax 0 (Qmin a' v') /\
  a - Qmax 0 (Qmin a v') <= a' - Qmax 0 (Qmin a' v).
Proof.
  intros Ha Hv. split.
  - apply Q.max_le_compat_l, Q.min_le_compat; assumption.
  - destruct (Q.min_spec a v') as [[? M3] | [? M3]];
      destruct (Q.min_spec a' v) as [[? M4] | [? M4]];
      destruct (Q.max_spec 0 (Qmin a v')) as [[? N3] | [? N3]];
      destruct (Q.max_spec 0 (Qmin a' v)) as [[? N4] | [? N4]];
      rewrite N3, N4; rewrite ?M3, ?M4 in *; lra.
Qed.

Lemma percent_factor_mono v v' :
  v <= v' ->
  0 <= div64 (Qmax 0 (Qmin 100 v)) 100 <= div64 (Qmax 0 (Qmin 100 v')) 100.
Proof.
  intro H. destruct (clamped_mono 100 100 v v' ltac:(lra) H) as [L _].
  assert (0 <= Qmax 0 (Qmin 100 v)) as P by apply Q.le_max_l.
  unfold div64, Qdiv. change (/ 100) with (1 # 100). split.
  - apply binary64_nonneg. lra.
  - apply binary64_mono. lra.
Qed.

Lemma typed_cases (c : Coupon.t) :
  Coupon.type c = "fixed" \/ Coupon.type c = "percent" \/
  (Coupon.type c <> "fixed" /\ Coupon.type c <> "percent").
Proof.
  destruct (String.eqb (Coupon.type c) "fixed") eqn:E1;
    [left; now apply String.eqb_eq |].
  destruct (String.eqb (Coupon.type c) "percent") eqn:E2;
    [right; left; now apply String.eqb_eq |].
  right. right. split; now apply String.eqb_neq.
Qed.

Lemma applyCouponToAmount_other amount c :
  Coupon.type c <> "fixed" -> Coupon.type c <> "percent" ->
  applyCouponToAmount amount (Some c) = mkPriced amount 0.
Proof.
  intros H1 H2. unfold applyCouponToAmount.
  apply String.eqb_neq in H1, H2. now rewrite H1, H2.
Qed.

(** X22 (utils/coupons.js, [applyCouponToAmount]), on doubles. For a base
    amount that is not negative: the result depends on the type and the
    value of the coupon only, so an inactive or used-up coupon is applied
    like any other; a larger value never gives a smaller discount or a
    larger total; a larger base amount never gives a smaller discount,
    nor, for a coupon that is not a percent coupon, a smaller total; and a
    coupon whose type is neither "fixed" nor "percent" leaves the amount
    as it is, unrounded, with discount zero. *)
Theorem pricing_monotone (amount amount' : Q) (c c' : Coupon.t) :
  0 <= amount ->
  let r := applyCouponToAmount amount (Some c) in
  (Coupon.type c = Coupon.type c' ->
     let r' := applyCouponToAmount amount (Some c') in
     (Coupon.value c == Coupon.value c' -> total r == total r' /\ discount r == discount r') /\
     (Coupon.value c <= Coupon.value c' -> discount r <= discount r' /\ total r' <= total r)) /\
  (amount <= amount' ->
     let r' := applyCouponToAmount amount' (Some c) in
     discount r <= discount r' /\
     (Coupon.type c <> "percent" -> total r <= total r')) /\
  (Coupon.type c <> "fixed" -> Coupon.type c <> "percent" ->
     total r = amount /\ discount r = 0).
Proof.
  intros Ha r.
  assert (Hmono : forall c1 c2 : Coupon.t,
            Coupon.type c1 = Coupon.type c2 -> Coupon.value c1 <= Coupon.value c2 ->
            discount (applyCouponToAmount amount (Some c1))
              <= discount (applyCouponToAmount amount (Some c2)) /\
            total (applyCouponToAmount amount (Some c2))
              <= total (applyCouponToAmount amount (Some c1))).
  { intros c1 c2 Hty Hv.
    destruct (typed_cases c1) as [Hf | [Hp | [H1 H2]]].
    - unfold applyCouponToAmount. rewrite <- Hty, Hf.
      cbn [String.eqb Ascii.eqb Bool.eqb]. cbv zeta. cbn [total discount].
      destruct (clamped_mono amount amount _ _ ltac:(lra) Hv) as [L1 L2].
      split; [apply toFixed2_mono; exact L1 |].
      apply toFixed2_mono, sub64_mono. lra.
    - unfold applyCouponToAmount. rewrite <- Hty, Hp.
      cbn [String.eqb Ascii.eqb Bool.eqb]. cbv zeta. cbn [total discount].
      destruct (percent_factor_mono _ _ Hv) as [F0 F1].
      set (q1 := div64 (Qmax 0 (Qmin 100 (Coupon.value c1))) 100) in *.
      set (q2 := div64 (Qmax 0 (Qmin 100 (Coupon.value c2))) 100) in *.
      assert (mul64 amount q1 <= mul64 amount q2) as L
        by (unfold mul64; apply binary64_mono; nra).
      split; [apply toFixed2_mono; exact L |].
      apply toFixed2_mono, sub64_mono. lra.
    - rewrite (applyCouponToAmount_other amount c1 H1 H2).
      rewrite (applyCouponToAmount_other amount c2) by congruence.
      cbn. lra. }
  refine (conj _ (conj _ _)).
  - intros Hty r'. split; [| apply Hmono; exact Hty].
    intros Hv.
    destruct (Hmono c c' Hty) as [L1 L2]; [lra |].
    destruct (Hmono c' c (eq_sym Hty)) as [B1 B2]; [lra |].
    split; apply Qle_antisym; assumption.
  - intros Hle r'. subst r r'.
    destruct (typed_cases c) as [Hf | [Hp | [H1 H2]]].
    + unfold applyCouponToAmount. rewrite Hf.
      cbn [String.eqb Ascii.eqb Bool.eqb]. cbv zeta. cbn [total discount].
      destruct (clamped_mono amount amount' (Coupon.value c) (Coupon.value c) Hle ltac:(lra))
        as [L1 L2].
      split; [apply toFixed2_mono; exact L1 |].
      intros _. apply toFixed2_mono, sub64_mono. exact L2.
    + unfold applyCouponToAmount. rewrite Hp.
      cbn [String.eqb Ascii.eqb Bool.eqb]. cbv zeta. cbn [total discount].
      destruct (percent_factor_mono (Coupon.value c) (Coupon.value c) ltac:(lra)) as [F0 _].
      split; [| intro H; now elim H].
      apply toFixed2_mono. unfold mul64. apply binary64_mono. nra.
    + rewrite (applyCouponToAmount_other amount c H1 H2).
      rewrite (applyCouponToAmount_other amount' c H1 H2). cbn. split; [lra | intros _; lra].
  - intros H1 H2. subst r. now rewrite (applyCouponToAmount_other amount c H1 H2).
Qed.
(** * The order of the checks of [addCoupon] *)

Lemma Qle_bool_false x y : Qle_bool x y = false <-> y < x.
Proof.
  split.
  - intro H. destruct (Qlt_le_dec y x) as [L | L]; [exact L |].
    apply Qle_bool_iff in L. congruence.
  - intro H. destruct (Qle_bool x y) eqn:E; [| reflexivity].
    apply Qle_bool_iff in E. lra.
Qed.

Ltac leaf_error :=
  let msg := fresh "msg" in
  let H := fresh "H" in
  intros msg H; first [reflexivity | discriminate H].

Ltac leaf_iff :=
  let H := fresh "H" in
  split; intro H;
  first [discriminate H | reflexivity | tauto | exfalso; tauto
        | intuition discriminate | intuition congruence].

Ltac leaf :=
  cbn [throw fst snd];
  refine (conj _ (conj _ (conj _ (conj _ (conj _ (conj _ (conj _ (conj _ _))))))));
  [ leaf_error | leaf_iff .. ].

(** X23 (utils/coupons.js, [addCoupon]). The checks are made in a fixed
    order and the first that fails gives the error: an empty code is
    "Missing code" whatever else is wrong; then the format of the
    normalized code; then the type; then the value; then the percent
    bound; then [maxUses]; and only a definition that passes all of these
    is compared with the ledger, where a coupon of the same code gives
    "Coupon already exists". The write error of the file system is met
    only by a definition that is not rejected. Whatever the error, the
    files stay as they were. *)
Theorem addCoupon_error_precedence (a : AddArgs) (w : World) :
  let r := addCoupon a w in
  let code_ok := valid_code_format (normalized (arg_code a)) in
  let type_ok := arg_type a = "fixed" \/ arg_type a = "percent" in
  let value_ok := positive_finite (arg_value a) in
  let percent_ok := ~ (arg_type a = "percent" /\ exceeds (arg_value a) 100) in
  let max_ok := (0 <= default 0 (arg_maxUses a))%Z in
  let present :=
    exists x, In x (coupons w) /\ same_code (Coupon.code x) (normalized (arg_code a)) in
  (forall msg, fst r = Throws msg -> snd r = w) /\
  (fst r = Throws "Missing code" <-> arg_code a = "") /\
  (fst r = Throws "Code must be 2-32 chars (A-Z, 0-9, _ or -)" <->
     arg_code a <> "" /\ ~ code_ok) /\
  (fst r = Throws "Type must be fixed or percent" <-> code_ok /\ ~ type_ok) /\
  (fst r = Throws "Value must be > 0" <-> code_ok /\ type_ok /\ ~ value_ok) /\
  (fst r = Throws "Percent cannot exceed 100" <->
     code_ok /\ type_ok /\ value_ok /\ ~ percent_ok) /\
  (fst r = Throws "maxUses must be >= 0 (0 = unlimited)" <->
     code_ok /\ type_ok /\ value_ok /\ percent_ok /\ ~ max_ok) /\
  (fst r = Throws "Coupon already exists" <->
     code_ok /\ type_ok /\ value_ok /\ percent_ok /\ max_ok /\ present) /\
  (fst r = Throws "EACCES" <->
     code_ok /\ type_ok /\ value_ok /\ percent_ok /\ max_ok /\ ~ present /\
     fs_writable w = false).
Proof.
  intros r code_ok type_ok value_ok percent_ok max_ok present.
  assert (Hempty : arg_code a = "" -> ~ code_ok).
  { intros E. unfold code_ok. rewrite E, <- code_regex_spec. cbn. discriminate. }
  subst r. unfold addCoupon. fold (normalized (arg_code a)).
  destruct (truthy (arg_code a)) eqn:Et; cbn [negb].
  2:{ assert (arg_code a = "") as E0 by (destruct (arg_code a); [reflexivity | discriminate]).
      specialize (Hempty E0). leaf. }
  assert (arg_code a <> "") as Hne by (apply truthy_spec; exact Et).
  destruct (code_regex (normalized (arg_code a))) eqn:Er; cbn [negb].
  2:{ assert (~ code_ok) as Hc by (unfold code_ok; rewrite <- code_regex_spec; congruence).
      leaf. }
  assert (code_ok) as Hc by (apply code_regex_spec; exact Er).
  destruct (String.eqb (arg_type a) "fixed") eqn:Ef;
    destruct (String.eqb (arg_type a) "percent") eqn:Ep; cbn [negb andb].
  1:{ apply String.eqb_eq in Ef, Ep. congruence. }
  3:{ apply String.eqb_neq in Ef, Ep.
      assert (~ type_ok) as Hty by (unfold type_ok; tauto).
      leaf. }
  all: assert (type_ok) as Hty
    by (unfold type_ok; first [left; now apply String.eqb_eq | right; now apply String.eqb_eq]).
  all: destruct (arg_value a) as [v |] eqn:Ev.
  all: try (assert (~ value_ok) as Hv by (unfold value_ok; rewrite ?Ev; cbn; tauto);
            leaf).
  all: destruct (Qle_bool v 0) eqn:E0.
  all: try (apply Qle_bool_iff in E0;
            assert (~ value_ok) as Hv by (unfold value_ok; rewrite ?Ev; cbn; lra);
            leaf).
  all: apply Qle_bool_false in E0.
  all: assert (value_ok) as Hv by (unfold value_ok; rewrite ?Ev; exact E0).
  all: destruct (Qlt_bool 100 v) eqn:E100.
  all: try apply Qlt_bool_iff in E100.
  all: cbn [andb].
  all: try (assert (~ percent_ok) as Hp
              by (unfold percent_ok; rewrite ?Ev; apply String.eqb_eq in Ep; cbn; tauto);
            leaf).
  all: assert (percent_ok) as Hp
    by (unfold percent_ok; rewrite ?Ev; cbn; intros [P1 P2];
        first [apply String.eqb_neq in Ep; contradiction
              | apply Qlt_bool_iff in P2; congruence
              | assert (~ 100 < v) by (rewrite <- Qlt_bool_iff; congruence); contradiction
              | lra]).
  all: destruct (default 0 (arg_maxUses a) <? 0)%Z eqn:Em.
  all: try (apply Z.ltb_lt in Em;
            assert (~ max_ok) as Hm by (unfold max_ok; lia);
            leaf).
  all: apply Z.ltb_ge in Em.
  all: assert (max_ok) as Hm by exact Em.
  all: unfold bind, readAll.
  all: destruct (existsb _ (coupons w)) eqn:Ex.
  all: try (apply existsb_same_code in Ex;
            assert (present) as Hpr by exact Ex;
            leaf).
  all: assert (~ present) as Hpr
    by (unfold present; rewrite <- existsb_same_code; congruence).
  all: unfold writeAll, writeFile, ret.
  all: destruct (fs_writable w) eqn:Hw; cbn [fst snd].
  all: leaf.
Qed.
(** * The handlers together *)

Lemma run_op_rest op w : run_op op w = set_coupons (coupons (run_op op w)) w.
Proof.
  destruct op as [a | code | code | code |]; cbn [run_op].
  - destruct (addCoupon_cases a w) as [(_ & msg & _ & ->) | (_ & v & _ & ->)].
    + cbn. now rewrite set_coupons_same.
    + destruct (fs_writable w); cbn; [reflexivity | now rewrite set_coupons_same].
  - unfold deleteCoupon, bind, readAll, writeAll, writeFile.
    destruct (fs_writable w); cbn; [reflexivity | now rewrite set_coupons_same].
  - destruct (incrementCouponUse_effect code w) as [(idx & c & _ & _ & _ & ->) | ->].
    + destruct (fs_writable w); cbn; [reflexivity | now rewrite set_coupons_same].
    + cbn. now rewrite set_coupons_same.
  - now rewrite findCoupon_world, set_coupons_same.
  - cbn. now rewrite set_coupons_same.
Qed.

Lemma run_ops_codes ops w :
  codes_distinct (coupons w) /\ codes_well_formed (coupons w) ->
  codes_distinct (coupons (run_ops ops w)) /\ codes_well_formed (coupons (run_ops ops w)).
Proof.
  revert w. induction ops as [| op ops IH]; intros w H; [exact H |].
  cbn. apply IH, run_op_codes, H.
Qed.

Lemma run_ops_app ops ops' w : run_ops (ops ++ ops') w = run_ops ops' (run_ops ops w).
Proof. apply fold_left_app. Qed.

Lemma run_ops_coupons ops w w' :
  coupons w = coupons w' -> fs_writable w = fs_writable w' ->
  coupons (run_ops ops w) = coupons (run_ops ops w') /\
  fs_writable (run_ops ops w) = fs_writable (run_ops ops w').
Proof.
  revert w w'. induction ops as [| op ops IH]; intros w w' Hc Hw; [auto |].
  cbn. apply IH.
  - rewrite (run_op_rest op w), (run_op_rest op w'). cbn [coupons set_coupons].
    destruct op as [a | code | code | code |]; cbn [run_op].
    + unfold addCoupon.
      destruct (negb (truthy (arg_code a))); [exact Hc |].
      destruct (negb (code_regex _)); [exact Hc |].
      destruct (negb (String.eqb (arg_type a) "fixed") && _); [exact Hc |].
      destruct (arg_value a) as [v |]; [| exact Hc].
      destruct (Qle_bool v 0); [exact Hc |].
      destruct (String.eqb (arg_type a) "percent" && _); [exact Hc |].
      destruct (default 0 (arg_maxUses a) <? 0)%Z; [exact Hc |].
      unfold bind, readAll. rewrite <- Hc.
      destruct (existsb _ (coupons w)); [exact Hc |].
      unfold writeAll, writeFile, ret. rewrite <- Hw.
      destruct (fs_writable w); cbn; [reflexivity | exact Hc].
    + unfold deleteCoupon, bind, readAll, writeAll, writeFile. rewrite <- Hc, <- Hw.
      destruct (fs_writable w); cbn; [reflexivity | exact Hc].
    + now apply incrementCouponUse_ledger.
    + now rewrite !findCoupon_world.
    + exact Hc.
  - rewrite (run_op_rest op w), (run_op_rest op w'). exact Hw.
Qed.

Lemma same_paid_order_refl o : Order.status o = "paid" -> same_paid_order o o.
Proof. intro H. unfold same_paid_order. auto 12. Qed.

Lemma same_paid_order_trans o o' o'' :
  same_paid_order o o' -> same_paid_order o' o'' -> same_paid_order o o''.
Proof.
  unfold same_paid_order.
  intros (A1 & A2 & A3 & A4 & A5 & A6 & A7 & A8 & A9 & A10)
         (B1 & B2 & B3 & B4 & B5 & B6 & B7 & B8 & B9 & B10).
  repeat split; congruence.
Qed.

(** A handler that leaves the orders as they are, or stores one order
    under the id it has just drawn. *)
Lemma evolves_orders e w w' :
  store_consistent (orders w) ->
  fs_writable w' = fs_writable w -> paidNotices w' = paidNotices w ->
  coupons w' = coupons w ->
  (orders w' = orders w \/
   exists oid o, issues oid e /\ Order.id o = oid /\ orders w' = <[oid := o]> (orders w)) ->
  evolves e w w'.
Proof.
  intros Hcons Hw Hn Hc Ho.
  refine (conj Hw (conj _ (conj _ _))).
  - exists []. now rewrite Hn, List.app_nil_r.
  - exists []. exact Hc.
  - destruct Ho as [-> | (oid & o & Hi & Hid & ->)].
    + refine (conj Hcons (conj (fun _ H => H) _)).
      intros k o Hk Hp _. exists o. split; [exact Hk | now apply same_paid_order_refl].
    + refine (conj _ (conj _ _)).
      * now apply insert_consistent.
      * intros k Hk. destruct (decide (oid = k)) as [<- | Hne].
        -- rewrite lookup_insert_eq. eauto.
        -- now rewrite lookup_insert_ne.
      * intros k o0 Hk Hp Hni. exists o0. split; [| now apply same_paid_order_refl].
        rewrite lookup_insert_ne; [exact Hk |]. intros <-. now apply Hni.
Qed.

Lemma evolves_ledger e w op :
  store_consistent (orders w) -> evolves e w (run_op op w).
Proof.
  intro Hcons. rewrite run_op_rest.
  refine (conj eq_refl (conj _ (conj _ (conj Hcons (conj (fun _ H => H) _))))).
  - exists []. cbn. now rewrite List.app_nil_r.
  - exists [op]. reflexivity.
  - intros k o Hk Hp _. exists o. split; [exact Hk | now apply same_paid_order_refl].
Qed.

Lemma evolves_block e w w' :
  store_consistent (orders w) -> payment_block_only w w' -> evolves e w w'.
Proof.
  intros Hcons (Hc & _ & Hn & Hw & Hk).
  refine (conj Hw (conj _ (conj _ (conj _ (conj _ _))))).
  - exists []. now rewrite Hn, List.app_nil_r.
  - exists []. exact Hc.
  - intros k o' Ho'. specialize (Hk k). rewrite Ho' in Hk.
    destruct (orders w !! k) as [o |] eqn:Ho; [| destruct Hk].
    destruct Hk as (Hid & _). rewrite Hid. exact (Hcons k o Ho).
  - intros k [o Ho]. specialize (Hk k). rewrite Ho in Hk.
    destruct (orders w' !! k) as [o' |]; [eauto | destruct Hk].
  - intros k o Ho Hp _. specialize (Hk k). rewrite Ho in Hk.
    destruct (orders w' !! k) as [o' |]; [| destruct Hk].
    destruct Hk as (_ & _ & _ & _ & _ & _ & _ & Hsame). rewrite (Hsame Hp).
    exists o. split; [reflexivity | now apply same_paid_order_refl].
Qed.

Lemma mark_couponUsed_same o :
  Order.status o = "paid" -> same_paid_order o (mark_couponUsed o).
Proof. intro H. unfold same_paid_order. cbn. auto 12. Qed.

(** The state a confirmation leaves. *)
Lemma confirmation_shape oid p w :
  store_consistent (orders w) ->
  let w' := snd (confirmation oid p w) in
  w' = w \/
  (exists o, orders w !! oid = Some o /\ Order.status o = "paid" /\
     (w' = add_paidNotice oid w \/
      exists code,
        w' = add_paidNotice oid
               (set_orders (<[oid := mark_couponUsed o]> (orders w))
                  (set_coupons (coupons (snd (incrementCouponUse code w))) w)))) \/
  (exists o, orders w !! oid = Some o /\ Order.status o <> "paid" /\
     fs_writable w = true /\
     (ledger_after_confirmation o w = coupons w \/
      exists code, ledger_after_confirmation o w = coupons (snd (incrementCouponUse code w))) /\
     w' = mkWorld (ledger_after_confirmation o w) (pendingCoupons w)
            (<[oid := confirmed_order o p]> (orders w)) true
            (paidNotices w ++ [oid])).
Proof.
  intros Hcons w'. subst w'.
  destruct (orders w !! oid) as [o |] eqn:Ho.
  2:{ left. now rewrite confirmation_unknown. }
  pose proof (Hcons oid o Ho) as Hid.
  destruct (String.eqb (Order.status o) "paid") eqn:Hs.
  - apply String.eqb_eq in Hs. unfold confirmation, bind.
    rewrite (markPaid_paid oid p w o Ho Hs).
    destruct (order_coupon_code o) as [code |] eqn:Ec.
    2:{ right. left. exists o. refine (conj eq_refl (conj Hs _)). left.
        rewrite record_and_notify_settled by (left; exact Ec). now rewrite Hid. }
    destruct (Pricing.couponUsedMarked (Order.pricing o)) eqn:Em.
    1:{ right. left. exists o. refine (conj eq_refl (conj Hs _)). left.
        rewrite record_and_notify_settled by (right; exact Em). now rewrite Hid. }
    destruct (fs_writable w) eqn:Hw.
    + right. left. exists o. refine (conj eq_refl (conj Hs _)). right. exists code.
      rewrite (record_and_notify_fresh o code w Hw Ec Em). now rewrite Hid.
    + left. unfold record_and_notify, bind at 1. rewrite Ec, Em. cbn [negb].
      unfold bind at 1.
      destruct (incrementCouponUse_effect code w) as [(idx & c & _ & _ & _ & ->) | ->].
      * rewrite Hw. reflexivity.
      * unfold bind at 1. rewrite upsertOrder_eq, Hw. reflexivity.
  - apply String.eqb_neq in Hs.
    destruct (fs_writable w) eqn:Hw.
    + right. right. exists o. refine (conj eq_refl (conj Hs (conj eq_refl (conj _ _)))).
      * unfold ledger_after_confirmation.
        destruct (order_coupon_code o) as [code |]; [| now left].
        destruct (Pricing.couponUsedMarked (Order.pricing o)); [now left | right; eauto].
      * now rewrite (confirmation_pending oid p w o Hw Hcons Ho Hs).
    + left. unfold confirmation, bind.
      rewrite (markPaid_pending oid p w o Ho Hs), Hw. reflexivity.
Qed.

Lemma evolves_confirmation e oid p w :
  store_consistent (orders w) -> evolves e w (snd (confirmation oid p w)).
Proof.
  intro Hcons.
  assert (Hrefl : evolves e w w) by (apply evolves_orders; auto).
  destruct (confirmation_shape oid p w Hcons)
    as [-> | [(o & Ho & Hpaid & Hw') | (o & Ho & Hnp & Hw & Hl & ->)]]; [exact Hrefl | |].
  - pose proof (Hcons oid o Ho) as Hid.
    destruct Hw' as [-> | (code & ->)].
    + refine (conj eq_refl (conj _ (conj _ (conj Hcons (conj (fun _ H => H) _))))).
      * exists [oid]. reflexivity.
      * exists []. reflexivity.
      * intros k o0 Hk Hp _. exists o0. split; [exact Hk | now apply same_paid_order_refl].
    + refine (conj eq_refl (conj _ (conj _ (conj _ (conj _ _))))).
      * exists [oid]. reflexivity.
      * exists [OpIncrement code]. reflexivity.
      * cbn. apply insert_consistent; [exact Hcons | exact Hid].
      * intros k Hk. cbn. destruct (decide (oid = k)) as [<- | Hne].
        -- rewrite lookup_insert_eq. eauto.
        -- now rewrite lookup_insert_ne.
      * intros k o0 Hk Hp _. cbn. destruct (decide (oid = k)) as [<- | Hne].
        -- rewrite lookup_insert_eq. exists (mark_couponUsed o). split; [reflexivity |].
           assert (o0 = o) as -> by congruence. now apply mark_couponUsed_same.
        -- rewrite lookup_insert_ne by exact Hne.
           exists o0. split; [exact Hk | now apply same_paid_order_refl].
  - pose proof (Hcons oid o Ho) as Hid.
    destruct (confirmed_order_settled o p) as (_ & _ & Hcid).
    refine (conj (eq_sym Hw) (conj _ (conj _ (conj _ (conj _ _))))).
    + exists [oid]. reflexivity.
    + destruct Hl as [-> | (code & ->)]; [exists [] | exists [OpIncrement code]];
        reflexivity.
    + cbn. apply insert_consistent; [exact Hcons | congruence].
    + intros k Hk. cbn. destruct (decide (oid = k)) as [<- | Hne].
      * rewrite lookup_insert_eq. eauto.
      * now rewrite lookup_insert_ne.
    + intros k o0 Hk Hp _. cbn. destruct (decide (oid = k)) as [<- | Hne].
      * congruence.
      * rewrite lookup_insert_ne by exact Hne.
        exists o0. split; [exact Hk | now apply same_paid_order_refl].
Qed.

Lemma coupon_modal_submit_world ch input w :
  snd (coupon_modal_submit ch input w) = w \/
  exists m, snd (coupon_modal_submit ch input w) = set_pendingCoupons m w.
Proof.
  unfold coupon_modal_submit, bind. rewrite findCoupon_resolve.
  destruct (resolve (trim input) (coupons w)) as [c |]; [| now left].
  unfold setPendingCoupon, bind, readAll_pending, writeAll_pending, writeFile.
  destruct (fs_writable w); cbn; [right; eauto | now left].
Qed.

Lemma choose_prod_world products channel_send i oid w :
  snd (choose_prod products channel_send i oid w) = w \/
  (exists m, snd (choose_prod products channel_send i oid w) = set_pendingCoupons m w) \/
  exists o m,
    Order.id o = oid /\
    snd (choose_prod products channel_send i oid w)
    = set_orders (<[oid := o]> (orders w)) (set_pendingCoupons m w).
Proof.
  destruct (selected_product products i) as [prod |] eqn:Hsel.
  2:{ left. unfold selected_product in Hsel. unfold choose_prod.
      destruct (String.prefix "choose_prod:" (customId i)); cbn [negb]; [| reflexivity].
      unfold try_catch, bind at 1. now rewrite Hsel. }
  destruct (fs_writable w) eqn:Hw.
  - right. rewrite (choose_prod_effect products channel_send i oid w prod Hw Hsel). cbv zeta.
    assert (Hid : forall c, Order.id (order_for oid i prod c) = oid)
      by (intros [c |]; reflexivity).
    destruct (pendingCoupons w !! i_channelId i) as [pend |];
      [destruct (truthy (Pending.code pend));
       [destruct (resolve (Pending.code pend) (coupons w)) as [c |];
        [destruct (channel_send (coupon_posting prod c)) |] |] |]; cbn [snd].
    + right. eexists _, _. split; [apply Hid | reflexivity].
    + left. eexists. reflexivity.
    + right. eexists _, _. split; [apply Hid | reflexivity].
    + right. exists (order_for oid i prod None), (pendingCoupons w).
      split; [reflexivity | now destruct w].
    + right. exists (order_for oid i prod None), (pendingCoupons w).
      split; [reflexivity | now destruct w].
  - left. unfold selected_product in Hsel. unfold choose_prod.
    destruct (String.prefix "choose_prod:" (customId i)); cbn [negb]; [| reflexivity].
    unfold try_catch, bind at 1. rewrite Hsel.
    unfold getPendingCoupon, bind, readAll_pending, ret.
    destruct (pendingCoupons w !! i_channelId i) as [pend |] eqn:Ep.
    + destruct (truthy (Pending.code pend)).
      * rewrite findCoupon_resolve.
        unfold clearPendingCoupon, bind, readAll_pending.
        destruct (resolve (Pending.code pend) (coupons w)) as [c |];
          cbn beta; rewrite Ep;
          unfold writeAll_pending, writeFile; rewrite Hw; reflexivity.
      * unfold upsertOrder, bind, readOrders, writeOrders, writeFile.
        cbn. now rewrite Hw.
    + unfold upsertOrder, bind, readOrders, writeOrders, writeFile.
      cbn. now rewrite Hw.
Qed.

Section SystemProperties.

Variable JSON_stringify : Payload -> string.
Variable base64 : string -> string.
Variable md5_hex : string -> string.
Variable getStripe : Env -> outcome unit.
Variable constructEvent : string -> option string -> string -> outcome StripeEvent.
Variable JSON_parse : string -> outcome StripeEvent.
Variable products : list Product.t.
Variable JSON_stringify_body : InvoiceBody -> string.
Variable JSON_stringify_data : option InvoiceData -> string.
Variable fetch : HttpRequest -> outcome HttpResponse.
Variable createStripeCheckout : Env -> CheckoutArgs -> outcome Checkout.
Variable send_pay_link : string -> Order.t -> option string -> outcome unit.
Variable channel_send : Posting -> outcome unit.
Variable env : Env.
Variable penv : ProcessEnv.

Abbreviation handled :=
  (run_event JSON_stringify base64 md5_hex getStripe constructEvent JSON_parse products
     JSON_stringify_body JSON_stringify_data fetch createStripeCheckout send_pay_link
     channel_send env penv).
Abbreviation handled_all :=
  (run_events JSON_stringify base64 md5_hex getStripe constructEvent JSON_parse products
     JSON_stringify_body JSON_stringify_data fetch createStripeCheckout send_pay_link
     channel_send env penv).

Lemma run_event_evolves e w :
  store_consistent (orders w) -> evolves e w (handled e w).
Proof.
  intro Hcons. destruct e as [op | ch input | i oid | i | i | req | req]; cbn [run_event].
  - now apply evolves_ledger.
  - destruct (coupon_modal_submit_world ch input w) as [-> | (m & ->)];
      apply evolves_orders; auto.
  - destruct (choose_prod_world products channel_send i oid w)
      as [-> | [(m & ->) | (o & m & Hid & ->)]];
      apply evolves_orders; auto.
    right. exists oid, o. repeat split; assumption.
  - apply evolves_block; [exact Hcons |]. now apply pay_crypto_block.
  - apply evolves_block; [exact Hcons |]. now apply pay_stripe_block.
  - destruct (isCryptomusWebhookTrusted JSON_stringify base64 md5_hex req env) eqn:Ht.
    + rewrite (cryptomus_trusted JSON_stringify base64 md5_hex req env w Ht).
      destruct (payload_order req) as [oid |]; [| apply evolves_orders; auto].
      destruct (has paidStatuses (payload_status req)); [| apply evolves_orders; auto].
      cbn [snd]. now apply evolves_confirmation.
    + unfold cryptomus_webhook, try_catch. rewrite Ht. cbn. apply evolves_orders; auto.
  - rewrite stripe_by_event.
    destruct (stripe_event getStripe constructEvent JSON_parse req env) as [event | e];
      [| apply evolves_orders; auto].
    destruct (String.eqb (ev_type event) "checkout.session.completed");
      [| apply evolves_orders; auto].
    destruct (ev_data event) as [session |]; [| apply evolves_orders; auto].
    destruct (or_null (session ≫= metadata_orderId)) as [oid |];
      [| apply evolves_orders; auto].
    cbn [snd]. now apply evolves_confirmation.
Qed.

(** X24 (main file, every handler that writes to the stored state; the
    three utility modules). Whatever the sequence of coupon commands,
    coupon forms, product selections, payment buttons and webhook calls,
    each handled from start to end before the next: every order stays
    stored under its own id and no order is lost; the ledger is only ever
    changed as by operations of the ledger, so no coupon is used beyond
    its cap and the codes stay distinct and well formed; the notices of
    payment only grow; and an order that is paid stays paid, with its
    product, buyer, payment data, prices and coupon, as long as no
    selection draws its id again. *)
Theorem handlers_keep_the_books (es : list Event) (w : World) :
  store_consistent (orders w) ->
  let w' := handled_all es w in
  store_consistent (orders w') /\
  (ledger_inv (coupons w) -> ledger_inv (coupons w')) /\
  (codes_distinct (coupons w) -> codes_well_formed (coupons w) ->
   codes_distinct (coupons w') /\ codes_well_formed (coupons w')) /\
  fs_writable w' = fs_writable w /\
  (exists more, paidNotices w' = (paidNotices w ++ more)%list) /\
  (forall k, is_Some (orders w !! k) -> is_Some (orders w' !! k)) /\
  (forall k o, orders w !! k = Some o -> Order.status o = "paid" ->
     Forall (fun e => ~ issues k e) es ->
     exists o', orders w' !! k = Some o' /\ same_paid_order o o').
Proof.
  revert w. induction es as [| e es IH]; intros w Hcons.
  - cbn. refine (conj Hcons (conj (fun H => H) (conj (fun H1 H2 => conj H1 H2)
             (conj eq_refl (conj _ (conj (fun _ H => H) _)))))).
    + exists []. now rewrite List.app_nil_r.
    + intros k o Hk Hp _. exists o. split; [exact Hk | now apply same_paid_order_refl].
  - destruct (run_event_evolves e w Hcons)
      as (Hw & (more & Hn) & (ops & Hl) & Hcons1 & Hsome & Hpaid).
    destruct (IH (handled e w) Hcons1) as (I1 & I2 & I3 & I4 & (more' & I5) & I6 & I7).
    cbv zeta in *.
    change (handled_all (e :: es) w) with (handled_all es (handled e w)).
    refine (conj I1 (conj _ (conj _ (conj _ (conj _ (conj _ _)))))).
    + intro H. apply I2. rewrite Hl. now apply run_ops_ledger_inv.
    + intros H1 H2. apply I3; rewrite Hl; now apply run_ops_codes.
    + now rewrite I4, Hw.
    + exists (more ++ more')%list. now rewrite I5, Hn, List.app_assoc.
    + intros k Hk. apply I6, Hsome, Hk.
    + intros k o Hk Hp Hfresh. apply Forall_cons in Hfresh as [Hf1 Hf2].
      destruct (Hpaid k o Hk Hp Hf1) as (o1 & Hk1 & Hs1).
      destruct (I7 k o1 Hk1 (proj1 (proj2 Hs1)) Hf2) as (o2 & Hk2 & Hs2).
      exists o2. split; [exact Hk2 | now apply (same_paid_order_trans o o1 o2)].
Qed.

End SystemProperties.
(** ** The further properties on the sample data *)

Lemma sample_coupon_usable : ~ not_usable sample_coupon.
Proof. intros [H | [_ H]]; [discriminate | cbn in H; lia]. Defined.

Lemma sample_ledger_distinct : codes_distinct (coupons sample_world).
Proof. unfold codes_distinct. cbn. constructor; [intros [] | constructor]. Defined.

Lemma sample_ledger_well_formed : codes_well_formed (coupons sample_world).
Proof.
  constructor; [| constructor]. apply code_regex_spec. reflexivity.
Defined.

Lemma deleteCoupon_removes_witness :
  (exists b w',
     deleteCoupon " save30 " sample_world = (Return b, w') /\
     (forall c, In c (coupons w') <-> In c (coupons sample_world) /\ ~ names " save30 " c) /\
     sublist (coupons w') (coupons sample_world) /\
     (b = true <-> exists c, In c (coupons sample_world) /\ names " save30 " c) /\
     pendingCoupons w' = pendingCoupons sample_world /\ orders w' = orders sample_world) /\
  deleteCoupon "NONE" sample_world_readonly = (Throws "EACCES", sample_world_readonly).
Proof.
  split.
  - exact (proj1 (deleteCoupon_removes " save30 " sample_world) eq_refl).
  - exact (proj2 (deleteCoupon_removes "NONE" sample_world_readonly) eq_refl).
Defined.

Lemma findCoupon_usable_only_witness :
  fst (findCoupon "save30" sample_world) = Return (Some sample_coupon).
Proof.
  refine (proj1 (proj1 (proj2 (proj2 (findCoupon_usable_only "save30" sample_world)))
                   sample_coupon sample_ledger_distinct _ _ eq_refl)
            sample_coupon_usable).
  - discriminate.
  - left. reflexivity.
Defined.

Lemma sample_ledger_ascii : ledger_ascii (coupons sample_world).
Proof. constructor; [reflexivity | constructor]. Defined.

Lemma addCoupon_then_findCoupon_witness :
  let a := mkAddArgs " half " "percent" (Finite 50) (Some 2%Z) in
  let c := Coupon.mk "HALF" "percent" 50 0 2 true in
  let w' := set_coupons [sample_coupon; c] sample_world in
  In c (coupons w') /\
  findCoupon "HALF" w' = (Return (Some c), w') /\
  findCoupon "half" w' = (Return (Some c), w').
Proof.
  exact (addCoupon_then_findCoupon
           (mkAddArgs " half " "percent" (Finite 50) (Some 2%Z)) sample_world
           (Coupon.mk "HALF" "percent" 50 0 2 true)
           (set_coupons [sample_coupon; Coupon.mk "HALF" "percent" 50 0 2 true] sample_world)
           eq_refl sample_ledger_ascii eq_refl).
Defined.

Lemma addCoupon_then_deleteCoupon_witness :
  let c := Coupon.mk "HALF" "percent" 50 0 2 true in
  let w' := set_coupons [sample_coupon; c] sample_world in
  deleteCoupon " half " w' = (Return true, sample_world) /\
  deleteCoupon "HALF" w' = (Return true, sample_world).
Proof.
  exact (addCoupon_then_deleteCoupon
           (mkAddArgs " half " "percent" (Finite 50) (Some 2%Z)) sample_world
           (Coupon.mk "HALF" "percent" 50 0 2 true)
           (set_coupons [sample_coupon; Coupon.mk "HALF" "percent" 50 0 2 true] sample_world)
           eq_refl).
Defined.

Lemma ledger_codes_distinct_witness :
  let w := run_ops [OpAdd (mkAddArgs "half" "percent" (Finite 50) (Some 2%Z));
                    OpAdd (mkAddArgs " HALF" "fixed" (Finite 5) None);
                    OpIncrement "half"; OpDelete "save30"] sample_world in
  codes_distinct (coupons w) /\ codes_well_formed (coupons w).
Proof.
  exact (proj1 ledger_codes_distinct _ sample_world
           sample_ledger_distinct sample_ledger_well_formed).
Defined.

Lemma incrementCouponUse_times_cap_witness :
  let w' := incrementCouponUse_times 3 " save30 " sample_world in
  w' = set_coupons [with_uses sample_coupon 1] sample_world /\
  fst (incrementCouponUse " save30 " w') = Return false /\
  snd (incrementCouponUse " save30 " w') = w'.
Proof.
  assert (H : forall x, In x [] -> ~ names " save30 " x) by (intros x []).
  destruct (incrementCouponUse_times_cap 3 " save30 " sample_world [] sample_coupon []
              eq_refl eq_refl H eq_refl eq_refl) as [H1 H2].
  destruct H2 as (H2 & H3 & _); [reflexivity | discriminate |].
  exact (conj H1 (conj H2 H3)).
Defined.

Lemma findCoupon_incrementCouponUse_agree_witness :
  (exists l1 l2,
     coupons sample_world = (l1 ++ sample_coupon :: l2)%list /\
     incrementCouponUse "save30" sample_world =
       (Return true,
        set_coupons (l1 ++ with_uses sample_coupon (Coupon.uses sample_coupon + 1) :: l2)
                    sample_world)) /\
  fst (findCoupon " save30" sample_world) = Return None.
Proof.
  split.
  - refine (proj1 (proj1 (findCoupon_incrementCouponUse_agree "save30" sample_world
                            eq_refl sample_ledger_ascii)
                     eq_refl _ eq_refl) sample_coupon eq_refl).
    discriminate.
  - refine (proj2 (findCoupon_incrementCouponUse_agree " save30" sample_world
                     eq_refl sample_ledger_ascii)
              _ sample_ledger_well_formed).
    discriminate.
Defined.

Lemma pending_slot_per_channel_witness :
  let v := Pending.mk "SAVE30" "fixed" 30 1 in
  let w1 := snd (setPendingCoupon "chan-1" v sample_world) in
  let w2 := snd (clearPendingCoupon "chan-1" w1) in
  fst (getPendingCoupon "chan-1" w1) = Return (Some v) /\ w2 = sample_world.
Proof.
  intros v w1 w2.
  destruct (pending_slot_per_channel "chan-1" v sample_world eq_refl)
    as (H1 & _ & _ & H2 & _).
  exact (conj H1 (H2 eq_refl)).
Defined.

Lemma pending_writes_only_when_needed_witness :
  clearPendingCoupon "chan-1" sample_world_readonly = (Return tt, sample_world_readonly) /\
  (forall v, setPendingCoupon "chan-1" v sample_world_readonly
             = (Throws "EACCES", sample_world_readonly)).
Proof.
  split.
  - exact (proj1 (pending_writes_only_when_needed "chan-1" sample_world_readonly) eq_refl).
  - exact (proj1 (proj2 (proj2 (pending_writes_only_when_needed "chan-1" sample_world_readonly))
                    eq_refl)).
Defined.

Lemma cryptomus_signature_check_witness :
  let signed := signed_payload sample_stringify sample_base64 sample_md5 in
  isCryptomusWebhookTrusted sample_stringify sample_base64 sample_md5
    (Some (signed sample_payload_1 "secret")) sample_keyed_env = true /\
  cryptomus_webhook sample_stringify sample_base64 sample_md5
    (Some sample_payload_1) sample_keyed_env sample_world
  = (Return (mkResponse 401 "untrusted"), sample_world).
Proof.
  assert (K : "secret" <> "") by discriminate.
  split.
  - refine (proj2 (proj2 (cryptomus_signature_check sample_stringify sample_base64 sample_md5
                            None sample_keyed_env "secret" eq_refl K))
              sample_payload_1 _).
    discriminate.
  - exact (proj1 (proj2 (cryptomus_signature_check sample_stringify sample_base64 sample_md5
                           (Some sample_payload_1) sample_keyed_env "secret" eq_refl K))
             sample_world eq_refl).
Defined.

Lemma createCryptomusInvoice_outcomes_witness :
  fst (getEnv sample_env (mkProcessEnv (Some "uuid-1") (Some "name-2") (Some "name-3")
                            None None None None)) = "uuid-1" /\
  fst (getEnv sample_env (mkProcessEnv (Some "") (Some "name-2") (Some "name-3")
                            None None None None)) = "name-2" /\
  fst (getEnv sample_env sample_penv) = "merchant-1" /\
  (forall fetch,
     createCryptomusInvoice sample_stringify_body sample_stringify_data
       sample_base64 sample_md5 fetch sample_invoice_args sample_env sample_penv
     = Throws "Missing CRYPTOMUS_API_KEY") /\
  (exists res data,
     sample_fetch (invoice_request sample_stringify_body sample_base64 sample_md5
                     sample_invoice_args "merchant-1" "secret") = Return res /\
     res_ok res = true /\ res_data res = Some data /\
     data_result_url data = Some "https://pay.example/1" /\
     data_result_uuid data = Some "inv-1").
Proof.
  refine (conj _ (conj _ (conj _ (conj _ _)))).
  - refine (proj1 (proj1 (proj2 (createCryptomusInvoice_outcomes
              sample_stringify_body sample_stringify_data sample_base64 sample_md5
              sample_invoice_args sample_env
              (mkProcessEnv (Some "uuid-1") (Some "name-2") (Some "name-3")
                 None None None None)))) "uuid-1" eq_refl _).
    discriminate.
  - refine (proj1 (proj2 (proj1 (proj2 (createCryptomusInvoice_outcomes
              sample_stringify_body sample_stringify_data sample_base64 sample_md5
              sample_invoice_args sample_env
              (mkProcessEnv (Some "") (Some "name-2") (Some "name-3")
                 None None None None))))) "name-2" (or_intror eq_refl) eq_refl _).
    discriminate.
  - exact (proj2 (proj2 (proj1 (proj2 (createCryptomusInvoice_outcomes
              sample_stringify_body sample_stringify_data sample_base64 sample_md5
              sample_invoice_args sample_env sample_penv))))
             "merchant-1" (or_introl eq_refl) (or_introl eq_refl) eq_refl).
  - refine (proj1 (proj2 (proj2 (proj2 (createCryptomusInvoice_outcomes
              sample_stringify_body sample_stringify_data sample_base64 sample_md5
              sample_invoice_args sample_env sample_penv)))) _ _).
    + discriminate.
    + left. reflexivity.
  - exact (proj2 (proj2 (proj2 (proj2 (proj1 (proj2 (proj2 (proj2 (proj2 (proj2
             (createCryptomusInvoice_outcomes
                sample_stringify_body sample_stringify_data sample_base64 sample_md5
                sample_invoice_args sample_keyed_env sample_penv))))))
             sample_fetch (mkInvoice "https://pay.example/1" (Some "inv-1")) eq_refl))))).
Defined.

Lemma product_rows_layout_witness :
  selected_product sample_products
    (mkInteraction (button_customId (product_button (Product.mk "p2" "Pro" 50)))
                   "chan-1" "user-1")
  = Some (Product.mk "p2" "Pro" 50).
Proof.
  refine (proj2 (proj2 (proj2 (proj2 (proj2 (product_rows_layout sample_products))))
                   (Product.mk "p2" "Pro" 50) "chan-1" "user-1") _ _ eq_refl).
  - right. left. reflexivity.
  - cbn. constructor; [| constructor; [| constructor]].
    + rewrite list_elem_of_In. intros [H | []]. discriminate.
    + apply not_elem_of_nil.
Defined.

Lemma choose_prod_spends_nothing_witness :
  let r := choose_prod sample_products sample_send sample_press_1 "order-2" sample_world in
  let w0 := snd (coupon_modal_submit "chan-1" "save30" sample_world) in
  let r0 := choose_prod sample_products sample_send_refused sample_press_1 "order-2" w0 in
  let r' := choose_prod sample_products sample_send sample_press_1 "order-2"
              sample_world_readonly in
  (exists o, orders (snd r) !! "order-2" = Some o /\
             fst r = Return ChoosePaymentMethod /\ Order.status o = "pending") /\
  (applied_coupon sample_press_1 w0 = Some sample_coupon /\
   fst r0 = Return (ErrorReply "Missing Access") /\
   orders (snd r0) = orders w0 /\
   pendingCoupons (snd r0) = delete "chan-1" (pendingCoupons w0)) /\
  snd r' = sample_world_readonly.
Proof.
  cbv zeta. refine (conj _ (conj _ _)).
  - destruct (proj1 (proj2 (proj2 (proj2 (proj2 (proj2 (proj2
               (choose_prod_spends_nothing sample_products sample_send sample_press_1
                  "order-2" sample_world)))))) eq_refl (Product.mk "p1" "Starter" 100) eq_refl)
              (fun c _ => eq_refl))
      as (o & Ho & _ & Hr & _ & Hs & _).
    exists o. exact (conj Ho (conj (Hr eq_refl) Hs)).
  - refine (conj eq_refl _).
    exact (proj1 (proj2 (proj2 (proj2 (proj2 (proj2 (proj2 (proj2
             (choose_prod_spends_nothing sample_products sample_send_refused sample_press_1
                "order-2" (snd (coupon_modal_submit "chan-1" "save30" sample_world))))))))
             eq_refl (Product.mk "p1" "Starter" 100) eq_refl))
             sample_coupon "Missing Access" eq_refl eq_refl).
  - exact (proj1 (proj1 (proj2 (proj2 (proj2 (proj2 (proj2
             (choose_prod_spends_nothing sample_products sample_send sample_press_1 "order-2"
                sample_world_readonly)))))) eq_refl)).
Defined.

Lemma coupon_modal_submit_outcomes_witness :
  let r := coupon_modal_submit "chan-1" " save30 " sample_world in
  fst r = Return (CouponSaved "SAVE30") /\
  pendingCoupons (snd r) !! "chan-1" = Some (Pending.mk "SAVE30" "fixed" 30 1).
Proof.
  exact (proj1 (proj2 (proj2
           (proj2 (proj2 (proj2 (proj2
              (coupon_modal_submit_outcomes "chan-1" " save30 " sample_world))))
              sample_coupon eq_refl))) eq_refl).
Defined.

Lemma coupon_shared_by_pending_orders_witness :
  let w1 := snd (coupon_modal_submit "chan-1" "save30" sample_world) in
  let w2 := snd (choose_prod sample_products sample_send sample_press_1 "order-2" w1) in
  let w3 := snd (coupon_modal_submit "chan-1" "save30" w2) in
  let w4 := snd (choose_prod sample_products sample_send sample_press_2 "order-3" w3) in
  let w5 := snd (confirmation "order-2" (mkPatch "stripe" "stripe" None None) w4) in
  let w6 := snd (confirmation "order-3" (mkPatch "crypto" "cryptomus" None None) w5) in
  (exists o, orders w6 !! "order-2" = Some o /\ attached_code o = Some "SAVE30") /\
  (exists o, orders w6 !! "order-3" = Some o /\ attached_code o = Some "SAVE30") /\
  coupons w6 = coupons (incrementCouponUse_times 2 "SAVE30" sample_world).
Proof.
  intros w1 w2 w3 w4 w5 w6.
  destruct (coupon_shared_by_pending_orders sample_products sample_send
              "chan-1" "chan-1" "save30" sample_press_1 sample_press_2
              "order-2" "order-3" sample_world
              (Product.mk "p1" "Starter" 100) (Product.mk "p2" "Pro" 50) sample_coupon
              (mkPatch "stripe" "stripe" None None) (mkPatch "crypto" "cryptomus" None None)
              eq_refl sample_world_consistent eq_refl eq_refl eq_refl eq_refl eq_refl)
    as [_ (H1 & H2 & H3 & _)]; [discriminate | reflexivity | reflexivity |].
  refine (conj _ (conj _ H3)).
  - eexists. split; [exact H1 | reflexivity].
  - eexists. split; [exact H2 | reflexivity].
Defined.

Lemma pay_buttons_change_payment_block_only_witness :
  let inv := mkInvoice "https://pay.example/1" (Some "inv-1") in
  let w1 := snd (confirmation "order-1" (mkPatch "stripe" "stripe" None None) sample_world) in
  let w2 := snd (pay_crypto_finish sample_send_pay_link sample_order inv w1) in
  payment_block_only sample_world
    (snd (pay_crypto sample_stringify_body sample_stringify_data sample_base64 sample_md5
            sample_fetch sample_send_pay_link sample_pay_press sample_keyed_env sample_penv
            sample_world)) /\
  (Order.status <$> orders w1 !! "order-1" = Some "paid" /\
   orders w2 !! "order-1" = Some (with_payment sample_order (crypto_payment sample_order inv)) /\
   Order.status (with_payment sample_order (crypto_payment sample_order inv)) = "pending" /\
   coupons w2 = coupons w1).
Proof.
  cbv zeta. split.
  - exact (proj1 (pay_buttons_change_payment_block_only
                    sample_stringify_body sample_stringify_data sample_base64 sample_md5
                    sample_fetch sample_createStripeCheckout sample_send_pay_link
                    sample_pay_press sample_keyed_env sample_penv sample_world
                    sample_world_consistent)).
  - destruct (proj2 (proj2 (proj2 (proj2 (proj2 (proj2 (proj2
               (pay_buttons_change_payment_block_only
                  sample_stringify_body sample_stringify_data sample_base64 sample_md5
                  sample_fetch sample_createStripeCheckout sample_send_pay_link
                  sample_pay_press sample_keyed_env sample_penv sample_world
                  sample_world_consistent)))))))
               sample_order (mkInvoice "https://pay.example/1" (Some "inv-1"))
               (mkCheckout None None)
               (snd (confirmation "order-1" (mkPatch "stripe" "stripe" None None)
                       sample_world)))
      as ((Hc & _) & _ & Hw).
    destruct (Hw eq_refl) as (Ho & _ & Hs & _).
    exact (conj eq_refl (conj Ho (conj Hs Hc))).
Defined.

Lemma sample_press_names_order :
  (split_colon_1 (customId sample_pay_press) ≫= fun k => orders sample_world !! k)
  = Some sample_order.
Proof. reflexivity. Defined.

Lemma sample_order_not_paid : Order.status sample_order <> "paid".
Proof. discriminate. Defined.

Lemma pay_crypto_link_witness :
  pay_crypto sample_stringify_body sample_stringify_data sample_base64 sample_md5
    sample_fetch sample_send_pay_link sample_pay_press sample_env sample_penv sample_world
  = (Return (PayError "Missing CRYPTOMUS_API_KEY"), sample_world) /\
  orders (snd (pay_crypto sample_stringify_body sample_stringify_data sample_base64
                 sample_md5 sample_fetch sample_send_pay_link sample_pay_press
                 sample_keyed_env sample_penv sample_world)) !! "order-1"
  = Some (with_payment sample_order
            (Payment.mk (Some "crypto") (Some "cryptomus") (Some "https://pay.example/1")
                        (Some "inv-1") None)).
Proof.
  split.
  - refine (proj1 (proj2 (proj2 (proj2 (proj2 (proj2
              (pay_crypto_link sample_stringify_body sample_stringify_data sample_base64
                 sample_md5 sample_fetch sample_send_pay_link sample_pay_press
                 sample_env sample_penv sample_world sample_order
                 eq_refl sample_press_names_order sample_order_not_paid)))))) _ _).
    + discriminate.
    + left. reflexivity.
  - exact (proj1 (proj2 (proj2
             (proj2 (proj2 (proj2 (proj2 (proj2 (proj2
                (pay_crypto_link sample_stringify_body sample_stringify_data sample_base64
                   sample_md5 sample_fetch sample_send_pay_link sample_pay_press
                   sample_keyed_env sample_penv sample_world sample_order
                   eq_refl sample_press_names_order sample_order_not_paid))))))
                (mkInvoice "https://pay.example/1" (Some "inv-1")) eq_refl)) eq_refl)).
Defined.

Lemma pay_link_written_after_confirmation_witness :
  let p := mkPatch "stripe" "stripe" (Some "pi_1") (Some "$70.00") in
  let inv := mkInvoice "https://pay.example/1" (Some "inv-1") in
  let w1 := snd (confirmation "order-1" p sample_world) in
  let w2 := snd (pay_crypto_finish sample_send_pay_link sample_order inv w1) in
  let w3 := snd (confirmation "order-1" p w2) in
  orders w1 !! "order-1" = Some (mark_couponUsed (paid_order sample_order p)) /\
  orders w2 !! "order-1" = Some (with_payment sample_order (crypto_payment sample_order inv)) /\
  paidNotices w3 = ["order-1"; "order-1"].
Proof.
  intros p inv w1 w2 w3.
  destruct (pay_link_written_after_confirmation
              sample_stringify_body sample_stringify_data sample_base64 sample_md5
              sample_fetch sample_send_pay_link sample_pay_press sample_keyed_env sample_penv
              sample_world sample_order "SAVE30" inv p p
              eq_refl eq_refl sample_world_consistent sample_press_names_order
              sample_order_not_paid eq_refl eq_refl eq_refl)
    as (_ & H1 & H2 & _ & _ & _ & _ & _ & H3).
  exact (conj H1 (conj H2 H3)).
Defined.

Lemma sample_dn_authorized : authorized sample_dn sample_penv.
Proof.
  refine (conj eq_refl (conj _ _)).
  - exists "ticket-user-1". split; reflexivity.
  - left. exists "owner-1". repeat split. discriminate.
Defined.


Lemma transcript_always_ends_witness :
  (forall fuel, (3 <= fuel)%nat ->
     transcript_lines sample_iso sample_fetch_messages fuel sample_channel 50
     = Some (transcript_header sample_iso sample_channel 50
             ++ flat_map (message_lines sample_iso)
                  [sample_message "m3" 30; sample_message "m4" 40]
             ++ flat_map (message_lines sample_iso)
                  [sample_message "m1" 10; sample_message "m2" 20])%list) /\
  (forall fuel lines,
     transcript_lines sample_iso sample_fetch_forever fuel sample_channel 50 = Some lines ->
     last lines = Some truncated_line).
Proof.
  split.
  - refine (proj1 (proj2 (proj2 (proj2
              (transcript_always_ends sample_iso sample_fetch_messages sample_channel 50))))
              [sample_message "m4" 40; sample_message "m3" 30]
              [sample_message "m2" 20; sample_message "m1" 10]
              _ _ _ eq_refl eq_refl _).
    + discriminate.
    + discriminate.
    + cbn. lia.
    + right. reflexivity.
  - refine (proj2 (proj2 (proj2 (proj2
              (transcript_always_ends sample_iso sample_fetch_forever sample_channel 50))))
              _).
    intro b. exists [sample_message "m1" 10]. split; [reflexivity | discriminate].
Defined.

Lemma stripe_signature_only_with_secret_witness :
  stripe_webhook sample_getStripe (fun _ _ _ => Return (mkEvent "charge.failed" None))
    sample_parse (mkStripeRequest "{}" (Some "forged")) sample_env sample_world
  = stripe_webhook sample_getStripe sample_constructEvent sample_parse
      (mkStripeRequest "{}" None) sample_env sample_world.
Proof.
  refine (proj1 (stripe_signature_only_with_secret sample_getStripe sample_constructEvent
                   sample_parse (mkStripeRequest "{}" None) sample_env sample_world) _
            (Some "forged") (fun _ _ _ => Return (mkEvent "charge.failed" None))).
  left. reflexivity.
Defined.

Lemma pricing_monotone_witness :
  let c := Coupon.mk "SAVE30" "fixed" (cents 3000) 0 1 true in
  let c' := Coupon.mk "SAVE50" "fixed" (cents 5000) 1 1 false in
  discount (applyCouponToAmount (cents 1990) (Some c))
    <= discount (applyCouponToAmount (cents 1990) (Some c')) /\
  total (applyCouponToAmount (cents 1990) (Some c'))
    <= total (applyCouponToAmount (cents 1990) (Some c)) /\
  discount (applyCouponToAmount (cents 1990) (Some c))
    <= discount (applyCouponToAmount (cents 7001) (Some c)) /\
  total (applyCouponToAmount (cents 1990) (Some c))
    <= total (applyCouponToAmount (cents 7001) (Some c)).
Proof.
  intros c c'.
  assert (H0 : 0 <= cents 1990) by (vm_compute; discriminate).
  destruct (pricing_monotone (cents 1990) (cents 7001) c c' H0) as (H1 & H2 & _).
  destruct (proj2 (H1 eq_refl)) as [D T]; [vm_compute; discriminate |].
  destruct H2 as [D2 T2]; [vm_compute; discriminate |].
  refine (conj D (conj T (conj D2 (T2 _)))). discriminate.
Defined.

Lemma addCoupon_error_precedence_witness :
  fst (addCoupon (mkAddArgs "" "bogus" NotFinite (Some (-1)%Z)) sample_world_readonly)
  = Throws "Missing code" /\
  fst (addCoupon (mkAddArgs "save30" "percent" (Finite 50) None) sample_world_readonly)
  = Throws "Coupon already exists".
Proof.
  split.
  - exact (proj2 (proj1 (proj2 (addCoupon_error_precedence
             (mkAddArgs "" "bogus" NotFinite (Some (-1)%Z)) sample_world_readonly)))
             eq_refl).
  - refine (proj2 (proj1 (proj2 (proj2 (proj2 (proj2 (proj2 (proj2 (proj2
              (addCoupon_error_precedence
                 (mkAddArgs "save30" "percent" (Finite 50) None)
                 sample_world_readonly))))))))) _).
    refine (conj _ (conj _ (conj _ (conj _ (conj _ _))))).
    + apply code_regex_spec. reflexivity.
    + right. reflexivity.
    + cbn. lra.
    + intros [_ H]. cbn in H. lra.
    + cbn. lia.
    + exists sample_coupon. split; [left; reflexivity | reflexivity].
Defined.

Lemma sample_ledger_inv : ledger_inv (coupons sample_world).
Proof. constructor; [| constructor]. unfold within_cap. cbn. lia. Defined.

Lemma handlers_keep_the_books_witness :
  let w' :=
    run_events sample_stringify sample_base64 sample_md5 sample_getStripe
      sample_constructEvent sample_parse sample_products sample_stringify_body
      sample_stringify_data sample_fetch sample_createStripeCheckout sample_send_pay_link
      sample_send sample_keyed_env sample_penv
      [EvCouponForm "chan-1" "save30"; EvSelect sample_press_1 "order-2";
       EvPayCrypto sample_pay_press; EvStripe (mkStripeRequest "{}" None);
       EvLedger (OpDelete "save30"); EvCryptomus (Some sample_payload_1)]
      sample_world in
  store_consistent (orders w') /\ ledger_inv (coupons w') /\
  is_Some (orders w' !! "order-1").
Proof.
  intro w'.
  destruct (handlers_keep_the_books sample_stringify sample_base64 sample_md5
              sample_getStripe sample_constructEvent sample_parse sample_products
              sample_stringify_body sample_stringify_data sample_fetch
              sample_createStripeCheckout sample_send_pay_link sample_send
              sample_keyed_env sample_penv
              [EvCouponForm "chan-1" "save30"; EvSelect sample_press_1 "order-2";
               EvPayCrypto sample_pay_press; EvStripe (mkStripeRequest "{}" None);
               EvLedger (OpDelete "save30"); EvCryptomus (Some sample_payload_1)]
              sample_world sample_world_consistent)
    as (H1 & H2 & _ & _ & _ & H3 & _).
  refine (conj H1 (conj (H2 sample_ledger_inv) (H3 "order-1" _))).
  exists sample_order. reflexivity.
Defined.

